(** * Test_SpeedForce: the analysis job orchestrator

    A shallow embedding of the video analysis service:
    - [GPTZeroService.detectAIProbability] and
      [GPTZeroService.processTranscriptionSegments] (the segment fan-out),
    - [DemoService.simulateAnalysis] (the simulation path),
    - [dbOperations] over the [analysis_results] table,
    - [AnalysisService.startAnalysis] and [AnalysisService.getAnalysisResult],
    - the [GET /api/result/:id] route,
    - [ElevenLabsService.transcribeAudio] and [processTranscription], the
      choice of the audio format in [YouTubeService.downloadAudio],
      [AudioService.cleanupTempFiles] and the [POST /api/analyze] route.

    A JavaScript number is the rational ([Q]) it denotes: the numbers of
    the service are finite doubles, and neither an infinity nor [NaN] is
    modelled.  Where the source adds and divides them, the result is the
    exact one rounded to the nearest double ([Js.binary64]).  A string is
    held as the bytes of its UTF-8 encoding; one with an unpaired surrogate
    has no such encoding and is not modelled.  Promises are run
    to completion in program order, so an [await] is an ordinary
    sequencing point.  Calls to the logger are left out, except for the
    warnings that replace an error path. *)

From Stdlib Require Import QArith Qround Qabs Qpower ZArith Lia Lqa.
From Stdlib Require Import Ascii String.
From stdpp Require Import gmap strings list.

Open Scope string_scope.
Open Scope list_scope.

(** ** JavaScript values as far as the service inspects them *)

Module Js.

(** Truthiness of a string-valued property that may be [undefined]. *)
Definition truthy_str (o : option string) : bool :=
  match o with
  | Some s => negb (s =? "")
  | None => false
  end.

(** Truthiness of a number-valued property that may be [undefined]. *)
Definition truthy_num (o : option Z) : bool :=
  match o with
  | Some z => negb (z =? 0)%Z
  | None => false
  end.

(** [x || d] for a numeric property [x]. *)
Definition num_or (o : option Q) (d : Q) : Q :=
  match o with
  | Some q => if Qeq_bool q 0 then d else q
  | None => d
  end.

(** [x || d] for a string property [x]. *)
Definition str_or (o : option string) (d : string) : string :=
  match o with
  | Some s => if s =? "" then d else s
  | None => d
  end.

(** ECMAScript's WhiteSpace and LineTerminator code points, by the
    length of their UTF-8 encoding.  One byte: TAB, LF, VT, FF, CR and
    SP. *)
Definition whitespace1 (a : ascii) : bool :=
  let x := nat_of_ascii a in
  ((9 <=? x)%nat && (x <=? 13)%nat) || (x =? 32)%nat.

(** Two bytes: U+00A0, the no-break space. *)
Definition whitespace2 (a b : ascii) : bool :=
  (nat_of_ascii a =? 194)%nat && (nat_of_ascii b =? 160)%nat.

(** Three bytes: U+1680; U+2000 to U+200A, U+2028, U+2029 and U+202F;
    U+205F; U+3000; U+FEFF. *)
Definition whitespace3 (a b c : ascii) : bool :=
  let x := nat_of_ascii a in
  let y := nat_of_ascii b in
  let z := nat_of_ascii c in
  ((x =? 225)%nat && (y =? 154)%nat && (z =? 128)%nat)
  || ((x =? 226)%nat && (y =? 128)%nat
      && (((128 <=? z)%nat && (z <=? 138)%nat)
          || (z =? 168)%nat || (z =? 169)%nat || (z =? 175)%nat))
  || ((x =? 226)%nat && (y =? 129)%nat && (z =? 159)%nat)
  || ((x =? 227)%nat && (y =? 128)%nat && (z =? 128)%nat)
  || ((x =? 239)%nat && (y =? 187)%nat && (z =? 191)%nat).

Fixpoint trimStart (s : string) : string :=
  match s with
  | EmptyString => EmptyString
  | String a r =>
      if whitespace1 a then trimStart r
      else
        match r with
        | EmptyString => s
        | String b r2 =>
            if whitespace2 a b then trimStart r2
            else
              match r2 with
              | EmptyString => s
              | String c r3 => if whitespace3 a b c then trimStart r3 else s
              end
        end
  end.

(** [s] is made of white space only. *)
Definition is_blank (s : string) : bool := trimStart s =? "".

(** The longest suffix of white space goes.  A suffix that starts within
    the encoding of a code point starts with a continuation byte, and so is
    not blank. *)
Fixpoint trimEnd (s : string) : string :=
  match s with
  | EmptyString => EmptyString
  | String a r => if is_blank s then EmptyString else String a (trimEnd r)
  end.

(** [String.prototype.trim] *)
Definition trim (s : string) : string := trimEnd (trimStart s).

(** [hay.includes(needle)] *)
Fixpoint includes (hay needle : string) : bool :=
  String.prefix needle hay
  || match hay with
     | EmptyString => false
     | String _ r => includes r needle
     end.

(** [2^k] for an integer [k]. *)
Definition pow2 (k : Z) : Q := (2 ^ k)%Q.

(** The integer nearest to [x], the even one of two that are as near. *)
Definition round_half_even (x : Q) : Z :=
  let f := Qfloor x in
  match (x - inject_Z f ?= 1 # 2)%Q with
  | Lt => f
  | Gt => (f + 1)%Z
  | Eq => if Z.even f then f else (f + 1)%Z
  end.

(** The [e] with [2^e <= a < 2^(e+1)], for a positive [a]. *)
Definition exponent (a : Q) : Z :=
  let e := (Z.log2 (Qnum a) - Z.log2 (Zpos (Qden a)))%Z in
  if Qle_bool (pow2 e) a then e else (e - 1)%Z.

(** The double nearest to a positive [a], ties to the even significand:
    53 bits of significand, exponents from -1022, subnormals below. *)
Definition nearest (a : Q) : Q :=
  let quantum := pow2 (Z.max (exponent a) (-1022) - 52) in
  (inject_Z (round_half_even (a / quantum)) * quantum)%Q.

(** The double nearest to [q], in lowest terms.  A result past the largest
    double, an infinity in JavaScript, is outside the model. *)
Definition binary64 (q : Q) : Q :=
  match Qnum q with
  | Z0 => 0%Q
  | Zpos _ => Qred (nearest q)
  | Zneg _ => Qred (- nearest (- q))
  end.

(** [x + y] and [x / y] on doubles: the exact result, rounded. *)
Definition add (x y : Q) : Q := binary64 (Qred (x + y)).

Definition div (x y : Q) : Q := binary64 (Qred (x / y)).

End Js.

(** ** Transcripts and per-segment detection results *)

(** The [text] property of a segment, as the fan-out tests it:
    a falsy value, a string, or a truthy value that is not a string (and
    so has no [trim] method). *)
Inductive JsText : Type :=
| TextAbsent
| TextStr (s : string)
| TextOther.

Record Segment : Type := {
  seg_start : Q;
  seg_end : Q;
  seg_text : JsText;
  seg_speaker : option string;
  seg_confidence : option Q;
}.

(** The [segments] property of a transcript: falsy, a truthy value that is
    not an array, or an array. *)
Inductive SegmentsField : Type :=
| SegmentsMissing
| SegmentsNotArray
| SegmentsArray (segs : list Segment).

Record Speaker : Type := {
  speaker_id : string;
  speaker_name : string;
}.

Record WordTimestamp : Type := {
  word_word : string;
  word_start : Q;
  word_end : Q;
  word_confidence : Q;
}.

Record TranscriptMetadata : Type := {
  meta_language : string;
  meta_duration : Q;
  meta_confidence : Q;
}.

Record Transcription : Type := {
  tr_text : string;
  tr_segments : SegmentsField;
  tr_speakers : list Speaker;
  tr_wordTimestamps : list WordTimestamp;
  tr_metadata : TranscriptMetadata;
}.

(** The [ai_detection] object attached to a segment.  Every property is
    optional: the four shapes the fan-out builds populate different ones. *)
Record AiDetection : Type := {
  ad_error : option string;
  ad_details : option string;
  ad_ai_probability : option Q;
  ad_prediction : option string;
  ad_confidence : option Q;
  ad_metadata : option string;
}.

(** [{...segment, ai_detection}] *)
Record EnhancedSegment : Type := {
  es_segment : Segment;
  es_ai_detection : AiDetection;
}.

(** ** The world outside the service *)

(** One entry of [response.data.documents]. *)
Record GptDocument : Type := {
  doc_ai_probability : option Q;
  doc_prediction : option string;
  doc_confidence : option Q;
  doc_metadata : option string;
}.

(** Outcome of [client.post("/v2/predict", ...)]: the promise resolves
    with a body whose [documents] may be missing, or it rejects with an
    error carrying a message and possibly a response body. *)
Inductive PostOutcome : Type :=
| PostResolved (documents : option (list GptDocument))
| PostRejected (message : string) (response_data : option string).

(** [YouTubeService.processVideo] *)
Inductive VideoResult : Type :=
| VideoOk (screenshotPath audioPath : string)
| VideoFail (error : string).

(** [AudioService.processAudio] *)
Inductive AudioResult : Type :=
| AudioOk (wavPath originalInfo wavInfo : string)
| AudioFail (error : string).

(** [ElevenLabsService.transcribeAudio] *)
Inductive TranscribeResult : Type :=
| TranscribeOk (transcription : Transcription)
| TranscribeFail (error : string) (details : option string).

(** The structured values the orchestrator hands on and serialises: a
    string, a whole transcript, an array of segments with their detection
    results, an array of segments as the transcript has them, a value the
    service never looks into, the three-number summary
    of the real path, and the detection fixture of the simulation. *)
Inductive Payload : Type :=
| PayloadText (s : string)
| PayloadTranscription (t : Transcription)
| PayloadSegments (rs : list EnhancedSegment)
| PayloadRawSegments (segs : list Segment)
| PayloadOpaque
| PayloadSummary (overall_ai_probability : Q)
    (processed_segments total_segments : nat)
| PayloadDemoDetection (rs : list EnhancedSegment)
    (overall_ai_probability : Q).

(** What [JSON.parse] yields. *)
#[local] Unset Elimination Schemes.
Inductive Json : Type :=
| JNull
| JBool (b : bool)
| JNum (q : Q)
| JStr (s : string)
| JArr (items : list Json)
| JObj (fields : list (string * Json)).
#[local] Set Elimination Schemes.

Record World : Type := {
  (** [!process.env.ELEVENLABS_API_KEY || !process.env.GPTZERO_API_KEY] *)
  isDemoMode : bool;
  (** the identifier [uuidv4()] hands out *)
  uuidv4 : string;
  (** successive readings of [Date.now()] *)
  Date_now : nat -> Z;
  (** successive values of SQLite's [CURRENT_TIMESTAMP], one per write *)
  CURRENT_TIMESTAMP : nat -> string;
  processVideo : string -> string -> VideoResult;
  processAudio : string -> string -> AudioResult;
  transcribeAudio : string -> string -> TranscribeResult;
  (** the [k]-th request to the detection endpoint, with its text *)
  gptzero_post : nat -> string -> PostOutcome;
  (** whether writing the placeholder files of the simulation throws *)
  demo_fs_error : option string;
  JSON_stringify : Payload -> string;
  (** [None]: [JSON.parse] throws a [SyntaxError] *)
  JSON_parse : string -> option Json;
}.

(** ** The job record store *)

(** A row of [analysis_results]; [None] is SQL [NULL]. *)
Record Row : Type := {
  row_id : string;
  row_youtube_url : string;
  row_status : string;
  row_created_at : string;
  row_updated_at : string;
  row_screenshot_path : option string;
  row_audio_path : option string;
  row_transcription : option string;
  row_ai_probabilities : option string;
  row_error_message : option string;
  row_processing_time : option Z;
}.

(** What the service does to the outside, in program order. *)
Inductive Event : Type :=
| EvInsert (id url status : string)
| EvUpdate (id status : string)
| EvProcessVideo (url id : string)
| EvProcessAudio (audioPath id : string)
| EvTranscribe (wavPath id : string)
| EvDetect (text : string)
| EvDelay (ms : nat)
| EvSimulate (url id : string)
| EvWarn (message : string).

Record St : Type := {
  st_db : gmap string Row;
  st_trace : list Event;
  st_writes : nat;
  st_clock : nat;
  st_requests : nat;
}.

(** ** Computations: state passing with exceptions *)

Inductive Completion (A : Type) : Type :=
| Normal (a : A)
| Throw (message : string).
Arguments Normal {A} a.
Arguments Throw {A} message.

Definition M (A : Type) : Type := St -> Completion A * St.

Definition ret {A} (a : A) : M A := fun st => (Normal a, st).

Definition throw {A} (message : string) : M A := fun st => (Throw message, st).

Definition bind {A B} (m : M A) (k : A -> M B) : M B :=
  fun st =>
    match m st with
    | (Normal a, st') => k a st'
    | (Throw e, st') => (Throw e, st')
    end.

Notation "x <- m ;; k" := (bind m (fun x => k))
  (at level 100, m at next level, right associativity).
Notation "m ;;; k" := (bind m (fun _ => k))
  (at level 100, right associativity).

(** [try { body } catch (error) { handler }] *)
Definition try_catch {A} (body : M A) (handler : string -> M A) : M A :=
  fun st =>
    match body st with
    | (Normal a, st') => (Normal a, st')
    | (Throw e, st') => handler e st'
    end.

(** [try { body } catch (error) { handler } finally { fin }], where [fin]
    yields [Some v] when the finally block executes [return v]: that value
    replaces the completion of the try and catch blocks, be it a return or
    a throw. *)
Definition try_catch_finally {A} (body : M A) (handler : string -> M A)
    (fin : M (option A)) : M A :=
  fun st =>
    let (c, st1) := try_catch body handler st in
    match fin st1 with
    | (Normal (Some v), st2) => (Normal v, st2)
    | (Normal None, st2) => (c, st2)
    | (Throw e, st2) => (Throw e, st2)
    end.

(** The state after an event. *)
Definition after_emit (e : Event) (st : St) : St :=
  {| st_db := st_db st; st_trace := st_trace st ++ [e];
     st_writes := st_writes st; st_clock := st_clock st;
     st_requests := st_requests st |}.

Definition emit (e : Event) : M unit :=
  fun st => (Normal tt, after_emit e st).

(** The state after a reading of the clock. *)
Definition after_now (st : St) : St :=
  {| st_db := st_db st; st_trace := st_trace st;
     st_writes := st_writes st; st_clock := S (st_clock st);
     st_requests := st_requests st |}.

(** [Date.now()] *)
Definition now (w : World) : M Z :=
  fun st => (Normal (Date_now w (st_clock st)), after_now st).

(** ** GPTZeroService *)

(** What [detectAIProbability] resolves with; [rawResponse] has no reader
    and is left out. *)
Inductive DetectResult : Type :=
| DetectOk (aiProbability : Q) (prediction : string) (confidence : Q)
    (metadata : string)
| DetectFail (error : string) (details : option string).

(** [error.response?.data || null]: a falsy body is no body. *)
Definition response_details (data : option string) : option string :=
  if Js.truthy_str data then data else None.

(** The body of [detectAIProbability] once request number [k] has been
    answered: the documents test, the defaults of the result, and the
    [catch] that turns a rejection or the explicit [throw] into a failure
    result.  Nothing is thrown to the caller. *)
Definition detect_answer (w : World) (k : nat) (text : string) : DetectResult :=
  match gptzero_post w k text with
  | PostResolved (Some (result :: _)) =>
      DetectOk (Js.num_or (doc_ai_probability result) 0)
        (Js.str_or (doc_prediction result) "unknown")
        (Js.num_or (doc_confidence result) 0)
        (match doc_metadata result with Some m => m | None => "{}" end)
  | PostResolved _ => DetectFail "Invalid GPTZero response format" None
  | PostRejected message data => DetectFail message (response_details data)
  end.

(** The state after a request to the detection endpoint. *)
Definition after_request (st : St) (text : string) : St :=
  {| st_db := st_db st; st_trace := st_trace st ++ [EvDetect text];
     st_writes := st_writes st; st_clock := st_clock st;
     st_requests := S (st_requests st) |}.

Definition detectAIProbability (w : World) (text : string) : M DetectResult :=
  fun st =>
    (Normal (detect_answer w (st_requests st) text), after_request st text).

(** The [ai_detection] of a segment the detector was asked about. *)
Definition detection_of (aiResult : DetectResult) : AiDetection :=
  match aiResult with
  | DetectOk p pred c m =>
      {| ad_error := None; ad_details := None; ad_ai_probability := Some p;
         ad_prediction := Some pred; ad_confidence := Some c;
         ad_metadata := Some m |}
  | DetectFail e d =>
      {| ad_error := Some e; ad_details := d; ad_ai_probability := None;
         ad_prediction := None; ad_confidence := None; ad_metadata := None |}
  end.

(** The synthetic result of a segment without text. *)
Definition empty_detection : AiDetection :=
  {| ad_error := None; ad_details := None; ad_ai_probability := Some 0%Q;
     ad_prediction := Some "empty"; ad_confidence := Some 0%Q;
     ad_metadata := None |}.

(** The result the per-segment [catch] attaches. *)
Definition error_detection (message : string) : AiDetection :=
  {| ad_error := Some message; ad_details := None;
     ad_ai_probability := Some 0%Q; ad_prediction := Some "error";
     ad_confidence := Some 0%Q; ad_metadata := None |}.

(** [segment.text && segment.text.trim().length > 0], for a string. *)
Definition has_text (s : string) : bool :=
  negb (s =? "") && (0 <? String.length (Js.trim s))%nat.

(** The message of the [TypeError] raised by calling [trim] on a value
    that has none. *)
Definition trim_type_error : string := "segment.text.trim is not a function".

(** One iteration of the [for ... of] loop over the segments; [results]
    and [processedCount] are the loop's two mutable variables. *)
Definition process_segment (w : World) (totalSegments : nat)
    (segment : Segment) (results : list EnhancedSegment)
    (processedCount : nat) : M (list EnhancedSegment * nat) :=
  try_catch
    (results' <-
       match seg_text segment with
       | TextStr s =>
           if has_text s then
             aiResult <- detectAIProbability w (Js.trim s) ;;
             ret (results ++ [{| es_segment := segment;
                                 es_ai_detection := detection_of aiResult |}])
           else
             ret (results ++ [{| es_segment := segment;
                                 es_ai_detection := empty_detection |}])
       | TextAbsent =>
           ret (results ++ [{| es_segment := segment;
                               es_ai_detection := empty_detection |}])
       | TextOther => throw trim_type_error
       end ;;
     (if (S processedCount <? totalSegments)%nat
      then emit (EvDelay 100) else ret tt) ;;;
     ret (results', S processedCount))
    (fun message =>
       ret (results ++ [{| es_segment := segment;
                           es_ai_detection := error_detection message |}],
            S processedCount)).

Fixpoint segment_loop (w : World) (totalSegments : nat)
    (segments : list Segment) (results : list EnhancedSegment)
    (processedCount : nat) : M (list EnhancedSegment * nat) :=
  match segments with
  | [] => ret (results, processedCount)
  | segment :: rest =>
      acc <- process_segment w totalSegments segment results processedCount ;;
      segment_loop w totalSegments rest (fst acc) (snd acc)
  end.

(** [(r) => r.ai_detection && !r.ai_detection.error]; every result has an
    [ai_detection]. *)
Definition is_valid_result (r : EnhancedSegment) : bool :=
  negb (Js.truthy_str (ad_error (es_ai_detection r))).

(** The aggregate over the results:
    [validResults.reduce((sum, r) => sum + (r.ai_detection.ai_probability
    || 0), 0) / validResults.length], or 0 without a valid result. *)
Definition overallAIProbability (results : list EnhancedSegment) : Q :=
  let validResults := List.filter is_valid_result results in
  if (0 <? length validResults)%nat then
    Js.div
      (fold_left
         (fun sum r =>
            Js.add sum (Js.num_or (ad_ai_probability (es_ai_detection r)) 0))
         validResults 0%Q)
      (inject_Z (Z.of_nat (length validResults)))
  else 0%Q.

Inductive FanOutResult : Type :=
| FanOutOk (segments : list EnhancedSegment) (overall_ai_probability : Q)
    (processed_segments total_segments : nat)
| FanOutFail (error : string) (segments : SegmentsField).

(** The transcript is an object here, so of the three tests of the guard
    the first, [!transcription], is false; the other two are the match on
    [tr_segments].  The [throw] of the guard ends in the outer [catch],
    which returns the failure result. *)
Definition processTranscriptionSegments (w : World)
    (transcription : Transcription) : M FanOutResult :=
  try_catch
    (match tr_segments transcription with
     | SegmentsArray segments =>
         let totalSegments := length segments in
         acc <- segment_loop w totalSegments segments [] 0 ;;
         ret (FanOutOk (fst acc) (overallAIProbability (fst acc)) (snd acc)
                totalSegments)
     | SegmentsMissing | SegmentsNotArray =>
         throw "Invalid transcription format"
     end)
    (fun message =>
       (* segments: transcription.segments || [] *)
       ret (FanOutFail message
              match tr_segments transcription with
              | SegmentsMissing => SegmentsArray []
              | present => present
              end)).

(** ** dbOperations *)

(** The third argument of [updateStatus]; a property left out is
    [undefined]. *)
Record AdditionalData : Type := {
  screenshotPath : option string;
  audioPath : option string;
  transcription : option string;
  aiProbabilities : option string;
  errorMessage : option string;
  processingTime : option Z;
}.

(** [additionalData = {}] *)
Definition no_data : AdditionalData :=
  {| screenshotPath := None; audioPath := None; transcription := None;
     aiProbabilities := None; errorMessage := None; processingTime := None |}.

Definition constraint_error : string :=
  "SQLITE_CONSTRAINT: UNIQUE constraint failed: analysis_results.id".

(** The row [INSERT INTO analysis_results (id, youtube_url, status) VALUES
    (?, ?, 'pending')] creates; the other columns take their defaults. *)
Definition inserted_row (w : World) (id youtubeUrl : string) (st : St) : Row :=
  let stamp := CURRENT_TIMESTAMP w (st_writes st) in
  {| row_id := id; row_youtube_url := youtubeUrl; row_status := "pending";
     row_created_at := stamp; row_updated_at := stamp;
     row_screenshot_path := None; row_audio_path := None;
     row_transcription := None; row_ai_probabilities := None;
     row_error_message := None; row_processing_time := None |}.

Definition after_insert (w : World) (id youtubeUrl : string) (st : St) : St :=
  {| st_db := <[id := inserted_row w id youtubeUrl st]> (st_db st);
     st_trace := st_trace st ++ [EvInsert id youtubeUrl "pending"];
     st_writes := S (st_writes st); st_clock := st_clock st;
     st_requests := st_requests st |}.

(** [id] is the primary key: the statement fails on an identifier that is
    taken. *)
Definition insertAnalysis (w : World) (id youtubeUrl : string) : M unit :=
  fun st =>
    match st_db st !! id with
    | Some _ => (Throw constraint_error, st)
    | None => (Normal tt, after_insert w id youtubeUrl st)
    end.

(** A column of the [SET] list that is only there when its value is
    truthy. *)
Definition set_if {A} (present : bool) (new : option A) (old : option A)
    : option A :=
  if present then new else old.

(** The row after [UPDATE analysis_results SET status = ?, updated_at =
    CURRENT_TIMESTAMP, ... WHERE id = ?] with the columns [updateStatus]
    puts together.  The two payload columns are serialised once more
    here. *)
Definition updated_row (w : World) (stamp status : string)
    (additionalData : AdditionalData) (row : Row) : Row :=
  {| row_id := row_id row;
     row_youtube_url := row_youtube_url row;
     row_status := status;
     row_created_at := row_created_at row;
     row_updated_at := stamp;
     row_screenshot_path :=
       set_if (Js.truthy_str (screenshotPath additionalData))
         (screenshotPath additionalData) (row_screenshot_path row);
     row_audio_path :=
       set_if (Js.truthy_str (audioPath additionalData))
         (audioPath additionalData) (row_audio_path row);
     row_transcription :=
       set_if (Js.truthy_str (transcription additionalData))
         (option_map (fun s => JSON_stringify w (PayloadText s))
            (transcription additionalData))
         (row_transcription row);
     row_ai_probabilities :=
       set_if (Js.truthy_str (aiProbabilities additionalData))
         (option_map (fun s => JSON_stringify w (PayloadText s))
            (aiProbabilities additionalData))
         (row_ai_probabilities row);
     row_error_message :=
       set_if (Js.truthy_str (errorMessage additionalData))
         (errorMessage additionalData) (row_error_message row);
     row_processing_time :=
       set_if (Js.truthy_num (processingTime additionalData))
         (processingTime additionalData) (row_processing_time row) |}.

Definition after_update (w : World) (id status : string)
    (additionalData : AdditionalData) (st : St) : St :=
  {| st_db :=
       alter
         (updated_row w (CURRENT_TIMESTAMP w (st_writes st)) status
            additionalData)
         id (st_db st);
     st_trace := st_trace st ++ [EvUpdate id status];
     st_writes := S (st_writes st); st_clock := st_clock st;
     st_requests := st_requests st |}.

(** The statement resolves also when no row has the identifier. *)
Definition updateStatus (w : World) (id status : string)
    (additionalData : AdditionalData) : M unit :=
  fun st => (Normal tt, after_update w id status additionalData st).

(** [SELECT * FROM analysis_results WHERE id = ?] *)
Definition getAnalysisById (id : string) : M (option Row) :=
  fun st => (Normal (st_db st !! id), st).

(** ** DemoService *)

Definition demo_segment (start end_ : Q) (text : string)
    (speaker : option string) (confidence : option Q) : Segment :=
  {| seg_start := start; seg_end := end_; seg_text := TextStr text;
     seg_speaker := speaker; seg_confidence := confidence |}.

Definition demo_text_1 : string := "This is a demo transcription".
Definition demo_text_2 : string := "of a YouTube video.".
Definition demo_text_3 : string :=
  "It shows how the system processes audio and generates text with timestamps.".

(** [demoData.transcription] *)
Definition demo_transcription : Transcription :=
  {| tr_text :=
       "This is a demo transcription of a YouTube video. It shows how the system processes audio and generates text with timestamps.";
     tr_segments :=
       SegmentsArray
         [ demo_segment 0 3.5 demo_text_1 (Some "speaker_1") (Some 0.95%Q);
           demo_segment 3.5 7.2 demo_text_2 (Some "speaker_1") (Some 0.92%Q);
           demo_segment 7.2 12.8 demo_text_3 (Some "speaker_2") (Some 0.88%Q) ];
     tr_speakers :=
       [ {| speaker_id := "speaker_1"; speaker_name := "Speaker 1" |};
         {| speaker_id := "speaker_2"; speaker_name := "Speaker 2" |} ];
     tr_wordTimestamps :=
       [ {| word_word := "This"; word_start := 0; word_end := 0.5;
            word_confidence := 0.95 |};
         {| word_word := "is"; word_start := 0.5; word_end := 1.0;
            word_confidence := 0.94 |};
         {| word_word := "a"; word_start := 1.0; word_end := 1.2;
            word_confidence := 0.93 |};
         {| word_word := "demo"; word_start := 1.2; word_end := 2.0;
            word_confidence := 0.96 |};
         {| word_word := "transcription"; word_start := 2.0; word_end := 3.5;
            word_confidence := 0.95 |} ];
     tr_metadata :=
       {| meta_language := "en"; meta_duration := 12.8;
          meta_confidence := 0.92 |} |}.

Definition demo_detection (p c : Q) : AiDetection :=
  {| ad_error := None; ad_details := None; ad_ai_probability := Some p;
     ad_prediction := Some "human"; ad_confidence := Some c;
     ad_metadata := None |}.

(** [demoData.aiDetection] *)
Definition demo_aiDetection : Payload :=
  PayloadDemoDetection
    [ {| es_segment := demo_segment 0 3.5 demo_text_1 None None;
         es_ai_detection := demo_detection 0.15 0.87 |};
      {| es_segment := demo_segment 3.5 7.2 demo_text_2 None None;
         es_ai_detection := demo_detection 0.12 0.89 |};
      {| es_segment := demo_segment 7.2 12.8 demo_text_3 None None;
         es_ai_detection := demo_detection 0.08 0.91 |} ]
    0.12.

Inductive DemoResult : Type :=
| DemoOk (screenshot_path audio_path : string)
    (transcription : Transcription) (ai_probabilities : Payload)
    (processing_time : Z)
| DemoFail (error : string).

(** The two second pause, then the two placeholder files; an error of the
    file system ends in the [catch]. *)
Definition simulateAnalysis (w : World) (youtubeUrl analysisId : string)
    : M DemoResult :=
  emit (EvDelay 2000) ;;;
  emit (EvSimulate youtubeUrl analysisId) ;;;
  match demo_fs_error w with
  | Some message => ret (DemoFail message)
  | None =>
      ret (DemoOk ("screenshots/demo_" +:+ analysisId +:+ ".png")
             ("data/audio/demo_" +:+ analysisId +:+ ".wav")
             demo_transcription demo_aiDetection 2000)
  end.

(** ** AnalysisService *)

Inductive ResultMetadata : Type :=
| MetadataDemo (demo_mode : bool) (note : string)
| MetadataReal (original_audio_info wav_audio_info : string)
    (transcription_metadata : TranscriptMetadata).

(** The [result] of a successful run. *)
Record FinalResult : Type := {
  fr_id : string;
  fr_youtube_url : string;
  fr_status : string;
  fr_screenshot_path : string;
  fr_audio_path : string;
  fr_transcription : Payload;
  fr_ai_probabilities : Payload;
  fr_processing_time : Z;
  fr_created_at : Z;
  fr_metadata : ResultMetadata;
}.

(** What a call of [startAnalysis] evaluates to. *)
Inductive StartReturn : Type :=
| RetUndefined
| RetSuccess (analysis_id : string) (result : FinalResult)
| RetFailure (analysis_id : string) (error : string) (processing_time : Z).

(** The simulation branch of the [try] block. *)
Definition demo_branch (w : World) (youtubeUrl analysisId : string)
    (startTime : Z) : M StartReturn :=
  demoResult <- simulateAnalysis w youtubeUrl analysisId ;;
  match demoResult with
  | DemoFail error => throw ("Demo analysis failed: " +:+ error)
  | DemoOk screenshot_path audio_path demo_tr demo_ai _ =>
      t <- now w ;;
      let processingTime := (t - startTime)%Z in
      updateStatus w analysisId "completed"
        {| screenshotPath := Some screenshot_path;
           audioPath := Some audio_path;
           transcription :=
             Some (JSON_stringify w (PayloadTranscription demo_tr));
           aiProbabilities := Some (JSON_stringify w demo_ai);
           errorMessage := None;
           processingTime := Some processingTime |} ;;;
      created <- now w ;;
      ret (RetSuccess analysisId
             {| fr_id := analysisId; fr_youtube_url := youtubeUrl;
                fr_status := "completed";
                fr_screenshot_path := screenshot_path;
                fr_audio_path := audio_path;
                fr_transcription := PayloadTranscription demo_tr;
                fr_ai_probabilities := demo_ai;
                fr_processing_time := processingTime;
                fr_created_at := created;
                fr_metadata :=
                  MetadataDemo true
                    "This is a demo result with simulated data" |})
  end.

(** [aiDetectionResult.segments || transcriptionResult.transcription]: an
    array, also an empty one, is truthy, as is the value that made the
    fan-out fail for not being an array. *)
Definition result_transcription (aiDetectionResult : FanOutResult)
    (tr : Transcription) : Payload :=
  match aiDetectionResult with
  | FanOutOk segments _ _ _ => PayloadSegments segments
  | FanOutFail _ (SegmentsArray segs) => PayloadRawSegments segs
  | FanOutFail _ SegmentsNotArray => PayloadOpaque
  | FanOutFail _ SegmentsMissing => PayloadTranscription tr
  end.

(** The three [x || 0] of the summary; a failure result has none of the
    three properties. *)
Definition result_ai_probabilities (aiDetectionResult : FanOutResult)
    : Payload :=
  match aiDetectionResult with
  | FanOutOk _ overall processed total =>
      PayloadSummary (Js.num_or (Some overall) 0) processed total
  | FanOutFail _ _ => PayloadSummary 0 0 0
  end.

(** Step 5 of the [try] block: the result of a run that got through. *)
Definition final_result (youtubeUrl analysisId video_screenshotPath wavPath
    originalInfo wavInfo : string) (tr : Transcription)
    (aiDetectionResult : FanOutResult) (processingTime created : Z)
    : FinalResult :=
  {| fr_id := analysisId; fr_youtube_url := youtubeUrl;
     fr_status := "completed";
     fr_screenshot_path := video_screenshotPath;
     fr_audio_path := wavPath;
     fr_transcription := result_transcription aiDetectionResult tr;
     fr_ai_probabilities := result_ai_probabilities aiDetectionResult;
     fr_processing_time := processingTime;
     fr_created_at := created;
     fr_metadata := MetadataReal originalInfo wavInfo (tr_metadata tr) |}.

(** What the last write of the real path hands to the store. *)
Definition completed_data (w : World) (finalResult : FinalResult)
    : AdditionalData :=
  {| screenshotPath := None; audioPath := None;
     transcription :=
       Some (JSON_stringify w (fr_transcription finalResult));
     aiProbabilities :=
       Some (JSON_stringify w (fr_ai_probabilities finalResult));
     errorMessage := None;
     processingTime := Some (fr_processing_time finalResult) |}.

(** The four stages of the [try] block. *)
Definition real_branch (w : World) (youtubeUrl analysisId : string)
    (startTime : Z) : M StartReturn :=
  emit (EvProcessVideo youtubeUrl analysisId) ;;;
  match processVideo w youtubeUrl analysisId with
  | VideoFail error => throw ("Video processing failed: " +:+ error)
  | VideoOk video_screenshotPath video_audioPath =>
      updateStatus w analysisId "video_processed"
        {| screenshotPath := Some video_screenshotPath; audioPath := None;
           transcription := None; aiProbabilities := None;
           errorMessage := None; processingTime := None |} ;;;
      emit (EvProcessAudio video_audioPath analysisId) ;;;
      match processAudio w video_audioPath analysisId with
      | AudioFail error => throw ("Audio conversion failed: " +:+ error)
      | AudioOk wavPath originalInfo wavInfo =>
          updateStatus w analysisId "audio_converted"
            {| screenshotPath := None; audioPath := Some wavPath;
               transcription := None; aiProbabilities := None;
               errorMessage := None; processingTime := None |} ;;;
          emit (EvTranscribe wavPath analysisId) ;;;
          match transcribeAudio w wavPath analysisId with
          | TranscribeFail error _ =>
              throw ("Transcription failed: " +:+ error)
          | TranscribeOk tr =>
              updateStatus w analysisId "transcribed" no_data ;;;
              aiDetectionResult <- processTranscriptionSegments w tr ;;
              match aiDetectionResult with
              | FanOutFail error _ =>
                  emit (EvWarn ("AI detection had some issues: " +:+ error))
              | FanOutOk _ _ _ _ => ret tt
              end ;;;
              t <- now w ;;
              let processingTime := (t - startTime)%Z in
              created <- now w ;;
              let finalResult :=
                final_result youtubeUrl analysisId video_screenshotPath
                  wavPath originalInfo wavInfo tr aiDetectionResult
                  processingTime created in
              updateStatus w analysisId "completed"
                (completed_data w finalResult) ;;;
              ret (RetSuccess analysisId finalResult)
          end
      end
  end.

(** The [catch] block. *)
Definition catch_block (w : World) (analysisId : string) (startTime : Z)
    (message : string) : M StartReturn :=
  t <- now w ;;
  let processingTime := (t - startTime)%Z in
  updateStatus w analysisId "failed"
    {| screenshotPath := None; audioPath := None; transcription := None;
       aiProbabilities := None; errorMessage := Some message;
       processingTime := Some processingTime |} ;;;
  ret (RetFailure analysisId message processingTime).

(** The [finally] block.  In demo mode its [return;] makes the call
    evaluate to [undefined].  Otherwise it reads [videoResult], a [const]
    of the [try] block that is not in scope here: the [ReferenceError]
    goes to the inner [catch], which logs a warning, and the cleanup call
    behind it is never reached. *)
Definition finally_block (w : World) : M (option StartReturn) :=
  try_catch
    (if isDemoMode w then ret (Some RetUndefined)
     else throw "videoResult is not defined")
    (fun cleanupError =>
       emit (EvWarn "Error during cleanup:") ;;; ret None).

(** The [try] block: the two writes, then one of the two branches. *)
Definition try_block (w : World) (youtubeUrl analysisId : string)
    (startTime : Z) : M StartReturn :=
  insertAnalysis w analysisId youtubeUrl ;;;
  updateStatus w analysisId "processing" no_data ;;;
  if isDemoMode w then demo_branch w youtubeUrl analysisId startTime
  else real_branch w youtubeUrl analysisId startTime.

Definition startAnalysis (w : World) (youtubeUrl : string) : M StartReturn :=
  let analysisId := uuidv4 w in
  startTime <- now w ;;
  try_catch_finally
    (try_block w youtubeUrl analysisId startTime)
    (catch_block w analysisId startTime)
    (finally_block w).

(** The object [getAnalysisResult] wraps in [{success: true, result}];
    [JNull] is [null]. *)
Record ResultView : Type := {
  rv_id : string;
  rv_youtube_url : string;
  rv_status : string;
  rv_screenshot_path : option string;
  rv_audio_path : option string;
  rv_transcription : Json;
  rv_ai_probabilities : Json;
  rv_error_message : option string;
  rv_processing_time : option Z;
  rv_created_at : string;
  rv_updated_at : string;
}.

Inductive GetResult : Type :=
| GetOk (result : ResultView)
| GetFail (error : string).

(** [if (column) variable = JSON.parse(column)]: the value the variable
    holds afterwards, or the [SyntaxError]. *)
Definition parse_column (w : World) (column : option string) (variable : Json)
    : Completion Json :=
  if Js.truthy_str column then
    match column with
    | Some text =>
        match JSON_parse w text with
        | Some value => Normal value
        | None => Throw "Unexpected token in JSON"
        end
    | None => Normal variable
    end
  else Normal variable.

(** The inner [try] of [getAnalysisResult] with its two variables, both
    [null] at first; the [catch] only logs. *)
Definition parse_json_fields (w : World) (row : Row) : M (Json * Json) :=
  match parse_column w (row_transcription row) JNull with
  | Throw _ =>
      emit (EvWarn "Error parsing JSON fields:") ;;; ret (JNull, JNull)
  | Normal transcription =>
      match parse_column w (row_ai_probabilities row) JNull with
      | Throw _ =>
          emit (EvWarn "Error parsing JSON fields:") ;;;
          ret (transcription, JNull)
      | Normal aiProbabilities => ret (transcription, aiProbabilities)
      end
  end.

Definition getAnalysisResult (w : World) (analysisId : string) : M GetResult :=
  try_catch
    (result <- getAnalysisById analysisId ;;
     match result with
     | None => ret (GetFail "Analysis not found")
     | Some row =>
         parsed <- parse_json_fields w row ;;
         ret (GetOk
                {| rv_id := row_id row;
                   rv_youtube_url := row_youtube_url row;
                   rv_status := row_status row;
                   rv_screenshot_path := row_screenshot_path row;
                   rv_audio_path := row_audio_path row;
                   rv_transcription := fst parsed;
                   rv_ai_probabilities := snd parsed;
                   rv_error_message := row_error_message row;
                   rv_processing_time := row_processing_time row;
                   rv_created_at := row_created_at row;
                   rv_updated_at := row_updated_at row |})
     end)
    (fun message => ret (GetFail message)).

(** ** The route [GET /api/result/:id] *)

Module Route.

Definition in_range (lo hi : nat) (c : ascii) : bool :=
  let n := nat_of_ascii c in (lo <=? n)%nat && (n <=? hi)%nat.

(** [[0-9a-f]] under the [i] flag *)
Definition is_hex (c : ascii) : bool :=
  in_range 48 57 c || in_range 97 102 c || in_range 65 70 c.

(** [[1-5]] *)
Definition is_version (c : ascii) : bool := in_range 49 53 c.

(** [[89ab]] under the [i] flag *)
Definition is_variant (c : ascii) : bool :=
  in_range 56 57 c || in_range 97 98 c || in_range 65 66 c.

Definition is_dash (c : ascii) : bool := (nat_of_ascii c =? 45)%nat.

(** The class the pattern has at position [i] of the 36. *)
Definition char_ok (i : nat) (c : ascii) : bool :=
  if (i =? 8)%nat || (i =? 13)%nat || (i =? 18)%nat || (i =? 23)%nat
  then is_dash c
  else if (i =? 14)%nat then is_version c
  else if (i =? 19)%nat then is_variant c
  else is_hex c.

Fixpoint matches_from (i : nat) (s : string) : bool :=
  match s with
  | EmptyString => (i =? 36)%nat
  | String c r => char_ok i c && matches_from (S i) r
  end.

(** [uuidPattern.test(id)] for
    [/^[0-9a-f]{8}-[0-9a-f]{4}-[1-5][0-9a-f]{3}-[89ab][0-9a-f]{3}-[0-9a-f]{12}$/i] *)
Definition uuidPattern_test (id : string) : bool := matches_from 0 id.

Inductive Body : Type :=
| BodyInvalidId
| BodyInProgress (analysis_id status created_at updated_at : string)
| BodyFailed (analysis_id status : string) (error_message : option string)
    (processing_time : option Z) (created_at updated_at : string)
| BodyCompleted (analysis_id : string) (result : ResultView)
| BodyNotFound
| BodyError (error : string).

Record Response : Type := {
  http_status : nat;
  http_body : Body;
}.

(** [router.get("/:id", ...)]; [res.json] without [res.status] answers
    200. *)
Definition get_result (w : World) (id : string) : M Response :=
  if negb (uuidPattern_test id) then
    ret {| http_status := 400; http_body := BodyInvalidId |}
  else
    result <- getAnalysisResult w id ;;
    match result with
    | GetOk view =>
        if (rv_status view =? "pending") || (rv_status view =? "processing")
        then
          ret {| http_status := 200;
                 http_body :=
                   BodyInProgress id (rv_status view) (rv_created_at view)
                     (rv_updated_at view) |}
        else if rv_status view =? "failed" then
          ret {| http_status := 200;
                 http_body :=
                   BodyFailed id (rv_status view) (rv_error_message view)
                     (rv_processing_time view) (rv_created_at view)
                     (rv_updated_at view) |}
        else
          ret {| http_status := 200; http_body := BodyCompleted id view |}
    | GetFail error =>
        if error =? "Analysis not found" then
          ret {| http_status := 404; http_body := BodyNotFound |}
        else
          ret {| http_status := 500; http_body := BodyError error |}
    end.

End Route.

(** ** Notions the statements are written in *)

(** What happens to one segment in the loop: it has no text, its text has
    no [trim] method, or the detector is asked and answers. *)
Inductive SegOutcome : Type :=
| OutEmpty
| OutMalformed
| OutDetected (answer : DetectResult).

(** The outcome of a segment when [k] requests have been sent before. *)
Definition segment_outcome (w : World) (k : nat) (segment : Segment)
    : SegOutcome :=
  match seg_text segment with
  | TextAbsent => OutEmpty
  | TextOther => OutMalformed
  | TextStr s =>
      if has_text s then OutDetected (detect_answer w k (Js.trim s))
      else OutEmpty
  end.

Definition sends_request (o : SegOutcome) : bool :=
  match o with
  | OutDetected _ => true
  | _ => false
  end.

Fixpoint segment_outcomes (w : World) (k : nat) (segments : list Segment)
    : list SegOutcome :=
  match segments with
  | [] => []
  | segment :: rest =>
      let o := segment_outcome w k segment in
      o :: segment_outcomes w (if sends_request o then S k else k) rest
  end.

Definition is_empty_outcome (o : SegOutcome) : bool :=
  match o with
  | OutEmpty => true
  | _ => false
  end.

Definition is_failure_outcome (o : SegOutcome) : bool :=
  match o with
  | OutDetected (DetectFail _ _) => true
  | _ => false
  end.

(** No segment is malformed, and every failure of the detector carries a
    message. *)
Definition regular_outcome (o : SegOutcome) : bool :=
  match o with
  | OutEmpty => true
  | OutMalformed => false
  | OutDetected (DetectOk _ _ _ _) => true
  | OutDetected (DetectFail error _) => negb (error =? "")
  end.

(** A failure of the detector carries a message. *)
Definition failure_has_message (o : SegOutcome) : bool :=
  match o with
  | OutDetected (DetectFail error _) => negb (error =? "")
  | _ => true
  end.

(** The probabilities the detector reported, in order. *)
Fixpoint detected_probabilities (os : list SegOutcome) : list Q :=
  match os with
  | [] => []
  | OutDetected (DetectOk p _ _ _) :: rest => p :: detected_probabilities rest
  | _ :: rest => detected_probabilities rest
  end.

Definition count_outcomes (f : SegOutcome -> bool) (os : list SegOutcome)
    : nat :=
  length (List.filter f os).

(** The segment with the result its outcome attaches. *)
Definition result_of (segment : Segment) (o : SegOutcome) : EnhancedSegment :=
  {| es_segment := segment;
     es_ai_detection :=
       match o with
       | OutEmpty => empty_detection
       | OutMalformed => error_detection trim_type_error
       | OutDetected answer => detection_of answer
       end |}.

Fixpoint results_of (segments : list Segment) (os : list SegOutcome)
    : list EnhancedSegment :=
  match segments, os with
  | segment :: rest, o :: os' => result_of segment o :: results_of rest os'
  | _, _ => []
  end.

(** The sum as the source takes it: from the left, starting at zero, each
    addition rounded. *)
Definition js_sum (qs : list Q) : Q := fold_left Js.add qs 0%Q.

(** The arithmetic mean in double arithmetic, zero for no numbers. *)
Definition arithmetic_mean (qs : list Q) : Q :=
  match qs with
  | [] => 0%Q
  | _ => Js.div (js_sum qs) (inject_Z (Z.of_nat (length qs)))
  end.

(** A result carries an error marker when its detection result has an
    [error] property, whatever the message. *)
Definition carries_error_marker (r : EnhancedSegment) : bool :=
  match ad_error (es_ai_detection r) with
  | Some _ => true
  | None => false
  end.

(** The [ai_probability] of a result, zero when it has none. *)
Definition ai_probability_of (r : EnhancedSegment) : Q :=
  Js.num_or (ad_ai_probability (es_ai_detection r)) 0.

(** The probabilities of the results without an error marker, in order. *)
Fixpoint non_error_probabilities (rs : list EnhancedSegment) : list Q :=
  match rs with
  | [] => []
  | r :: rest =>
      if carries_error_marker r then non_error_probabilities rest
      else ai_probability_of r :: non_error_probabilities rest
  end.

(** The probabilities of the results that pass the filter of the source,
    in order. *)
Definition valid_probabilities (rs : list EnhancedSegment) : list Q :=
  map ai_probability_of (List.filter is_valid_result rs).

(** The probabilities of the segments that did not fail, in order: the
    one the detector reported for a scored segment, zero for an empty
    one. *)
Fixpoint counted_probabilities (os : list SegOutcome) : list Q :=
  match os with
  | [] => []
  | OutEmpty :: rest => 0%Q :: counted_probabilities rest
  | OutDetected (DetectOk p _ _ _) :: rest => p :: counted_probabilities rest
  | _ :: rest => counted_probabilities rest
  end.

(** [Array.isArray(transcription.segments)] *)
Definition has_segments_array (tr : Transcription) : bool :=
  match tr_segments tr with
  | SegmentsArray _ => true
  | _ => false
  end.

(** A segment whose text is missing, empty or white space only. *)
Definition is_empty_segment (segment : Segment) : bool :=
  match seg_text segment with
  | TextAbsent => true
  | TextStr s => (s =? "") || (Js.trim s =? "")
  | TextOther => false
  end.

(** The calls that leave the process for a stage of the pipeline, real or
    simulated. *)
Definition is_stage_event (e : Event) : bool :=
  match e with
  | EvProcessVideo _ _ | EvProcessAudio _ _ | EvTranscribe _ _
  | EvDetect _ | EvSimulate _ _ => true
  | _ => false
  end.

(** What the fan-out alone emits. *)
Definition is_fanout_event (e : Event) : bool :=
  match e with
  | EvDetect _ | EvDelay _ => true
  | _ => false
  end.

(** The fan-out touches neither the store nor the clock: it only sends
    requests and waits. *)
Definition fanout_frame (st st' : St) : Prop :=
  st_db st' = st_db st /\ st_writes st' = st_writes st /\
  st_clock st' = st_clock st /\
  exists evs, st_trace st' = st_trace st ++ evs /\
              Forall (fun e => is_fanout_event e = true) evs.

(** ** The states a run goes through *)

(** The elapsed time the [catch] block computes and the data it hands to
    the store. *)
Definition failure_data (w : World) (startTime : Z) (message : string)
    (st : St) : AdditionalData :=
  {| screenshotPath := None; audioPath := None; transcription := None;
     aiProbabilities := None; errorMessage := Some message;
     processingTime := Some (Date_now w (st_clock st) - startTime)%Z |}.

(** The state in which a branch starts when the identifier is free. *)
Definition after_writes (w : World) (url : string) (st : St) : St :=
  after_update w (uuidv4 w) "processing" no_data
    (after_insert w (uuidv4 w) url (after_now st)).

(** The state in which the transcoder is called. *)
Definition before_audio (w : World) (url id sp ap : string) (st : St) : St :=
  after_emit (EvProcessAudio ap id)
    (after_update w id "video_processed"
       {| screenshotPath := Some sp; audioPath := None;
          transcription := None; aiProbabilities := None;
          errorMessage := None; processingTime := None |}
       (after_emit (EvProcessVideo url id) st)).

(** The state in which the transcription is requested. *)
Definition before_transcribe (w : World) (url id sp ap wav : string) (st : St)
    : St :=
  after_emit (EvTranscribe wav id)
    (after_update w id "audio_converted"
       {| screenshotPath := None; audioPath := Some wav;
          transcription := None; aiProbabilities := None;
          errorMessage := None; processingTime := None |}
       (before_audio w url id sp ap st)).

(** The state in which the fan-out starts. *)
Definition before_detect (w : World) (url id sp ap wav : string) (st : St)
    : St :=
  after_update w id "transcribed" no_data
    (before_transcribe w url id sp ap wav st).

(** The state after the check of the fan-out's result: a failure result
    is logged as a warning. *)
Definition after_check (aiDetectionResult : FanOutResult) (st : St) : St :=
  match aiDetectionResult with
  | FanOutFail error _ =>
      after_emit (EvWarn ("AI detection had some issues: " +:+ error)) st
  | FanOutOk _ _ _ _ => st
  end.

(** The result of a run whose fan-out returned [r] in state [st']. *)
Definition result_after (w : World) (url id sp wav oi wi : string)
    (tr : Transcription) (r : FanOutResult) (startTime : Z) (st' : St)
    : FinalResult :=
  final_result url id sp wav oi wi tr r
    (Date_now w (st_clock (after_check r st')) - startTime)
    (Date_now w (S (st_clock (after_check r st')))).

(** [st'] has the trace of [st] and possibly more. *)
Definition extends (st st' : St) : Prop :=
  exists evs, st_trace st' = st_trace st ++ evs.

(** ** Sample worlds *)

Module Sample.

Definition segment (text : JsText) : Segment :=
  {| seg_start := 0; seg_end := 1; seg_text := text;
     seg_speaker := Some "unknown"; seg_confidence := Some 0%Q |}.

Definition transcript (segments : SegmentsField) : Transcription :=
  {| tr_text := "hello"; tr_segments := segments; tr_speakers := [];
     tr_wordTimestamps := [];
     tr_metadata :=
       {| meta_language := "en"; meta_duration := 0; meta_confidence := 0 |} |}.

Definition document (p : Q) : GptDocument :=
  {| doc_ai_probability := Some p; doc_prediction := Some "ai";
     doc_confidence := Some 0.5%Q; doc_metadata := None |}.

(** Five segments: one of white space only, one the detector times out
    on, three it scores 0.75, 0.5 and 0.25 (numbers that are doubles, as
    are their sums and the quotients taken of them below). *)
Definition five_segments : list Segment :=
  [ segment (TextStr "nine"); segment (TextStr "   ");
    segment (TextStr "six"); segment (TextStr "slow");
    segment (TextStr " three ") ].

Definition post (k : nat) (text : string) : PostOutcome :=
  if text =? "nine" then PostResolved (Some [document 0.75])
  else if text =? "six" then PostResolved (Some [document 0.5])
  else if text =? "three" then PostResolved (Some [document 0.25])
  else if text =? "slow" then
    PostRejected "timeout of 60000ms exceeded" None
  else PostResolved None.

(** A parser that knows two texts. *)
Definition parse (text : string) : option Json :=
  if text =? "null" then Some JNull
  else if text =? "{}" then Some (JObj [])
  else None.

Definition stringify (p : Payload) : string :=
  match p with
  | PayloadText s => s
  | _ => "{}"
  end.

Definition job : string := "123e4567-e89b-42d3-a456-426614174000".

Definition url : string := "https://youtu.be/abc123".

(** A world with both keys set in which every stage works. *)
Definition real_world (segments : SegmentsField) : World :=
  {| isDemoMode := false;
     uuidv4 := job;
     Date_now := fun n => (1700000000000 + 250 * Z.of_nat n)%Z;
     CURRENT_TIMESTAMP := fun _ => "2024-01-01 00:00:00";
     processVideo := fun _ id => VideoOk "screenshots/shot.png" "audio/raw.webm";
     processAudio := fun _ id => AudioOk "audio/wav/a.wav" "webm" "wav";
     transcribeAudio := fun _ _ => TranscribeOk (transcript segments);
     gptzero_post := post;
     demo_fs_error := None;
     JSON_stringify := stringify;
     JSON_parse := parse |}.

(** The same world with a transcoder that fails. *)
Definition bad_codec_world : World :=
  {| isDemoMode := false;
     uuidv4 := job;
     Date_now := Date_now (real_world SegmentsMissing);
     CURRENT_TIMESTAMP := CURRENT_TIMESTAMP (real_world SegmentsMissing);
     processVideo := processVideo (real_world SegmentsMissing);
     processAudio := fun _ _ => AudioFail "bad codec";
     transcribeAudio := transcribeAudio (real_world SegmentsMissing);
     gptzero_post := post;
     demo_fs_error := None;
     JSON_stringify := stringify;
     JSON_parse := parse |}.

(** A world in which the capture fails within the millisecond the run
    started in. *)
Definition instant_failure_world : World :=
  {| isDemoMode := false;
     uuidv4 := job;
     Date_now := fun _ => 1700000000000%Z;
     CURRENT_TIMESTAMP := CURRENT_TIMESTAMP (real_world SegmentsMissing);
     processVideo := fun _ _ => VideoFail "Invalid YouTube URL";
     processAudio := processAudio (real_world SegmentsMissing);
     transcribeAudio := transcribeAudio (real_world SegmentsMissing);
     gptzero_post := post;
     demo_fs_error := None;
     JSON_stringify := stringify;
     JSON_parse := parse |}.

(** A world without the keys. *)
Definition demo_world : World :=
  {| isDemoMode := true;
     uuidv4 := job;
     Date_now := Date_now (real_world SegmentsMissing);
     CURRENT_TIMESTAMP := CURRENT_TIMESTAMP (real_world SegmentsMissing);
     processVideo := processVideo (real_world SegmentsMissing);
     processAudio := processAudio (real_world SegmentsMissing);
     transcribeAudio := transcribeAudio (real_world SegmentsMissing);
     gptzero_post := post;
     demo_fs_error := None;
     JSON_stringify := stringify;
     JSON_parse := parse |}.

(** The state of a service that has not run a job yet. *)
Definition fresh : St :=
  {| st_db := ∅; st_trace := []; st_writes := 0; st_clock := 0;
     st_requests := 0 |}.

(** A stored row whose transcript column does not parse while its
    detection column does. *)
Definition garbled_row : Row :=
  {| row_id := job; row_youtube_url := url; row_status := "completed";
     row_created_at := "2024-01-01 00:00:00";
     row_updated_at := "2024-01-01 00:00:05";
     row_screenshot_path := None; row_audio_path := None;
     row_transcription := Some "{not json";
     row_ai_probabilities := Some "{}";
     row_error_message := None; row_processing_time := Some 5000%Z |}.

Definition garbled : St :=
  {| st_db := {[ job := garbled_row ]}; st_trace := []; st_writes := 2;
     st_clock := 0; st_requests := 0 |}.

End Sample.

(** * The adapters and the submission route *)

(** ** ElevenLabsService *)

Module Scribe.

(** An array property of the response as [x && Array.isArray(x)] and
    [x.map(...)] see it: falsy, a truthy value that is no array, or an
    array.  An item that is [null] or [undefined] is [None]: reading a
    property of it throws. *)
Inductive RawArray (A : Type) : Type :=
| RawAbsent
| RawNotArray
| RawItems (items : list (option A)).
Arguments RawAbsent {A}.
Arguments RawNotArray {A}.
Arguments RawItems {A} items.

Record RawSegment : Type := {
  raw_start : option Q;
  raw_end : option Q;
  raw_text : JsText;
  raw_speaker : option string;
  raw_confidence : option Q;
}.

(** [segments] is a value the service only hands on; [None] is falsy. *)
Record RawSpeaker : Type := {
  raw_id : option string;
  raw_name : option string;
  raw_speaker_segments : option (list string);
}.

Record RawWord : Type := {
  raw_word : option string;
  raw_word_start : option Q;
  raw_word_end : option Q;
  raw_word_confidence : option Q;
  raw_word_speaker : option string;
}.

(** [response.data] as far as the service reads it. *)
Record RawData : Type := {
  raw_data_text : option string;
  raw_language : option string;
  raw_duration : option Q;
  raw_data_confidence : option Q;
  raw_segments : RawArray RawSegment;
  raw_speakers : RawArray RawSpeaker;
  raw_words : RawArray RawWord;
}.

Record ScribeSpeaker : Type := {
  sp_id : string;
  sp_name : string;
  sp_segments : list string;
}.

Record ScribeWord : Type := {
  sw_word : string;
  sw_start : Q;
  sw_end : Q;
  sw_confidence : Q;
  sw_speaker : string;
}.

(** The [metadata] of the result: the three properties, or the [{}] of the
    [catch]. *)
Inductive ScribeMetadata : Type :=
| MetadataOf (m : TranscriptMetadata)
| MetadataNone.

(** What [processTranscription] returns; [s_error] is only set by the
    [catch]. *)
Record ScribeTranscription : Type := {
  s_text : string;
  s_segments : list Segment;
  s_speakers : list ScribeSpeaker;
  s_wordTimestamps : list ScribeWord;
  s_metadata : ScribeMetadata;
  s_error : option string;
}.

(** [x || ""] for the text of a segment: a truthy value stays what it
    is. *)
Definition text_or_empty (t : JsText) : JsText :=
  match t with
  | TextAbsent => TextStr ""
  | TextStr s => TextStr s
  | TextOther => TextOther
  end.

(** The callback of [rawData.segments.map]. *)
Definition map_segment (segment : RawSegment) : Segment :=
  {| seg_start := Js.num_or (raw_start segment) 0;
     seg_end := Js.num_or (raw_end segment) 0;
     seg_text := text_or_empty (raw_text segment);
     seg_speaker := Some (Js.str_or (raw_speaker segment) "unknown");
     seg_confidence := Some (Js.num_or (raw_confidence segment) 0) |}.

(** [`Speaker ${speaker.id}`] *)
Definition speaker_label (id : option string) : string :=
  "Speaker " +:+ match id with Some s => s | None => "undefined" end.

(** The callback of [rawData.speakers.map]. *)
Definition map_speaker (speaker : RawSpeaker) : ScribeSpeaker :=
  {| sp_id := Js.str_or (raw_id speaker) "unknown";
     sp_name := Js.str_or (raw_name speaker) (speaker_label (raw_id speaker));
     sp_segments :=
       match raw_speaker_segments speaker with
       | Some segments => segments
       | None => []
       end |}.

(** The callback of [rawData.words.map]. *)
Definition map_word (word : RawWord) : ScribeWord :=
  {| sw_word := Js.str_or (raw_word word) "";
     sw_start := Js.num_or (raw_word_start word) 0;
     sw_end := Js.num_or (raw_word_end word) 0;
     sw_confidence := Js.num_or (raw_word_confidence word) 0;
     sw_speaker := Js.str_or (raw_word_speaker word) "unknown" |}.

(** [items.map(f)] where [f] reads properties of its argument: [None] when
    an item is [null], that is when the call throws a [TypeError]. *)
Fixpoint map_items {A B} (f : A -> B) (items : list (option A))
    : option (list B) :=
  match items with
  | [] => Some []
  | None :: _ => None
  | Some x :: rest =>
      match map_items f rest with
      | Some ys => Some (f x :: ys)
      | None => None
      end
  end.

(** [if (x && Array.isArray(x)) target = x.map(f)]: the value of [target]
    afterwards, [None] when the [map] throws. *)
Definition map_array {A B} (f : A -> B) (x : RawArray A) : option (list B) :=
  match x with
  | RawItems items => map_items f items
  | RawAbsent | RawNotArray => Some []
  end.

(** The [metadata] the [try] block builds. *)
Definition metadata_of (rawData : RawData) : TranscriptMetadata :=
  {| meta_language := Js.str_or (raw_language rawData) "en";
     meta_duration := Js.num_or (raw_duration rawData) 0;
     meta_confidence := Js.num_or (raw_data_confidence rawData) 0 |}.

(** The segment made of the whole text when there is no segment. *)
Definition basic_segment (text : string) (metadata : TranscriptMetadata)
    : Segment :=
  {| seg_start := 0;
     seg_end := Js.num_or (Some (meta_duration metadata)) 0;
     seg_text := TextStr text;
     seg_speaker := Some "unknown";
     seg_confidence := Some (Js.num_or (Some (meta_confidence metadata)) 0) |}.

(** What the [catch] of [processTranscription] returns. *)
Definition fallback (rawData : RawData) : ScribeTranscription :=
  {| s_text := Js.str_or (raw_data_text rawData) "";
     s_segments := [];
     s_speakers := [];
     s_wordTimestamps := [];
     s_metadata := MetadataNone;
     s_error := Some "Failed to process transcription data" |}.

Definition processTranscription (rawData : RawData) : ScribeTranscription :=
  let text := Js.str_or (raw_data_text rawData) "" in
  let metadata := metadata_of rawData in
  match map_array map_segment (raw_segments rawData),
        map_array map_speaker (raw_speakers rawData),
        map_array map_word (raw_words rawData) with
  | Some segments, Some speakers, Some words =>
      {| s_text := text;
         s_segments :=
           (* transcription.segments.length === 0 && transcription.text *)
           if (length segments =? 0)%nat && negb (text =? "")
           then [basic_segment text metadata] else segments;
         s_speakers := speakers;
         s_wordTimestamps := words;
         s_metadata := MetadataOf metadata;
         s_error := None |}
  | _, _, _ => fallback rawData
  end.

(** Outcome of [client.post("/v1/speech-to-text", ...)]. *)
Inductive Upload : Type :=
| Answered (data : option RawData)
| Rejected (message : string) (response_data : option string).

(** The file system and the endpoint [transcribeAudio] talks to. *)
Record Env : Type := {
  existsSync : string -> bool;
  post : string -> Upload;
}.

(** What [transcribeAudio] resolves with ([rawResponse] left out). *)
Inductive Result : Type :=
| Ok (transcription : ScribeTranscription)
| Fail (error : string) (details : option string).

(** [transcribeAudio]: the result, and the files uploaded on the way.  The
    check of the file, the request and the test of the response sit in one
    [try]; its [catch] turns every error into a failure result. *)
Definition transcribeAudio (env : Env) (audioFilePath : string)
    : Result * list string :=
  if negb (existsSync env audioFilePath) then
    (Fail ("Audio file not found: " +:+ audioFilePath) None, [])
  else
    match post env audioFilePath with
    | Rejected message data =>
        (Fail message (response_details data), [audioFilePath])
    | Answered None =>
        (Fail "Invalid transcription response" None, [audioFilePath])
    | Answered (Some data) =>
        if Js.truthy_str (raw_data_text data) then
          (Ok (processTranscription data), [audioFilePath])
        else (Fail "Invalid transcription response" None, [audioFilePath])
    end.

End Scribe.

(** ** YouTubeService: the choice of the audio format *)

Module Tube.

Record AudioFormat : Type := {
  fmt_itag : nat;
  fmt_container : string;
  fmt_audioBitrate : option Q;
}.

(** [format.audioBitrate || 0] *)
Definition bitrate (format : AudioFormat) : Q :=
  Js.num_or (fmt_audioBitrate format) 0.

(** The callback of the [reduce]:
    [(prev.audioBitrate || 0) > (current.audioBitrate || 0) ? prev : current] *)
Definition pick (prev current : AudioFormat) : AudioFormat :=
  if Qle_bool (bitrate prev) (bitrate current) then current else prev.

(** The guard on an empty list followed by the [reduce], which starts from
    the first format.  Both sit in the [try] of [downloadAudio], whose
    [catch] throws the message on with "Failed to download audio: " in
    front. *)
Definition bestAudio (audioFormats : list AudioFormat)
    : Completion AudioFormat :=
  match audioFormats with
  | [] => Throw "No audio formats available"
  | first :: rest => Normal (fold_left pick rest first)
  end.

End Tube.

(** ** AudioService: the cleanup of temporary files *)

Module Audio.

(** The loop of [cleanupTempFiles] over a file system that is a set of
    paths; [unlink_error] tells when [fs.unlinkSync] throws.  An error
    leaves the loop. *)
Fixpoint cleanup_loop (unlink_error : string -> option string)
    (filePaths : list string) (files : gset string)
    : Completion unit * gset string :=
  match filePaths with
  | [] => (Normal tt, files)
  | filePath :: rest =>
      if bool_decide (filePath ∈ files) then
        match unlink_error filePath with
        | Some message => (Throw message, files)
        | None => cleanup_loop unlink_error rest (files ∖ {[filePath]})
        end
      else cleanup_loop unlink_error rest files
  end.

(** [cleanupTempFiles]: the [catch] around the loop only logs, so the call
    always resolves; the result is the file system afterwards and whether
    a warning was logged. *)
Definition cleanupTempFiles (unlink_error : string -> option string)
    (filePaths : list string) (files : gset string) : gset string * bool :=
  match cleanup_loop unlink_error filePaths files with
  | (Normal _, files') => (files', false)
  | (Throw _, files') => (files', true)
  end.

End Audio.

(** ** The route [POST /api/analyze] *)

Module Submit.

(** [s] without the prefix [p], when it starts with it. *)
Fixpoint strip (p s : string) : option string :=
  match p, s with
  | EmptyString, _ => Some s
  | String a p', String b s' =>
      if Ascii.eqb a b then strip p' s' else None
  | String _ _, EmptyString => None
  end.

(** What can be left of [s] after an optional group with the given
    alternatives: all of [s], or [s] without one of them. *)
Definition after_optional (alternatives : list string) (s : string)
    : list string :=
  s :: omap (fun p => strip p s) alternatives.

(** [s] starts with a line terminator: LF, CR, U+2028 or U+2029. *)
Definition starts_with_line_terminator (s : string) : bool :=
  match s with
  | String a r =>
      (nat_of_ascii a =? 10)%nat || (nat_of_ascii a =? 13)%nat
      || match r with
         | String b (String c _) =>
             (nat_of_ascii a =? 226)%nat && (nat_of_ascii b =? 128)%nat
             && ((nat_of_ascii c =? 168)%nat || (nat_of_ascii c =? 169)%nat)
         | _ => false
         end
  | EmptyString => false
  end.

(** [\/.+] at the start of [s]: a slash and at least one more character,
    the first of which is no line terminator. *)
Definition slash_and_more (s : string) : bool :=
  match s with
  | String a rest =>
      (nat_of_ascii a =? 47)%nat
      && negb (rest =? "") && negb (starts_with_line_terminator rest)
  | EmptyString => false
  end.

(** [urlPattern.test(youtube_url)] for
    [/^(https?:\/\/)?(www\.)?(youtube\.com|youtu\.be)\/.+/]: some way
    of taking the optional groups and the alternative matches. *)
Definition urlPattern_test (youtube_url : string) : bool :=
  existsb
    (fun s1 =>
       existsb
         (fun s2 =>
            existsb
              (fun host =>
                 match strip host s2 with
                 | Some rest => slash_and_more rest
                 | None => false
                 end)
              ["youtube.com"; "youtu.be"])
         (after_optional ["www."] s1))
    (after_optional ["http://"; "https://"] youtube_url).

Inductive Body : Type :=
| BodyUrlRequired
| BodyInvalidUrl
| BodyAccepted (analysis_id status : string)
| BodyStartFailed (details : string)
| BodyInternal (message : string).

Record Response : Type := {
  http_status : nat;
  http_body : Body;
}.

(** The message of the [TypeError] of [analysisResult.success] on
    [undefined]. *)
Definition undefined_success_error : string :=
  "Cannot read properties of undefined (reading 'success')".

(** [router.post("/", ...)]; [development] is
    [process.env.NODE_ENV === "development"], and [youtube_url] is [None]
    when the body has no such property. *)
Definition post_analyze (w : World) (development : bool)
    (youtube_url : option string) : M Response :=
  if negb (Js.truthy_str youtube_url) then
    ret {| http_status := 400; http_body := BodyUrlRequired |}
  else
    match youtube_url with
    | None => ret {| http_status := 400; http_body := BodyUrlRequired |}
    | Some url =>
        if negb (urlPattern_test url) then
          ret {| http_status := 400; http_body := BodyInvalidUrl |}
        else
          try_catch
            (analysisResult <- startAnalysis w url ;;
             match analysisResult with
             | RetUndefined => throw undefined_success_error
             | RetSuccess analysis_id _ =>
                 ret {| http_status := 202;
                        http_body := BodyAccepted analysis_id "processing" |}
             | RetFailure _ error _ =>
                 ret {| http_status := 500;
                        http_body := BodyStartFailed error |}
             end)
            (fun message =>
               ret {| http_status := 500;
                      http_body :=
                        BodyInternal
                          (if development then message
                           else "Something went wrong") |})
    end.

End Submit.

(** ** Further notions the statements are written in *)

(** The records other than that of [id] are the same in both states. *)
Definition keeps_others (id : string) (st st' : St) : Prop :=
  forall id', id' <> id -> st_db st' !! id' = st_db st !! id'.

(** A record of [id] that is in the store of [st] is in that of [st']. *)
Definition keeps_record (id : string) (st st' : St) : Prop :=
  is_Some (st_db st !! id) -> is_Some (st_db st' !! id).

(** The texts sent to the detector, in order. *)
Fixpoint detect_texts (evs : list Event) : list string :=
  match evs with
  | [] => []
  | EvDetect text :: rest => text :: detect_texts rest
  | _ :: rest => detect_texts rest
  end.

(** The trimmed texts of the segments that have one, in order. *)
Fixpoint requested_texts (segments : list Segment) : list string :=
  match segments with
  | [] => []
  | segment :: rest =>
      match seg_text segment with
      | TextStr s =>
          if has_text s then Js.trim s :: requested_texts rest
          else requested_texts rest
      | _ => requested_texts rest
      end
  end.

(** Every probability the detector reported lies between 0 and 1. *)
Definition scored_in_range (o : SegOutcome) : bool :=
  match o with
  | OutDetected (DetectOk p _ _ _) => Qle_bool 0 p && Qle_bool p 1
  | _ => true
  end.

(** The statuses for which the route answers with the in-progress or the
    failed view. *)
Definition is_polled_status (status : string) : bool :=
  (status =? "pending") || (status =? "processing") || (status =? "failed").

(** [best] is in [formats], no format before it has a higher bitrate, and
    every format after it has a lower one. *)
Definition last_of_the_best (formats : list Tube.AudioFormat)
    (best : Tube.AudioFormat) : Prop :=
  exists before after,
    formats = before ++ best :: after
    /\ Forall (fun f => (Tube.bitrate f <= Tube.bitrate best)%Q) before
    /\ Forall (fun f => (Tube.bitrate f < Tube.bitrate best)%Q) after.

(** ** Further sample data *)

Module Fixture.

Definition quote : string := String (ascii_of_nat 34) EmptyString.

(** A codec that writes a text between quotes and reads it back; every
    other value is written as an empty object. *)
Definition stringify (p : Payload) : string :=
  match p with
  | PayloadText s => quote +:+ s +:+ quote
  | _ => "{}"
  end.

Fixpoint unquote_rest (s : string) : option string :=
  match s with
  | EmptyString => None
  | String c EmptyString =>
      if (nat_of_ascii c =? 34)%nat then Some EmptyString else None
  | String c r =>
      match unquote_rest r with
      | Some r' => Some (String c r')
      | None => None
      end
  end.

Definition parse (text : string) : option Json :=
  if text =? "{}" then Some (JObj [])
  else
    match text with
    | String c r =>
        if (nat_of_ascii c =? 34)%nat then option_map JStr (unquote_rest r)
        else None
    | EmptyString => None
    end.

(** A world with both keys set, stages that work, and that codec. *)
Definition codec_world : World :=
  {| isDemoMode := false;
     uuidv4 := Sample.job;
     Date_now := fun n => (1700000000000 + 250 * Z.of_nat n)%Z;
     CURRENT_TIMESTAMP := fun _ => "2024-01-01 00:00:00";
     processVideo := fun _ _ => VideoOk "screenshots/shot.png" "audio/raw.webm";
     processAudio := fun _ _ => AudioOk "audio/wav/a.wav" "webm" "wav";
     transcribeAudio :=
       fun _ _ =>
         TranscribeOk
           (Sample.transcript (SegmentsArray Sample.five_segments));
     gptzero_post := Sample.post;
     demo_fs_error := None;
     JSON_stringify := stringify;
     JSON_parse := parse |}.

(** Two segments, and a detector that fails on the second with an error
    whose message is the empty string, as that of [new Error()] is. *)
Definition mute_segments : list Segment :=
  [ Sample.segment (TextStr "nine"); Sample.segment (TextStr "mute") ].

Definition mute_post (k : nat) (text : string) : PostOutcome :=
  if text =? "mute" then PostRejected "" None else Sample.post k text.

Definition mute_world : World :=
  {| isDemoMode := false;
     uuidv4 := Sample.job;
     Date_now := Date_now codec_world;
     CURRENT_TIMESTAMP := CURRENT_TIMESTAMP codec_world;
     processVideo := processVideo codec_world;
     processAudio := processAudio codec_world;
     transcribeAudio :=
       fun _ _ => TranscribeOk (Sample.transcript (SegmentsArray mute_segments));
     gptzero_post := mute_post;
     demo_fs_error := None;
     JSON_stringify := stringify;
     JSON_parse := parse |}.

(** A store that already has a record under the identifier of the next
    job. *)
Definition taken_row : Row :=
  {| row_id := Sample.job; row_youtube_url := "https://youtu.be/earlier";
     row_status := "completed";
     row_created_at := "2023-12-31 23:00:00";
     row_updated_at := "2023-12-31 23:05:00";
     row_screenshot_path := Some "screenshots/earlier.png";
     row_audio_path := Some "audio/wav/earlier.wav";
     row_transcription := Some "{}";
     row_ai_probabilities := Some "{}";
     row_error_message := None; row_processing_time := Some 4000%Z |}.

Definition taken : St :=
  {| st_db := {[ Sample.job := taken_row ]}; st_trace := []; st_writes := 2;
     st_clock := 0; st_requests := 0 |}.

(** The same world handing out another identifier. *)
Definition second_job : string := "9b2e0c1a-5d3f-4a6b-8c7d-0e1f2a3b4c5d".

Definition second_world : World :=
  {| isDemoMode := false;
     uuidv4 := second_job;
     Date_now := Date_now codec_world;
     CURRENT_TIMESTAMP := CURRENT_TIMESTAMP codec_world;
     processVideo := processVideo codec_world;
     processAudio := processAudio codec_world;
     transcribeAudio := transcribeAudio codec_world;
     gptzero_post := Sample.post;
     demo_fs_error := None;
     JSON_stringify := stringify;
     JSON_parse := parse |}.

(** A record left at an intermediate status. *)
Definition midway_row : Row :=
  {| row_id := Sample.job; row_youtube_url := Sample.url;
     row_status := "transcribed";
     row_created_at := "2024-01-01 00:00:00";
     row_updated_at := "2024-01-01 00:00:03";
     row_screenshot_path := Some "screenshots/shot.png";
     row_audio_path := Some "audio/wav/a.wav";
     row_transcription := None; row_ai_probabilities := None;
     row_error_message := None; row_processing_time := None |}.

Definition midway : St :=
  {| st_db := {[ Sample.job := midway_row ]}; st_trace := []; st_writes := 5;
     st_clock := 1; st_requests := 0 |}.

(** A response of the transcription endpoint with a text and no
    segments. *)
Definition plain_data : Scribe.RawData :=
  {| Scribe.raw_data_text := Some "hello world";
     Scribe.raw_language := None;
     Scribe.raw_duration := Some 2.5%Q;
     Scribe.raw_data_confidence := Some 0.9%Q;
     Scribe.raw_segments := Scribe.RawAbsent;
     Scribe.raw_speakers := Scribe.RawAbsent;
     Scribe.raw_words := Scribe.RawAbsent |}.

(** A response whose segments array has a [null] item. *)
Definition holed_data : Scribe.RawData :=
  {| Scribe.raw_data_text := Some "hello world";
     Scribe.raw_language := Some "en";
     Scribe.raw_duration := Some 2.5%Q;
     Scribe.raw_data_confidence := Some 0.9%Q;
     Scribe.raw_segments :=
       Scribe.RawItems
         [ Some {| Scribe.raw_start := Some 0%Q; Scribe.raw_end := Some 1%Q;
                   Scribe.raw_text := TextStr "hello";
                   Scribe.raw_speaker := None;
                   Scribe.raw_confidence := None |};
           None ];
     Scribe.raw_speakers := Scribe.RawAbsent;
     Scribe.raw_words := Scribe.RawAbsent |}.

(** An environment without the audio file. *)
Definition no_file : Scribe.Env :=
  {| Scribe.existsSync := fun _ => false;
     Scribe.post := fun _ => Scribe.Answered (Some plain_data) |}.

Definition format (itag : nat) (container : string) (rate : option Q)
    : Tube.AudioFormat :=
  {| Tube.fmt_itag := itag; Tube.fmt_container := container;
     Tube.fmt_audioBitrate := rate |}.

(** Four audio formats, two of them with the highest bitrate. *)
Definition formats : list Tube.AudioFormat :=
  [ format 139 "mp4" (Some 48%Q); format 251 "webm" (Some 160%Q);
    format 140 "mp4" (Some 160%Q); format 249 "webm" None ].

(** Three files, and a cleanup that may not remove the second. *)
Definition files : gset string :=
  {[ "audio/a.webm"; "audio/b.webm"; "audio/wav/a.wav" ]}.

Definition locked (path : string) : option string :=
  if path =? "audio/b.webm" then Some "EPERM: operation not permitted"
  else None.

End Fixture.

(** * Properties *)

(** ** The computation steps *)

Lemma bind_normal {A B} (m : M A) (k : A -> M B) st a st' :
  m st = (Normal a, st') -> bind m k st = k a st'.
Proof. intros H. unfold bind. now rewrite H. Qed.

Lemma bind_throw {A B} (m : M A) (k : A -> M B) st e st' :
  m st = (Throw e, st') -> bind m k st = (Throw e, st').
Proof. intros H. unfold bind. now rewrite H. Qed.

Lemma try_catch_normal {A} (m : M A) h st a st' :
  m st = (Normal a, st') -> try_catch m h st = (Normal a, st').
Proof. intros H. unfold try_catch. now rewrite H. Qed.

Lemma try_catch_throw {A} (m : M A) h st e st' :
  m st = (Throw e, st') -> try_catch m h st = h e st'.
Proof. intros H. unfold try_catch. now rewrite H. Qed.

Lemma try_catch_finally_state {A} (body : M A) handler fin st :
  snd (try_catch_finally body handler fin st)
  = snd (fin (snd (try_catch body handler st))).
Proof.
  unfold try_catch_finally.
  destruct (try_catch body handler st) as [c st1]. cbn [snd].
  destruct (fin st1) as [[[v |] | e] st2]; reflexivity.
Qed.

(** ** The fan-out *)

Lemma fanout_frame_refl st : fanout_frame st st.
Proof.
  repeat split; try reflexivity.
  exists []. split; [now rewrite app_nil_r | constructor].
Qed.

Lemma fanout_frame_trans st1 st2 st3 :
  fanout_frame st1 st2 -> fanout_frame st2 st3 -> fanout_frame st1 st3.
Proof.
  intros (Hd1 & Hw1 & Hc1 & evs1 & Ht1 & Hf1)
         (Hd2 & Hw2 & Hc2 & evs2 & Ht2 & Hf2).
  repeat split; try congruence.
  exists (evs1 ++ evs2). split.
  - rewrite Ht2, Ht1. now rewrite app_assoc.
  - apply Forall_app. now split.
Qed.

Lemma fanout_frame_emit st e u st' :
  is_fanout_event e = true -> emit e st = (u, st') -> fanout_frame st st'.
Proof.
  intros He H. unfold emit in H. inversion H; subst; clear H.
  repeat split; simpl; try reflexivity.
  exists [e]. split; [reflexivity | now constructor].
Qed.

Lemma fanout_frame_request st text :
  fanout_frame st (after_request st text).
Proof.
  repeat split; simpl; try reflexivity.
  exists [EvDetect text]. split; [reflexivity | now constructor].
Qed.

(** The pause between two segments always completes. *)
Lemma pause_runs total count st :
  exists st',
    (if (S count <? total)%nat then emit (EvDelay 100) else ret tt) st
    = (Normal tt, st')
    /\ fanout_frame st st' /\ st_requests st' = st_requests st.
Proof.
  destruct (S count <? total)%nat.
  - eexists. split; [reflexivity |]. split; [| reflexivity].
    eapply fanout_frame_emit; [| reflexivity]. reflexivity.
  - exists st. split; [reflexivity |]. split; [apply fanout_frame_refl | reflexivity].
Qed.

(** One iteration appends the result of its segment, whatever the
    detector answers. *)
Lemma process_segment_spec w total segment results count st :
  let o := segment_outcome w (st_requests st) segment in
  exists st',
    process_segment w total segment results count st
    = (Normal (results ++ [result_of segment o], S count), st')
    /\ fanout_frame st st'
    /\ st_requests st'
       = (if sends_request o then S (st_requests st) else st_requests st).
Proof.
  unfold process_segment, segment_outcome, result_of.
  destruct (seg_text segment) as [| s |] eqn:Htext.
  - (* no text *)
    destruct (pause_runs total count st) as (st' & Hp & Hf & Hr).
    exists st'. split; [| split; [exact Hf | exact Hr]].
    apply try_catch_normal. unfold bind at 1. unfold ret at 1.
    unfold bind. now rewrite Hp.
  - destruct (has_text s) eqn:Hs.
    + (* the detector is asked *)
      destruct (pause_runs total count (after_request st (Js.trim s)))
        as (st' & Hp & Hf & Hr).
      exists st'. split; [| split].
      * apply try_catch_normal. unfold bind, detectAIProbability, ret.
        unfold bind, ret in Hp. now rewrite Hp.
      * eapply fanout_frame_trans; [apply fanout_frame_request | exact Hf].
      * simpl. now rewrite Hr.
    + (* white space only *)
      destruct (pause_runs total count st) as (st' & Hp & Hf & Hr).
      exists st'. split; [| split; [exact Hf | exact Hr]].
      apply try_catch_normal. unfold bind at 1. unfold ret at 1.
      unfold bind. now rewrite Hp.
  - (* the call of trim throws: the catch attaches the error *)
    exists st. split; [| split; [apply fanout_frame_refl | reflexivity]].
    reflexivity.
Qed.

(** The loop processes every segment: it returns the results it was
    given followed by one result per segment, in order. *)
Lemma segment_loop_spec w total segments :
  forall results count st,
  exists st',
    segment_loop w total segments results count st
    = (Normal (results
               ++ results_of segments
                    (segment_outcomes w (st_requests st) segments),
               (count + length segments)%nat), st')
    /\ fanout_frame st st'.
Proof.
  induction segments as [| segment rest IH]; intros results count st.
  - exists st. simpl. rewrite app_nil_r, Nat.add_0_r.
    split; [reflexivity | apply fanout_frame_refl].
  - destruct (process_segment_spec w total segment results count st)
      as (st1 & Hstep & Hf1 & Hr1).
    destruct (IH (results
                  ++ [result_of segment
                        (segment_outcome w (st_requests st) segment)])
                 (S count) st1) as (st2 & Hloop & Hf2).
    exists st2. split.
    + cbn [segment_loop]. rewrite (bind_normal _ _ _ _ _ Hstep).
      cbn [fst snd]. rewrite Hloop. rewrite Hr1.
      cbn [segment_outcomes results_of length].
      rewrite <- app_assoc. cbn [app].
      now rewrite Nat.add_succ_r.
    + eapply fanout_frame_trans; eassumption.
Qed.

Lemma segment_outcomes_length w segments :
  forall k, length (segment_outcomes w k segments) = length segments.
Proof.
  induction segments as [| s rest IH]; intros k; simpl; [reflexivity |].
  now rewrite IH.
Qed.

Lemma results_of_length segments :
  forall os, length os = length segments ->
             length (results_of segments os) = length segments.
Proof.
  induction segments as [| s rest IH]; intros [| o os] H; simpl in *;
    try reflexivity; try discriminate.
  f_equal. apply IH. now injection H.
Qed.

Lemma results_of_lookup segments :
  forall os i segment o,
    segments !! i = Some segment -> os !! i = Some o ->
    results_of segments os !! i = Some (result_of segment o).
Proof.
  induction segments as [| s rest IH]; intros [| o' os] i segment o Hs Ho;
    try (destruct i; discriminate).
  destruct i as [| i]; simpl in *.
  - now inversion Hs; inversion Ho.
  - eapply IH; eassumption.
Qed.

(** On a transcript with a segments array the fan-out succeeds. *)
Lemma fanout_spec w tr segments st :
  tr_segments tr = SegmentsArray segments ->
  let results :=
    results_of segments (segment_outcomes w (st_requests st) segments) in
  exists st',
    processTranscriptionSegments w tr st
    = (Normal (FanOutOk results (overallAIProbability results)
                 (length segments) (length segments)), st')
    /\ fanout_frame st st'.
Proof.
  intros Hsegs results.
  destruct (segment_loop_spec w (length segments) segments [] 0%nat st)
    as (st' & Hloop & Hf).
  exists st'. split; [| exact Hf].
  unfold processTranscriptionSegments. rewrite Hsegs.
  apply try_catch_normal. rewrite (bind_normal _ _ _ _ _ Hloop).
  reflexivity.
Qed.

(** Without a segments array the fan-out returns a failure result and
    does nothing else. *)
Lemma fanout_without_array w tr st :
  (forall segments, tr_segments tr <> SegmentsArray segments) ->
  exists kept,
    processTranscriptionSegments w tr st
    = (Normal (FanOutFail "Invalid transcription format" kept), st)
    /\ (kept = SegmentsArray [] \/ kept = SegmentsNotArray).
Proof.
  intros Hno. unfold processTranscriptionSegments.
  destruct (tr_segments tr) as [| | segments] eqn:Hsegs.
  - exists (SegmentsArray []). split; [reflexivity | now left].
  - exists SegmentsNotArray. split; [reflexivity | now right].
  - now destruct (Hno segments).
Qed.

(** ** The rounding of doubles *)

Lemma pow2_pos k : (0 < Js.pow2 k)%Q.
Proof. apply Qpower_0_lt. reflexivity. Qed.

Lemma pow2_add i j : (Js.pow2 (i + j) == Js.pow2 i * Js.pow2 j)%Q.
Proof. apply Qpower_plus. discriminate. Qed.

Lemma pow2_le i j : (i <= j)%Z -> (Js.pow2 i <= Js.pow2 j)%Q.
Proof. intros H. apply Qpower_le_compat_l; [exact H | discriminate]. Qed.

Lemma pow2_lt_inv i j : (Js.pow2 i < Js.pow2 j)%Q -> (i < j)%Z.
Proof. intros H. eapply Qpower_lt_compat_l_inv; [exact H | reflexivity]. Qed.

Lemma pow2_nonneg k : (0 <= k)%Z -> (Js.pow2 k == inject_Z (2 ^ k))%Q.
Proof. intros H. unfold Js.pow2. now rewrite Zpower_Qpower. Qed.

(** *** Rounding to an integer *)

Lemma round_half_even_comp x y :
  (x == y)%Q -> Js.round_half_even x = Js.round_half_even y.
Proof.
  intros H. unfold Js.round_half_even.
  rewrite (Qfloor_comp x y H).
  assert (Hc : ((x - inject_Z (Qfloor y) ?= 1 # 2)
                = (y - inject_Z (Qfloor y) ?= 1 # 2))%Q).
  { apply Qcompare_comp; [now rewrite H | reflexivity]. }
  now rewrite Hc.
Qed.

Lemma round_half_even_bounds x :
  (Qfloor x <= Js.round_half_even x <= Qfloor x + 1)%Z.
Proof.
  unfold Js.round_half_even.
  destruct (x - inject_Z (Qfloor x) ?= 1 # 2)%Q; [destruct (Z.even _) | |]; lia.
Qed.

Lemma round_half_even_ge x k :
  (inject_Z k <= x)%Q -> (k <= Js.round_half_even x)%Z.
Proof.
  intros H. pose proof (round_half_even_bounds x) as [Hlo _].
  apply Qfloor_resp_le in H. rewrite Qfloor_Z in H. lia.
Qed.

Lemma round_half_even_le x k :
  (x <= inject_Z k)%Q -> (Js.round_half_even x <= k)%Z.
Proof.
  intros H. pose proof (Qfloor_resp_le _ _ H) as Hf. rewrite Qfloor_Z in Hf.
  destruct (Z.eq_dec (Qfloor x) k) as [Heq | Hne].
  - (* x = k *)
    assert (Hx : (x == inject_Z k)%Q).
    { apply Qle_antisym; [exact H |]. rewrite <- Heq. apply Qfloor_le. }
    rewrite (round_half_even_comp _ _ Hx). unfold Js.round_half_even.
    rewrite Qfloor_Z.
    assert (Hc : ((inject_Z k - inject_Z k ?= 1 # 2) = Lt)%Q).
    { rewrite <- Qlt_alt.
      assert (E : (inject_Z k - inject_Z k == 0)%Q) by ring.
      now rewrite E. }
    rewrite Hc. lia.
  - pose proof (round_half_even_bounds x) as [_ Hhi]. lia.
Qed.

Lemma round_half_even_mono x y :
  (x <= y)%Q -> (Js.round_half_even x <= Js.round_half_even y)%Z.
Proof.
  intros H. pose proof (Qfloor_resp_le _ _ H) as Hf.
  destruct (Z.eq_dec (Qfloor x) (Qfloor y)) as [Heq | Hne].
  - unfold Js.round_half_even. rewrite <- Heq.
    set (f := Qfloor x) in *.
    assert (Hfrac : (x - inject_Z f <= y - inject_Z f)%Q).
    { unfold Qminus. apply Qplus_le_compat; [exact H | apply Qle_refl]. }
    destruct (x - inject_Z f ?= 1 # 2)%Q eqn:Hx;
      destruct (y - inject_Z f ?= 1 # 2)%Q eqn:Hy;
      try (destruct (Z.even f)); try lia; exfalso;
      repeat match goal with
        | H : (_ ?= _)%Q = Eq |- _ => apply Qeq_alt in H
        | H : (_ ?= _)%Q = Lt |- _ => apply Qlt_alt in H
        | H : (_ ?= _)%Q = Gt |- _ => apply Qgt_alt in H
        end; lra.
  - pose proof (round_half_even_bounds x) as [_ Hhi].
    pose proof (round_half_even_bounds y) as [Hlo _]. lia.
Qed.

(** *** The exponent *)

Lemma Q_as_quotient a : (a * inject_Z (Zpos (Qden a)) == inject_Z (Qnum a))%Q.
Proof. destruct a as [n d]. unfold Qeq, Qmult, inject_Z. cbn. lia. Qed.

Lemma Qnum_pos a : (0 < a)%Q -> (0 < Qnum a)%Z.
Proof. destruct a as [n d]. unfold Qlt. cbn. lia. Qed.

Lemma exponent_spec a :
  (0 < a)%Q ->
  (Js.pow2 (Js.exponent a) <= a < Js.pow2 (Js.exponent a + 1))%Q.
Proof.
  intros Ha. unfold Js.exponent.
  pose proof (Qnum_pos a Ha) as Hn.
  pose proof (Q_as_quotient a) as Hq.
  set (n := Qnum a) in *. set (d := Zpos (Qden a)) in *.
  assert (Hd : (0 < d)%Z) by (unfold d; lia).
  pose proof (Z.log2_spec n Hn) as [Hn1 Hn2].
  pose proof (Z.log2_spec d Hd) as [Hd1 Hd2].
  pose proof (Z.log2_nonneg n) as Hln. pose proof (Z.log2_nonneg d) as Hld.
  set (ln := Z.log2 n) in *. set (ld := Z.log2 d) in *.
  rewrite Zle_Qle in Hn1, Hd1. rewrite Zlt_Qlt in Hn2, Hd2.
  rewrite <- pow2_nonneg in Hn1, Hn2, Hd1, Hd2 by lia.
  pose proof (pow2_pos ld) as Hx.
  pose proof (pow2_pos (ln - ld)) as Hy0.
  destruct (Qle_bool (Js.pow2 (ln - ld)) a) eqn:Hcase.
  - apply Qle_bool_iff in Hcase. split; [exact Hcase |].
    pose proof (pow2_add (ln - ld + 1) ld) as Hp.
    replace (ln - ld + 1 + ld)%Z with (Z.succ ln) in Hp by lia.
    pose proof (pow2_pos (ln - ld + 1)) as Hy.
    nra.
  - assert (Hlt : (a < Js.pow2 (ln - ld))%Q).
    { apply Qnot_le_lt. intros H. apply Qle_bool_iff in H. congruence. }
    replace (ln - ld - 1 + 1)%Z with (ln - ld)%Z by lia.
    split; [| exact Hlt].
    pose proof (pow2_add (ln - ld - 1) (Z.succ ld)) as Hp.
    replace (ln - ld - 1 + Z.succ ld)%Z with ln in Hp by lia.
    pose proof (pow2_pos (ln - ld - 1)) as Hy.
    pose proof (pow2_pos (Z.succ ld)) as Hx'.
    nra.
Qed.

Lemma exponent_mono a b :
  (0 < a)%Q -> (a <= b)%Q -> (Js.exponent a <= Js.exponent b)%Z.
Proof.
  intros Ha Hab.
  destruct (exponent_spec a Ha) as [Hlo _].
  destruct (exponent_spec b) as [_ Hhi]; [lra |].
  assert (H : (Js.pow2 (Js.exponent a) < Js.pow2 (Js.exponent b + 1))%Q) by lra.
  apply pow2_lt_inv in H. lia.
Qed.

(** *** Rounding a positive number *)

Lemma nearest_nonneg a : (0 < a)%Q -> (0 <= Js.nearest a)%Q.
Proof.
  intros Ha. unfold Js.nearest.
  set (q := Js.pow2 _).
  pose proof (pow2_pos (Z.max (Js.exponent a) (-1022) - 52)) as Hq.
  fold q in Hq.
  assert (H : (0 <= Js.round_half_even (a / q))%Z).
  { apply round_half_even_ge. change (inject_Z 0) with 0%Q.
    apply Qle_shift_div_l; [exact Hq | lra]. }
  rewrite Zle_Qle in H. change (inject_Z 0) with 0%Q in H. nra.
Qed.

(** The rounding of a number below [2^(E+1)], taken with the quantum
    [2^(E-52)], is at most [2^(E+1)]. *)
Lemma scaled_round_le a E :
  (a <= Js.pow2 (E + 1))%Q ->
  (inject_Z (Js.round_half_even (a / Js.pow2 (E - 52))) * Js.pow2 (E - 52)
   <= Js.pow2 (E + 1))%Q.
Proof.
  intros Ha. pose proof (pow2_pos (E - 52)) as Hq.
  pose proof (pow2_add 53 (E - 52)) as Hp.
  replace (53 + (E - 52))%Z with (E + 1)%Z in Hp by lia.
  rewrite (pow2_nonneg 53) in Hp by lia.
  assert (H : (Js.round_half_even (a / Js.pow2 (E - 52)) <= 2 ^ 53)%Z).
  { apply round_half_even_le. apply Qle_shift_div_r; [exact Hq |]. lra. }
  rewrite Zle_Qle in H. nra.
Qed.

(** The rounding of a number from [2^E] on, taken with the quantum
    [2^(E-52)], is at least [2^E]. *)
Lemma scaled_round_ge b E :
  (Js.pow2 E <= b)%Q ->
  (Js.pow2 E
   <= inject_Z (Js.round_half_even (b / Js.pow2 (E - 52))) * Js.pow2 (E - 52))%Q.
Proof.
  intros Hb. pose proof (pow2_pos (E - 52)) as Hq.
  pose proof (pow2_add 52 (E - 52)) as Hp.
  replace (52 + (E - 52))%Z with E in Hp by lia.
  rewrite (pow2_nonneg 52) in Hp by lia.
  assert (H : (2 ^ 52 <= Js.round_half_even (b / Js.pow2 (E - 52)))%Z).
  { apply round_half_even_ge. apply Qle_shift_div_l; [exact Hq |]. lra. }
  rewrite Zle_Qle in H. nra.
Qed.

Lemma nearest_mono a b :
  (0 < a)%Q -> (a <= b)%Q -> (Js.nearest a <= Js.nearest b)%Q.
Proof.
  intros Ha Hab. assert (Hb : (0 < b)%Q) by lra.
  pose proof (exponent_mono a b Ha Hab) as He.
  unfold Js.nearest.
  set (Ea := Z.max (Js.exponent a) (-1022)).
  set (Eb := Z.max (Js.exponent b) (-1022)).
  destruct (Z.eq_dec Ea Eb) as [Heq | Hne].
  - rewrite <- Heq. pose proof (pow2_pos (Ea - 52)) as Hq.
    set (q := Js.pow2 (Ea - 52)) in *.
    assert (H : (Js.round_half_even (a / q) <= Js.round_half_even (b / q))%Z).
    { apply round_half_even_mono. apply Qmult_le_compat_r; [exact Hab |].
      apply Qlt_le_weak, Qinv_lt_0_compat, Hq. }
    rewrite Zle_Qle in H. nra.
  - assert (Hlt : (Ea < Eb)%Z) by lia.
    assert (Hb' : Eb = Js.exponent b) by lia.
    destruct (exponent_spec a Ha) as [_ Ha2].
    destruct (exponent_spec b Hb) as [Hb1 _]. rewrite <- Hb' in Hb1.
    pose proof (pow2_le (Js.exponent a + 1) (Ea + 1) ltac:(lia)) as H1.
    pose proof (pow2_le (Ea + 1) Eb ltac:(lia)) as H2.
    pose proof (scaled_round_le a Ea ltac:(lra)) as H3.
    pose proof (scaled_round_ge b Eb Hb1) as H4.
    lra.
Qed.

(** *** The double nearest to a number *)

Lemma Qnum_sign q :
  match Qnum q with
  | Z0 => (q == 0)%Q
  | Zpos _ => (0 < q)%Q
  | Zneg _ => (q < 0)%Q
  end.
Proof. destruct q as [[| n | n] d]; unfold Qeq, Qlt; cbn; lia. Qed.

Lemma binary64_sign q :
  match Qnum q with
  | Z0 => (q == 0)%Q /\ Js.binary64 q = 0%Q
  | Zpos _ => (0 < q)%Q /\ (Js.binary64 q == Js.nearest q)%Q
  | Zneg _ => (q < 0)%Q /\ (Js.binary64 q == - Js.nearest (- q))%Q
  end.
Proof.
  pose proof (Qnum_sign q) as H. unfold Js.binary64.
  destruct (Qnum q); (split; [exact H |]);
    [reflexivity | apply Qred_correct | apply Qred_correct].
Qed.

(** Rounding to the nearest double keeps the order. *)
Lemma binary64_mono x y : (x <= y)%Q -> (Js.binary64 x <= Js.binary64 y)%Q.
Proof.
  intros H.
  pose proof (binary64_sign x) as Hx. pose proof (binary64_sign y) as Hy.
  destruct (Qnum x); destruct (Qnum y);
    destruct Hx as [Hx Hx']; destruct Hy as [Hy Hy'];
    rewrite ?Hx', ?Hy'; try lra.
  - (* 0, positive *) apply nearest_nonneg. exact Hy.
  - (* positive, positive *) now apply nearest_mono.
  - (* negative, 0 *)
    pose proof (nearest_nonneg (- x) ltac:(lra)). lra.
  - (* negative, positive *)
    pose proof (nearest_nonneg (- x) ltac:(lra)).
    pose proof (nearest_nonneg y Hy). lra.
  - (* negative, negative *)
    pose proof (nearest_mono (- y) (- x) ltac:(lra) ltac:(lra)). lra.
Qed.

Lemma round_half_even_Z z : Js.round_half_even (inject_Z z) = z.
Proof.
  pose proof (round_half_even_le (inject_Z z) z ltac:(apply Qle_refl)).
  pose proof (round_half_even_ge (inject_Z z) z ltac:(apply Qle_refl)).
  lia.
Qed.

(** The integers below [2^53] are doubles. *)
Lemma binary64_integer n :
  (0 <= n < 2 ^ 53)%Z -> (Js.binary64 (inject_Z n) == inject_Z n)%Q.
Proof.
  intros [Hlo Hhi].
  pose proof (binary64_sign (inject_Z n)) as Hs.
  destruct (Qnum (inject_Z n)) eqn:Hnum; destruct Hs as [Hs Hs'].
  - rewrite Hs'. now symmetry.
  - rewrite Hs'. unfold Js.nearest.
    destruct (exponent_spec (inject_Z n) Hs) as [He1 He2].
    set (e := Js.exponent (inject_Z n)) in *.
    assert (Hn : (1 <= n)%Z).
    { rewrite <- (Zlt_Qlt 0) in Hs. lia. }
    assert (He : (0 <= e <= 52)%Z).
    { split.
      - assert (H : (Js.pow2 0 < Js.pow2 (e + 1))%Q).
        { eapply Qle_lt_trans; [| exact He2].
          change (Js.pow2 0) with (inject_Z 1). now rewrite <- Zle_Qle. }
        apply pow2_lt_inv in H. lia.
      - assert (H : (Js.pow2 e < Js.pow2 53)%Q).
        { eapply Qle_lt_trans; [exact He1 |].
          rewrite (pow2_nonneg 53) by lia. now rewrite <- Zlt_Qlt. }
        apply pow2_lt_inv in H. lia. }
    replace (Z.max e (-1022)) with e by lia.
    pose proof (pow2_pos (e - 52)) as Hq.
    pose proof (pow2_add (e - 52) (52 - e)) as Hp.
    replace (e - 52 + (52 - e))%Z with 0%Z in Hp by lia.
    change (Js.pow2 0) with 1%Q in Hp.
    rewrite (pow2_nonneg (52 - e)) in Hp by lia.
    assert (Hscaled : (inject_Z n / Js.pow2 (e - 52)
                       == inject_Z (n * 2 ^ (52 - e)))%Q).
    { rewrite inject_Z_mult. field_simplify_eq; [| lra]. nra. }
    rewrite (round_half_even_comp _ _ Hscaled), round_half_even_Z.
    rewrite inject_Z_mult. nra.
  - exfalso. unfold Qlt in Hs. cbn in Hs. lia.
Qed.

(** ** The aggregate *)

Lemma num_or_zero o q : o = Some q -> (Js.num_or o 0 == q)%Q.
Proof.
  intros ->. unfold Js.num_or. destruct (Qeq_bool q 0) eqn:E.
  - apply Qeq_bool_eq in E. now symmetry.
  - reflexivity.
Qed.

(** The [reduce] of the source is the sum, from the left, of the
    probabilities of the results it runs over. *)
Lemma reduce_is_sum rs :
  forall init,
    fold_left
      (fun sum r =>
         Js.add sum (Js.num_or (ad_ai_probability (es_ai_detection r)) 0))
      rs init
    = fold_left Js.add (map ai_probability_of rs) init.
Proof.
  induction rs as [| r rest IH]; intros init; cbn [fold_left map].
  - reflexivity.
  - now rewrite IH.
Qed.

Lemma overall_is_mean results :
  overallAIProbability results
  = arithmetic_mean (valid_probabilities results).
Proof.
  unfold overallAIProbability, valid_probabilities.
  destruct (List.filter is_valid_result results) as [| r valid] eqn:E.
  - reflexivity.
  - replace (0 <? length (r :: valid))%nat with true by reflexivity.
    unfold arithmetic_mean, js_sum. rewrite reduce_is_sum.
    cbn [map length]. now rewrite length_map.
Qed.

(** The mean of 0.1, 0.2 and 0.3 as the source computes it: not 0.2 but
    the double next to it, 0.20000000000000004. *)
Lemma mean_of_three_tenths :
  arithmetic_mean [Js.binary64 0.1; Js.binary64 0.2; Js.binary64 0.3]
  = (7205759403792795 # 36028797018963968)%Q
  /\ ~ (arithmetic_mean [Js.binary64 0.1; Js.binary64 0.2; Js.binary64 0.3]
        == Js.binary64 0.2)%Q.
Proof. split; [vm_compute; reflexivity | vm_compute; discriminate]. Qed.

(** Equal numbers give the same sum, whatever fractions stand for them. *)
Lemma js_sum_compat qs qs' :
  Forall2 Qeq qs qs' ->
  forall init, fold_left Js.add qs init = fold_left Js.add qs' init.
Proof.
  induction 1 as [| q q' qs qs' Hq _ IH]; intros init; cbn [fold_left].
  - reflexivity.
  - assert (Hstep : Js.add init q = Js.add init q').
    { unfold Js.add. f_equal. apply Qred_complete. now rewrite Hq. }
    rewrite Hstep. apply IH.
Qed.

Lemma arithmetic_mean_compat qs qs' :
  Forall2 Qeq qs qs' -> arithmetic_mean qs = arithmetic_mean qs'.
Proof.
  intros H. pose proof (Forall2_length _ _ _ H) as Hlen.
  destruct H as [| q q' qs qs' Hq Hqs]; [reflexivity |].
  unfold arithmetic_mean, js_sum.
  rewrite (js_sum_compat (q :: qs) (q' :: qs')) by now constructor.
  now rewrite Hlen.
Qed.

(** ** The orchestrator, block by block *)

Lemma try_catch_finally_returns {A} (body : M A) handler fin st c st1 st2 :
  try_catch body handler st = (c, st1) ->
  fin st1 = (Normal None, st2) ->
  try_catch_finally body handler fin st = (c, st2).
Proof. intros H1 H2. unfold try_catch_finally. now rewrite H1, H2. Qed.

Lemma try_catch_finally_overridden {A} (body : M A) handler fin st v :
  (forall st1, fin st1 = (Normal (Some v), st1)) ->
  try_catch_finally body handler fin st
  = (Normal v, snd (try_catch body handler st)).
Proof.
  intros H. unfold try_catch_finally.
  destruct (try_catch body handler st) as [c st1]. now rewrite H.
Qed.

Lemma finally_block_demo w st :
  isDemoMode w = true -> finally_block w st = (Normal (Some RetUndefined), st).
Proof. intros H. unfold finally_block. now rewrite H. Qed.

Lemma finally_block_real w st :
  isDemoMode w = false ->
  finally_block w st
  = (Normal None, after_emit (EvWarn "Error during cleanup:") st).
Proof. intros H. unfold finally_block. now rewrite H. Qed.

Lemma catch_block_run w id startTime message st :
  catch_block w id startTime message st
  = (Normal (RetFailure id message (Date_now w (st_clock st) - startTime)),
     after_update w id "failed" (failure_data w startTime message st)
       (after_now st)).
Proof. reflexivity. Qed.

(** A run in real mode whose [try] block throws. *)
Lemma real_run_throwing w url st message st1 :
  isDemoMode w = false ->
  try_block w url (uuidv4 w) (Date_now w (st_clock st)) (after_now st)
  = (Throw message, st1) ->
  startAnalysis w url st
  = (Normal (RetFailure (uuidv4 w) message
               (Date_now w (st_clock st1) - Date_now w (st_clock st))),
     after_emit (EvWarn "Error during cleanup:")
       (after_update w (uuidv4 w) "failed"
          (failure_data w (Date_now w (st_clock st)) message st1)
          (after_now st1))).
Proof.
  intros Hreal Hbody. unfold startAnalysis. cbv zeta.
  rewrite (bind_normal (now w) _ st (Date_now w (st_clock st)) (after_now st)
             eq_refl).
  eapply try_catch_finally_returns.
  - rewrite (try_catch_throw _ _ _ _ _ Hbody). apply catch_block_run.
  - now apply finally_block_real.
Qed.

(** A run in real mode whose [try] block returns. *)
Lemma real_run_returning w url st r st1 :
  isDemoMode w = false ->
  try_block w url (uuidv4 w) (Date_now w (st_clock st)) (after_now st)
  = (Normal r, st1) ->
  startAnalysis w url st
  = (Normal r, after_emit (EvWarn "Error during cleanup:") st1).
Proof.
  intros Hreal Hbody. unfold startAnalysis. cbv zeta.
  rewrite (bind_normal (now w) _ st (Date_now w (st_clock st)) (after_now st)
             eq_refl).
  eapply try_catch_finally_returns.
  - apply (try_catch_normal _ _ _ _ _ Hbody).
  - now apply finally_block_real.
Qed.

Lemma try_block_fresh w url st startTime :
  st_db st !! uuidv4 w = None ->
  try_block w url (uuidv4 w) startTime (after_now st)
  = (if isDemoMode w then demo_branch w url (uuidv4 w) startTime
     else real_branch w url (uuidv4 w) startTime) (after_writes w url st).
Proof.
  intros Hfresh. unfold try_block.
  unfold bind at 1. unfold insertAnalysis.
  replace (st_db (after_now st)) with (st_db st) by reflexivity.
  rewrite Hfresh. reflexivity.
Qed.

Lemma try_block_taken w url st startTime row :
  st_db st !! uuidv4 w = Some row ->
  try_block w url (uuidv4 w) startTime (after_now st)
  = (Throw constraint_error, after_now st).
Proof.
  intros Htaken. unfold try_block.
  unfold bind at 1. unfold insertAnalysis.
  replace (st_db (after_now st)) with (st_db st) by reflexivity.
  now rewrite Htaken.
Qed.

(** The capture fails. *)
Lemma real_branch_video_fails w url id startTime st error :
  processVideo w url id = VideoFail error ->
  real_branch w url id startTime st
  = (Throw ("Video processing failed: " +:+ error),
     after_emit (EvProcessVideo url id) st).
Proof.
  intros Hv. unfold real_branch. unfold bind at 1. unfold emit at 1.
  now rewrite Hv.
Qed.

(** The transcoder fails. *)
Lemma real_branch_audio_fails w url id startTime st sp ap error :
  processVideo w url id = VideoOk sp ap ->
  processAudio w ap id = AudioFail error ->
  real_branch w url id startTime st
  = (Throw ("Audio conversion failed: " +:+ error),
     before_audio w url id sp ap st).
Proof.
  intros Hv Ha. unfold real_branch. unfold bind at 1. unfold emit at 1.
  rewrite Hv. unfold bind at 1. unfold updateStatus at 1.
  unfold bind at 1. unfold emit at 1. now rewrite Ha.
Qed.

(** The transcription fails. *)
Lemma real_branch_transcribe_fails w url id startTime st sp ap wav oi wi
    error details :
  processVideo w url id = VideoOk sp ap ->
  processAudio w ap id = AudioOk wav oi wi ->
  transcribeAudio w wav id = TranscribeFail error details ->
  real_branch w url id startTime st
  = (Throw ("Transcription failed: " +:+ error),
     before_transcribe w url id sp ap wav st).
Proof.
  intros Hv Ha Ht. unfold real_branch. unfold bind at 1. unfold emit at 1.
  rewrite Hv. unfold bind at 1. unfold updateStatus at 1.
  unfold bind at 1. unfold emit at 1. rewrite Ha.
  unfold bind at 1. unfold updateStatus at 1.
  unfold bind at 1. unfold emit at 1. now rewrite Ht.
Qed.

(** The three adapters succeed and the fan-out returns: the run is
    persisted as completed, whatever the fan-out returned. *)
Lemma real_branch_completes w url id startTime st sp ap wav oi wi tr r st' :
  processVideo w url id = VideoOk sp ap ->
  processAudio w ap id = AudioOk wav oi wi ->
  transcribeAudio w wav id = TranscribeOk tr ->
  processTranscriptionSegments w tr (before_detect w url id sp ap wav st)
  = (Normal r, st') ->
  real_branch w url id startTime st
  = (Normal (RetSuccess id
               (result_after w url id sp wav oi wi tr r startTime st')),
     after_update w id "completed"
       (completed_data w
          (result_after w url id sp wav oi wi tr r startTime st'))
       (after_now (after_now (after_check r st')))).
Proof.
  intros Hv Ha Ht Hfan. unfold real_branch. unfold bind at 1. unfold emit at 1.
  rewrite Hv. unfold bind at 1. unfold updateStatus at 1.
  unfold bind at 1. unfold emit at 1. rewrite Ha.
  unfold bind at 1. unfold updateStatus at 1.
  unfold bind at 1. unfold emit at 1. rewrite Ht.
  unfold bind at 1. unfold updateStatus at 1.
  change (after_update w id "transcribed" no_data _)
    with (before_detect w url id sp ap wav st).
  rewrite (bind_normal _ _ _ _ _ Hfan).
  destruct r as [segments overall processed total | error kept];
    reflexivity.
Qed.

(** The fan-out always returns a result. *)
Lemma fanout_total w tr st :
  exists r st',
    processTranscriptionSegments w tr st = (Normal r, st')
    /\ fanout_frame st st'.
Proof.
  destruct (tr_segments tr) as [| | segments] eqn:Hsegs.
  - destruct (fanout_without_array w tr st) as (kept & H & _).
    + intros segments. now rewrite Hsegs.
    + eexists _, st. split; [exact H | apply fanout_frame_refl].
  - destruct (fanout_without_array w tr st) as (kept & H & _).
    + intros segments. now rewrite Hsegs.
    + eexists _, st. split; [exact H | apply fanout_frame_refl].
  - destruct (fanout_spec w tr segments st Hsegs) as (st' & H & Hf).
    eexists _, st'. split; [exact H | exact Hf].
Qed.

(** Where the row of a run stands in the store. *)
Lemma lookup_after_writes w url st :
  st_db st !! uuidv4 w = None ->
  exists row,
    st_db (after_writes w url st) !! uuidv4 w = Some row
    /\ row_status row = "processing"
    /\ row_transcription row = None /\ row_ai_probabilities row = None
    /\ row_error_message row = None /\ row_processing_time row = None.
Proof.
  intros Hfresh. unfold after_writes. cbn [st_db after_update after_insert].
  rewrite lookup_alter_eq, lookup_insert_eq. cbn [fmap option_fmap option_map].
  eexists. split; [reflexivity |]. repeat split.
Qed.

Lemma lookup_after_update w id status data st row :
  st_db st !! id = Some row ->
  st_db (after_update w id status data st) !! id
  = Some (updated_row w (CURRENT_TIMESTAMP w (st_writes st)) status data row).
Proof.
  intros H. cbn [st_db after_update]. rewrite lookup_alter_eq. now rewrite H.
Qed.

(** ** Segments and their results *)

Lemma segment_outcomes_lookup w segments :
  forall k i segment,
    segments !! i = Some segment ->
    exists k',
      segment_outcomes w k segments !! i = Some (segment_outcome w k' segment).
Proof.
  induction segments as [| s rest IH]; intros k i segment Hi.
  - destruct i; discriminate.
  - destruct i as [| i]; cbn in Hi |- *.
    + inversion Hi; subst. now exists k.
    + eapply IH; eassumption.
Qed.

Lemma empty_segment_outcome w k segment :
  is_empty_segment segment = true -> segment_outcome w k segment = OutEmpty.
Proof.
  unfold is_empty_segment, segment_outcome, has_text.
  destruct (seg_text segment) as [| s |]; try discriminate; [reflexivity |].
  intros H. apply orb_true_iff in H as [H | H].
  - now rewrite H.
  - apply String.eqb_eq in H. rewrite H.
    now rewrite andb_false_r.
Qed.

Lemma valid_probabilities_delete rs :
  forall i r,
    rs !! i = Some r -> is_valid_result r = false ->
    valid_probabilities (delete i rs) = valid_probabilities rs.
Proof.
  unfold valid_probabilities.
  induction rs as [| r0 rest IH]; intros i r Hi Hr.
  - destruct i; discriminate.
  - destruct i as [| i]; cbn in Hi.
    + inversion Hi; subst. cbn [List.filter]. now rewrite Hr.
    + change (delete (S i) (r0 :: rest)) with (r0 :: delete i rest).
      cbn [List.filter]. destruct (is_valid_result r0); cbn [map];
        now rewrite (IH i r Hi Hr).
Qed.

(** The filter tests the truthiness of [error]: a failure of the detector
    whose message is the empty string passes for a valid result, error
    marker or not. *)
Lemma failure_without_message_passes_the_filter segment details :
  let r := result_of segment (OutDetected (DetectFail "" details)) in
  carries_error_marker r = true /\ is_valid_result r = true.
Proof. split; reflexivity. Qed.

(** A result that passes the filter and has an error marker is one of a
    failure without a message. *)
Lemma valid_with_marker_has_no_message r :
  is_valid_result r = true -> carries_error_marker r = true ->
  ad_error (es_ai_detection r) = Some "".
Proof.
  unfold is_valid_result, carries_error_marker, Js.truthy_str.
  destruct (ad_error (es_ai_detection r)) as [message |]; [| discriminate].
  intros H _. apply negb_true_iff, negb_false_iff, String.eqb_eq in H.
  now subst.
Qed.

(** With regular outcomes, the results that pass the filter are those of
    the empty and of the scored segments. *)
Lemma regular_results segments :
  forall os,
    length os = length segments ->
    forallb regular_outcome os = true ->
    Forall2 Qeq (valid_probabilities (results_of segments os))
      (counted_probabilities os)
    /\ (length (counted_probabilities os)
        + count_outcomes is_failure_outcome os = length segments)%nat
    /\ (length (detected_probabilities os)
        + count_outcomes is_empty_outcome os
        + count_outcomes is_failure_outcome os = length segments)%nat.
Proof.
  unfold count_outcomes, valid_probabilities.
  induction segments as [| s rest IH]; intros [| o os] Hlen Hreg;
    try discriminate.
  - repeat split; constructor.
  - cbn in Hlen. injection Hlen as Hlen.
    cbn [forallb] in Hreg. apply andb_true_iff in Hreg as [Ho Hos].
    destruct (IH os Hlen Hos) as (H1 & H2 & H3).
    destruct o as [| | [p pred c m | error details]]; cbn in Ho;
      try discriminate.
    + (* empty *)
      cbn. repeat split; [| lia | lia].
      constructor; [reflexivity | exact H1].
    + (* scored *)
      cbn. repeat split; [| lia | lia].
      constructor; [| exact H1].
      unfold ai_probability_of. cbn [es_ai_detection detection_of
        ad_ai_probability].
      apply (num_or_zero (Some p) p eq_refl).
    + (* failed, with a message *)
      assert (Hm : is_valid_result
                     (result_of s (OutDetected (DetectFail error details)))
                   = false).
      { unfold is_valid_result. cbn. now rewrite Ho. }
      cbn [results_of List.filter]. rewrite Hm.
      cbn [List.filter is_failure_outcome is_empty_outcome
        detected_probabilities counted_probabilities length].
      repeat split; [exact H1 | lia | lia].
Qed.

(** ** C5 *)

(** C5.  The claim fails where the detector fails on a segment with an
    error whose message is the empty string.  Of two segments, one scored
    0.75 and one failing so, the result of the second has an [error]
    property, and yet the overall probability is not the mean over the
    results without an error marker, 0.75, but (0.75 + 0) / 2: the filter
    tests the truthiness of [error] and lets the failed result through. *)
Theorem failure_without_message_is_averaged_in :
  exists results overall st' r,
    processTranscriptionSegments Fixture.mute_world
      (Sample.transcript (SegmentsArray Fixture.mute_segments)) Sample.fresh
    = (Normal (FanOutOk results overall 2 2), st')
    /\ results !! 1%nat = Some r
    /\ ad_error (es_ai_detection r) = Some ""
    /\ carries_error_marker r = true
    /\ (arithmetic_mean (non_error_probabilities results) == 0.75)%Q
    /\ (overall == 0.375)%Q
    /\ ~ (overall == arithmetic_mean (non_error_probabilities results))%Q.
Proof.
  eexists _, _, _, _. split; [vm_compute; reflexivity |].
  split; [reflexivity |]. split; [reflexivity |]. split; [reflexivity |].
  split; [vm_compute; reflexivity |]. split; [vm_compute; reflexivity |].
  vm_compute. discriminate.
Qed.

(** Where every failure of the detector has a message, the results that
    pass the filter are those without an error marker, and the overall
    probability is the mean over them. *)
Lemma overall_is_mean_of_non_error_results segments os :
  length os = length segments ->
  forallb failure_has_message os = true ->
  overallAIProbability (results_of segments os)
  = arithmetic_mean (non_error_probabilities (results_of segments os)).
Proof.
  intros Hlen Hreg. rewrite overall_is_mean. f_equal.
  unfold valid_probabilities. revert os Hlen Hreg.
  induction segments as [| s rest IH]; intros [| o os] Hlen Hreg;
    try discriminate; [reflexivity |].
  cbn in Hlen. injection Hlen as Hlen.
  cbn [forallb] in Hreg. apply andb_true_iff in Hreg as [Ho Hos].
  cbn [results_of List.filter non_error_probabilities].
  destruct o as [| | [p pred c m | error details]]; cbn in Ho |- *;
    try (now rewrite (IH os Hlen Hos)).
  unfold is_valid_result, carries_error_marker. cbn. rewrite Ho. cbn.
  apply (IH os Hlen Hos).
Qed.

(** ** C3 *)




(** ** Runs of the real path that get through *)

Lemma requests_before_detect w url id sp ap wav st :
  st_requests (before_detect w url id sp ap wav (after_writes w url st))
  = st_requests st.
Proof. reflexivity. Qed.

Lemma lookup_before_detect w url sp ap wav st :
  st_db st !! uuidv4 w = None ->
  exists row,
    st_db (before_detect w url (uuidv4 w) sp ap wav (after_writes w url st))
    !! uuidv4 w = Some row
    /\ row_status row = "transcribed" /\ row_error_message row = None.
Proof.
  intros Hfresh.
  destruct (lookup_after_writes w url st Hfresh) as (row & Hrow & _ & _ & _ & He & _).
  unfold before_detect, before_transcribe, before_audio.
  cbn [st_db after_emit].
  erewrite lookup_after_update; [| cbn [st_db after_emit]].
  2: { erewrite lookup_after_update; [reflexivity | cbn [st_db after_emit]].
       erewrite lookup_after_update; [reflexivity | exact Hrow]. }
  eexists. split; [reflexivity |]. split; [reflexivity |].
  cbn. unfold set_if. cbn. exact He.
Qed.

Lemma db_after_check r st : st_db (after_check r st) = st_db st.
Proof. now destruct r. Qed.

(** In real mode, with a free identifier and three adapters that succeed,
    the run returns success and leaves the record completed, whatever the
    fan-out returns. *)
Lemma real_run_completes w url st sp ap wav oi wi tr :
  isDemoMode w = false ->
  st_db st !! uuidv4 w = None ->
  processVideo w url (uuidv4 w) = VideoOk sp ap ->
  processAudio w ap (uuidv4 w) = AudioOk wav oi wi ->
  transcribeAudio w wav (uuidv4 w) = TranscribeOk tr ->
  exists r st1 st_end row,
    processTranscriptionSegments w tr
      (before_detect w url (uuidv4 w) sp ap wav (after_writes w url st))
    = (Normal r, st1)
    /\ startAnalysis w url st
       = (Normal (RetSuccess (uuidv4 w)
                    (result_after w url (uuidv4 w) sp wav oi wi tr r
                       (Date_now w (st_clock st)) st1)), st_end)
    /\ st_trace st_end
       = st_trace (after_check r st1)
         ++ [EvUpdate (uuidv4 w) "completed"; EvWarn "Error during cleanup:"]
    /\ st_db st_end !! uuidv4 w = Some row
    /\ row_status row = "completed" /\ row_error_message row = None.
Proof.
  intros Hreal Hfresh Hv Ha Ht.
  destruct (fanout_total w tr
              (before_detect w url (uuidv4 w) sp ap wav (after_writes w url st)))
    as (r & st1 & Hfan & Hdb & _).
  destruct (lookup_before_detect w url sp ap wav st Hfresh)
    as (row & Hrow & _ & Herr).
  eexists r, st1, _, _. split; [exact Hfan |]. split.
  - apply real_run_returning; [exact Hreal |].
    rewrite (try_block_fresh w url st _ Hfresh), Hreal.
    apply (real_branch_completes w url (uuidv4 w) _ _ sp ap wav oi wi tr r st1
             Hv Ha Ht Hfan).
  - split.
    + cbn [st_trace after_emit after_update after_now].
      now rewrite <- app_assoc.
    + split.
      * cbn [st_db after_emit]. apply lookup_after_update.
        cbn [st_db after_now]. rewrite db_after_check, Hdb. exact Hrow.
      * split; [reflexivity |]. cbn. unfold set_if. cbn. exact Herr.
Qed.

(** ** C6 *)

(** When the detection call for segment [i] fails with a message, the
    fan-out still returns success with one result per segment, each the
    result of the outcome of its own segment, and both counts at the
    number of segments; the result of segment [i] carries the error, does
    not pass the filter, and the overall probability is the one of the
    other results alone.  The job itself, its three adapters having
    succeeded, returns success with these results and is persisted as
    completed. *)
Lemma detection_failure_with_message_is_excluded
    w url st sp ap wav oi wi tr segments i error details :
  isDemoMode w = false ->
  st_db st !! uuidv4 w = None ->
  processVideo w url (uuidv4 w) = VideoOk sp ap ->
  processAudio w ap (uuidv4 w) = AudioOk wav oi wi ->
  transcribeAudio w wav (uuidv4 w) = TranscribeOk tr ->
  tr_segments tr = SegmentsArray segments ->
  segment_outcomes w (st_requests st) segments !! i
  = Some (OutDetected (DetectFail error details)) ->
  error <> "" ->
  exists results overall st' r,
    processTranscriptionSegments w tr st
    = (Normal (FanOutOk results overall (length segments) (length segments)),
       st')
    /\ length results = length segments
    /\ results !! i = Some r
    /\ ad_error (es_ai_detection r) = Some error
    /\ is_valid_result r = false
    /\ overall = overallAIProbability (delete i results)
    /\ (forall j segment,
          segments !! j = Some segment ->
          exists o,
            segment_outcomes w (st_requests st) segments !! j = Some o
            /\ results !! j = Some (result_of segment o))
    /\ exists fr st_end row,
         startAnalysis w url st = (Normal (RetSuccess (uuidv4 w) fr), st_end)
         /\ fr_transcription fr = PayloadSegments results
         /\ fr_ai_probabilities fr
            = PayloadSummary (Js.num_or (Some overall) 0) (length segments)
                (length segments)
         /\ st_db st_end !! uuidv4 w = Some row
         /\ row_status row = "completed"
         /\ row_error_message row = None.
Proof.
  intros Hreal Hfresh Hv Ha Ht Hsegs Hi Herror.
  set (os := segment_outcomes w (st_requests st) segments) in *.
  set (results := results_of segments os).
  assert (Hlen : length os = length segments)
    by apply segment_outcomes_length.
  destruct (fanout_spec w tr segments st Hsegs) as (st' & Hrun & _).
  fold os results in Hrun.
  assert (Hseg : is_Some (segments !! i)).
  { apply lookup_lt_is_Some_2. rewrite <- Hlen.
    eapply lookup_lt_Some. exact Hi. }
  destruct Hseg as [segment Hsegment].
  assert (Hr : results !! i
               = Some (result_of segment
                         (OutDetected (DetectFail error details))))
    by (apply results_of_lookup; assumption).
  assert (Hinvalid : is_valid_result
                       (result_of segment
                          (OutDetected (DetectFail error details))) = false).
  { unfold is_valid_result. cbn.
    apply negb_false_iff, negb_true_iff, String.eqb_neq. exact Herror. }
  eexists results, _, st', _. split; [exact Hrun |].
  split; [now apply results_of_length |].
  split; [exact Hr |]. split; [reflexivity |].
  split; [exact Hinvalid |].
  split.
  { rewrite !overall_is_mean.
    now rewrite (valid_probabilities_delete results i _ Hr Hinvalid). }
  split.
  { intros j sj Hj.
    assert (Ho : is_Some (os !! j)).
    { apply lookup_lt_is_Some_2. rewrite Hlen.
      eapply lookup_lt_Some. exact Hj. }
    destruct Ho as [o Ho]. exists o.
    split; [exact Ho | now apply results_of_lookup]. }
  destruct (real_run_completes w url st sp ap wav oi wi tr
              Hreal Hfresh Hv Ha Ht)
    as (r & st1 & st_end & row & Hfan & Hstart & _ & Hrow & Hstatus & Hnone).
  destruct (fanout_spec w tr segments
              (before_detect w url (uuidv4 w) sp ap wav (after_writes w url st))
              Hsegs) as (st2 & Hrun2 & _).
  rewrite requests_before_detect in Hrun2. fold os results in Hrun2.
  rewrite Hrun2 in Hfan. inversion Hfan; subst r st2; clear Hfan.
  eexists _, st_end, row. split; [exact Hstart |].
  repeat split; assumption.
Qed.

(** C6.  The claim fails where the detection call for a segment fails
    with an error whose message is the empty string.  Of two segments, one
    scored 0.75 and one failing so, the fan-out returns success and the
    job is persisted as completed, the result of the second segment has
    the [error] property, and yet it passes the filter and stays in the
    aggregate: the overall probability is (0.75 + 0) / 2, where the
    aggregate of the other results alone is 0.75. *)
Theorem failure_without_message_is_not_excluded :
  exists results overall st' r fr st_end row,
    processTranscriptionSegments Fixture.mute_world
      (Sample.transcript (SegmentsArray Fixture.mute_segments)) Sample.fresh
    = (Normal (FanOutOk results overall 2 2), st')
    /\ results !! 1%nat = Some r
    /\ ad_error (es_ai_detection r) = Some ""
    /\ ad_ai_probability (es_ai_detection r) = None
    /\ is_valid_result r = true
    /\ (overall == 0.375)%Q
    /\ (overallAIProbability (delete 1%nat results)
        == 0.75)%Q
    /\ startAnalysis Fixture.mute_world Sample.url Sample.fresh
       = (Normal (RetSuccess Sample.job fr), st_end)
    /\ fr_transcription fr = PayloadSegments results
    /\ st_db st_end !! Sample.job = Some row
    /\ row_status row = "completed".
Proof.
  eexists _, _, _, _, _, _, _. split; [vm_compute; reflexivity |].
  split; [reflexivity |]. split; [reflexivity |]. split; [reflexivity |].
  split; [reflexivity |]. split; [vm_compute; reflexivity |].
  split; [vm_compute; reflexivity |]. split; [vm_compute; reflexivity |].
  split; [reflexivity |]. split; [vm_compute; reflexivity |]. reflexivity.
Qed.

(** ** C7 *)

(** C7.  In every real-mode run with a free identifier in which the
    capture succeeds and the transcoder returns the failure "bad codec",
    the run does exactly this: the two initial writes, the capture, its
    status write, the transcoder call, the write of [failed], and the
    cleanup warning.  Neither the transcription nor the detector is
    called.  The record ends failed with an error message that contains
    "bad codec", and its two payload columns are still [NULL]. *)
Theorem transcode_failure_fails_the_job w url st sp ap :
  isDemoMode w = false ->
  st_db st !! uuidv4 w = None ->
  processVideo w url (uuidv4 w) = VideoOk sp ap ->
  processAudio w ap (uuidv4 w) = AudioFail "bad codec" ->
  exists elapsed st_end row message,
    startAnalysis w url st
    = (Normal (RetFailure (uuidv4 w) message elapsed), st_end)
    /\ st_trace st_end
       = st_trace st
         ++ [ EvInsert (uuidv4 w) url "pending";
              EvUpdate (uuidv4 w) "processing";
              EvProcessVideo url (uuidv4 w);
              EvUpdate (uuidv4 w) "video_processed";
              EvProcessAudio ap (uuidv4 w);
              EvUpdate (uuidv4 w) "failed";
              EvWarn "Error during cleanup:" ]
    /\ st_db st_end !! uuidv4 w = Some row
    /\ row_status row = "failed"
    /\ row_error_message row = Some message
    /\ Js.includes message "bad codec" = true
    /\ row_ai_probabilities row = None
    /\ row_transcription row = None.
Proof.
  intros Hreal Hfresh Hv Ha.
  destruct (lookup_after_writes w url st Hfresh)
    as (row & Hrow & _ & Htr & Hai & _ & _).
  eexists _, _, _, _. split.
  - apply real_run_throwing; [exact Hreal |].
    rewrite (try_block_fresh w url st _ Hfresh), Hreal.
    apply (real_branch_audio_fails w url (uuidv4 w) _ _ sp ap "bad codec" Hv Ha).
  - split.
    + unfold before_audio, after_writes.
      cbn [st_trace after_emit after_update after_now after_insert].
      now rewrite <- !app_assoc.
    + split.
      * cbn [st_db after_emit]. apply lookup_after_update.
        cbn [st_db after_now before_audio after_emit].
        apply lookup_after_update. cbn [st_db after_emit]. exact Hrow.
      * repeat split; try reflexivity.
        -- cbn. unfold set_if. cbn. exact Hai.
        -- cbn. unfold set_if. cbn. exact Htr.
Qed.

Lemma transcode_failure_fails_the_job_at_bad_codec :
  (isDemoMode Sample.bad_codec_world = false
   /\ st_db Sample.fresh !! Sample.job = None
   /\ processVideo Sample.bad_codec_world Sample.url Sample.job
      = VideoOk "screenshots/shot.png" "audio/raw.webm"
   /\ processAudio Sample.bad_codec_world "audio/raw.webm" Sample.job
      = AudioFail "bad codec")
  /\ exists elapsed st_end row message,
    startAnalysis Sample.bad_codec_world Sample.url Sample.fresh
    = (Normal (RetFailure Sample.job message elapsed), st_end)
    /\ st_trace st_end
       = [ EvInsert Sample.job Sample.url "pending";
           EvUpdate Sample.job "processing";
           EvProcessVideo Sample.url Sample.job;
           EvUpdate Sample.job "video_processed";
           EvProcessAudio "audio/raw.webm" Sample.job;
           EvUpdate Sample.job "failed";
           EvWarn "Error during cleanup:" ]
    /\ st_db st_end !! Sample.job = Some row
    /\ row_status row = "failed"
    /\ row_error_message row = Some message
    /\ Js.includes message "bad codec" = true
    /\ row_ai_probabilities row = None
    /\ row_transcription row = None.
Proof.
  split; [repeat split |].
  apply (transcode_failure_fails_the_job Sample.bad_codec_world Sample.url
           Sample.fresh "screenshots/shot.png" "audio/raw.webm");
    reflexivity.
Defined.

(** ** C4 *)

(** The record of a run whose capture fails: the message is stored, the
    elapsed time only when it is not zero. *)
Lemma capture_failure_record w url st error :
  isDemoMode w = false ->
  st_db st !! uuidv4 w = None ->
  processVideo w url (uuidv4 w) = VideoFail error ->
  let elapsed := (Date_now w (S (st_clock st)) - Date_now w (st_clock st))%Z in
  exists st_end row,
    startAnalysis w url st
    = (Normal (RetFailure (uuidv4 w) ("Video processing failed: " +:+ error)
                 elapsed), st_end)
    /\ st_db st_end !! uuidv4 w = Some row
    /\ row_status row = "failed"
    /\ row_error_message row = Some ("Video processing failed: " +:+ error)
    /\ row_processing_time row
       = if (elapsed =? 0)%Z then None else Some elapsed.
Proof.
  intros Hreal Hfresh Hv elapsed.
  destruct (lookup_after_writes w url st Hfresh)
    as (row & Hrow & _ & _ & _ & _ & Htime).
  assert (Hbody :
            try_block w url (uuidv4 w) (Date_now w (st_clock st)) (after_now st)
            = (Throw ("Video processing failed: " +:+ error),
               after_emit (EvProcessVideo url (uuidv4 w))
                 (after_writes w url st))).
  { rewrite (try_block_fresh w url st _ Hfresh), Hreal.
    now apply real_branch_video_fails. }
  rewrite (real_run_throwing w url st _ _ Hreal Hbody).
  eexists _, _. split; [reflexivity |]. split.
  - cbn [st_db after_emit]. apply lookup_after_update.
    cbn [st_db after_now after_emit]. exact Hrow.
  - split; [reflexivity |]. split; [reflexivity |].
    cbn. unfold set_if. fold elapsed.
    destruct (elapsed =? 0)%Z; [exact Htime | reflexivity].
Qed.

(** C4.  A run whose capture fails within the millisecond it started in
    leaves a record with status [failed] and an error message, but with
    [processing_time] still [NULL]: [updateStatus] leaves out the column
    for an elapsed time of zero. *)
Theorem failed_record_without_processing_time :
  exists st_end row,
    startAnalysis Sample.instant_failure_world Sample.url Sample.fresh
    = (Normal (RetFailure Sample.job
                 "Video processing failed: Invalid YouTube URL" 0), st_end)
    /\ st_db st_end !! Sample.job = Some row
    /\ row_status row = "failed"
    /\ row_error_message row
       = Some "Video processing failed: Invalid YouTube URL"
    /\ row_processing_time row = None.
Proof.
  eexists _, _. split; [vm_compute; reflexivity |].
  split; [vm_compute; reflexivity |]. repeat split.
Qed.

(** ** C1 *)

(** C1.  In demo mode every call of [startAnalysis] evaluates to
    [undefined]: the [return;] of the [finally] block replaces whatever
    the [try] or [catch] block returned. *)
Theorem startAnalysis_returns_undefined_in_demo_mode w url st :
  isDemoMode w = true ->
  fst (startAnalysis w url st) = Normal RetUndefined.
Proof.
  intros Hdemo. unfold startAnalysis. cbv zeta.
  rewrite (bind_normal (now w) _ st (Date_now w (st_clock st)) (after_now st)
             eq_refl).
  rewrite (try_catch_finally_overridden _ _ _ _ RetUndefined).
  - reflexivity.
  - intros st1. now apply finally_block_demo.
Qed.

Lemma startAnalysis_returns_undefined_in_demo_world :
  isDemoMode Sample.demo_world = true
  /\ fst (startAnalysis Sample.demo_world Sample.url Sample.fresh)
     = Normal RetUndefined.
Proof.
  split; [reflexivity |].
  apply (startAnalysis_returns_undefined_in_demo_mode Sample.demo_world
           Sample.url Sample.fresh).
  reflexivity.
Defined.

(** ** The trace of a run *)

Lemma extends_refl st : extends st st.
Proof. exists []. now rewrite app_nil_r. Qed.

Lemma extends_trans st1 st2 st3 :
  extends st1 st2 -> extends st2 st3 -> extends st1 st3.
Proof.
  intros [evs1 H1] [evs2 H2]. exists (evs1 ++ evs2).
  now rewrite H2, H1, app_assoc.
Qed.

Lemma extends_emit st0 e st : extends st0 st -> extends st0 (after_emit e st).
Proof. intros H. eapply extends_trans; [exact H |]. now exists [e]. Qed.

Lemma extends_update st0 w id status data st :
  extends st0 st -> extends st0 (after_update w id status data st).
Proof.
  intros H. eapply extends_trans; [exact H |]. now exists [EvUpdate id status].
Qed.

Lemma extends_now st0 st : extends st0 st -> extends st0 (after_now st).
Proof.
  intros H. eapply extends_trans; [exact H |].
  exists []. cbn. now rewrite app_nil_r.
Qed.

Lemma extends_check st0 r st : extends st0 st -> extends st0 (after_check r st).
Proof. destruct r; [trivial | apply extends_emit]. Qed.

Lemma extends_frame st st' : fanout_frame st st' -> extends st st'.
Proof. intros (_ & _ & _ & evs & H & _). now exists evs. Qed.

Create HintDb trace.
#[local] Hint Resolve extends_refl extends_emit extends_update extends_now
  extends_check : trace.

(** The real branch either returns the success result of this job or
    throws; it only adds to the trace. *)
Lemma real_branch_outcome w url id startTime st :
  exists c st1,
    real_branch w url id startTime st = (c, st1)
    /\ extends st st1
    /\ ((exists fr, c = Normal (RetSuccess id fr))
        \/ exists message, c = Throw message).
Proof.
  destruct (processVideo w url id) as [sp ap | error] eqn:Hv.
  2: { eexists _, _. split; [apply real_branch_video_fails; exact Hv |].
       split; [auto with trace | right; now eexists]. }
  destruct (processAudio w ap id) as [wav oi wi | error] eqn:Ha.
  2: { eexists _, _.
       split; [eapply real_branch_audio_fails; eassumption |].
       split; [unfold before_audio; auto with trace | right; now eexists]. }
  destruct (transcribeAudio w wav id) as [tr | error details] eqn:Ht.
  2: { eexists _, _.
       split; [eapply real_branch_transcribe_fails; eassumption |].
       split; [unfold before_transcribe, before_audio; auto 7 with trace
              | right; now eexists]. }
  destruct (fanout_total w tr (before_detect w url id sp ap wav st))
    as (r & st1 & Hfan & Hframe).
  eexists _, _. split; [eapply real_branch_completes; eassumption |].
  split; [| left; now eexists].
  apply extends_update, extends_now, extends_now, extends_check.
  eapply extends_trans; [| apply extends_frame; exact Hframe].
  unfold before_detect, before_transcribe, before_audio. auto 8 with trace.
Qed.

(** So does the simulation branch. *)
Lemma demo_branch_outcome w url id startTime st :
  exists c st1,
    demo_branch w url id startTime st = (c, st1) /\ extends st st1.
Proof.
  unfold demo_branch, simulateAnalysis.
  destruct (demo_fs_error w) as [message |]; eexists _, _;
    (split; [reflexivity | cbn [snd]; auto 8 with trace]).
Qed.

(** A run with a free identifier starts with the two writes and only
    adds to the trace afterwards; a run with a taken identifier writes
    [failed] and calls no stage. *)
Lemma startAnalysis_trace w url st :
  match st_db st !! uuidv4 w with
  | None => extends (after_writes w url st) (snd (startAnalysis w url st))
  | Some _ =>
      st_trace (snd (startAnalysis w url st))
      = st_trace st
        ++ EvUpdate (uuidv4 w) "failed"
           :: (if isDemoMode w then [] else [EvWarn "Error during cleanup:"])
  end.
Proof.
  unfold startAnalysis. cbv zeta.
  rewrite (bind_normal (now w) _ st (Date_now w (st_clock st)) (after_now st)
             eq_refl).
  unfold try_catch_finally, try_catch.
  destruct (st_db st !! uuidv4 w) as [row |] eqn:Hid.
  - rewrite (try_block_taken w url st _ row Hid). rewrite catch_block_run.
    unfold finally_block, try_catch. destruct (isDemoMode w); cbn.
    + reflexivity.
    + now rewrite <- app_assoc.
  - rewrite (try_block_fresh w url st _ Hid).
    assert (Hbranch : exists c st1,
               (if isDemoMode w
                then demo_branch w url (uuidv4 w) (Date_now w (st_clock st))
                else real_branch w url (uuidv4 w) (Date_now w (st_clock st)))
                 (after_writes w url st) = (c, st1)
               /\ extends (after_writes w url st) st1).
    { destruct (isDemoMode w).
      - apply demo_branch_outcome.
      - destruct (real_branch_outcome w url (uuidv4 w)
                    (Date_now w (st_clock st)) (after_writes w url st))
          as (c & st1 & H & He & _).
        now exists c, st1. }
    destruct Hbranch as (c & st1 & Hrun & Hext). rewrite Hrun.
    unfold finally_block, try_catch.
    destruct c as [r | message]; [| rewrite catch_block_run];
      destruct (isDemoMode w); cbn [fst snd ret throw bind emit];
      auto 6 with trace.
Qed.

(** In real mode a call returns a success or a failure result. *)
Lemma startAnalysis_real_mode_result w url st :
  isDemoMode w = false ->
  (exists fr, fst (startAnalysis w url st) = Normal (RetSuccess (uuidv4 w) fr))
  \/ exists message elapsed,
       fst (startAnalysis w url st)
       = Normal (RetFailure (uuidv4 w) message elapsed).
Proof.
  intros Hreal.
  destruct (st_db st !! uuidv4 w) as [row |] eqn:Hid.
  - right. eexists _, _.
    now rewrite (real_run_throwing w url st _ _ Hreal
                   (try_block_taken w url st _ row Hid)).
  - destruct (real_branch_outcome w url (uuidv4 w) (Date_now w (st_clock st))
                (after_writes w url st))
      as (c & st1 & Hrun & _ & [[fr ->] | [message ->]]).
    + left. exists fr.
      rewrite (real_run_returning w url st (RetSuccess (uuidv4 w) fr) st1
                 Hreal); [reflexivity |].
      now rewrite (try_block_fresh w url st _ Hid), Hreal.
    + right. eexists _, _.
      rewrite (real_run_throwing w url st message st1 Hreal); [reflexivity |].
      now rewrite (try_block_fresh w url st _ Hid), Hreal.
Qed.

(** ** C9 *)

Lemma keeps_record_refl id st : keeps_record id st st.
Proof. intros H. exact H. Qed.

Lemma keeps_record_trans id st1 st2 st3 :
  keeps_record id st1 st2 -> keeps_record id st2 st3 ->
  keeps_record id st1 st3.
Proof. intros H1 H2 H. exact (H2 (H1 H)). Qed.

Lemma keeps_record_emit id st0 e st :
  keeps_record id st0 st -> keeps_record id st0 (after_emit e st).
Proof. intros H Hs. exact (H Hs). Qed.

Lemma keeps_record_now id st0 st :
  keeps_record id st0 st -> keeps_record id st0 (after_now st).
Proof. intros H Hs. exact (H Hs). Qed.

Lemma keeps_record_update id st0 w id' status data st :
  keeps_record id st0 st ->
  keeps_record id st0 (after_update w id' status data st).
Proof.
  intros H Hs. specialize (H Hs). cbn [st_db after_update].
  destruct (decide (id' = id)) as [-> | Hne].
  - rewrite lookup_alter_eq. destruct H as [row ->]. now eexists.
  - now rewrite lookup_alter_ne.
Qed.

Lemma keeps_record_check id st0 r st :
  keeps_record id st0 st -> keeps_record id st0 (after_check r st).
Proof. destruct r; [trivial | apply keeps_record_emit]. Qed.

Lemma keeps_record_frame id st st' :
  fanout_frame st st' -> keeps_record id st st'.
Proof. intros (Hdb & _) H. now rewrite Hdb. Qed.

Create HintDb record.
#[local] Hint Resolve keeps_record_refl keeps_record_emit keeps_record_now
  keeps_record_update keeps_record_check : record.

Lemma real_branch_keeps_record w url id startTime st :
  keeps_record id st (snd (real_branch w url id startTime st)).
Proof.
  destruct (processVideo w url id) as [sp ap | error] eqn:Hv.
  2: { rewrite (real_branch_video_fails w url id startTime st error Hv).
       cbn [snd]. auto with record. }
  destruct (processAudio w ap id) as [wav oi wi | error] eqn:Ha.
  2: { rewrite (real_branch_audio_fails w url id startTime st sp ap error
                  Hv Ha).
       cbn [snd]. unfold before_audio. auto with record. }
  destruct (transcribeAudio w wav id) as [tr | error details] eqn:Ht.
  2: { rewrite (real_branch_transcribe_fails w url id startTime st sp ap wav
                  oi wi error details Hv Ha Ht).
       cbn [snd]. unfold before_transcribe, before_audio.
       auto 7 with record. }
  destruct (fanout_total w tr (before_detect w url id sp ap wav st))
    as (r & st1 & Hfan & Hframe).
  rewrite (real_branch_completes w url id startTime st sp ap wav oi wi tr r
             st1 Hv Ha Ht Hfan).
  cbn [snd]. apply keeps_record_update, keeps_record_now, keeps_record_now,
    keeps_record_check.
  eapply keeps_record_trans; [| apply keeps_record_frame; exact Hframe].
  unfold before_detect, before_transcribe, before_audio. auto 8 with record.
Qed.

Lemma demo_branch_keeps_record w url id startTime st :
  keeps_record id st (snd (demo_branch w url id startTime st)).
Proof.
  unfold demo_branch, simulateAnalysis.
  destruct (demo_fs_error w) as [message |];
    unfold bind, emit, ret, throw, now, updateStatus; cbn [snd];
    auto 8 with record.
Qed.

Lemma finally_block_keeps_record w id st0 st :
  keeps_record id st0 st -> keeps_record id st0 (snd (finally_block w st)).
Proof.
  intros H. unfold finally_block, try_catch.
  destruct (isDemoMode w); cbn; auto with record.
Qed.

(** A run that starts with a free identifier ends with a record of it. *)
Lemma run_keeps_its_record w url st :
  st_db st !! uuidv4 w = None ->
  keeps_record (uuidv4 w) (after_writes w url st)
    (snd (startAnalysis w url st)).
Proof.
  intros Hid. unfold startAnalysis. cbv zeta.
  rewrite (bind_normal (now w) _ st (Date_now w (st_clock st)) (after_now st)
             eq_refl).
  rewrite try_catch_finally_state. apply finally_block_keeps_record.
  unfold try_catch. rewrite (try_block_fresh w url st _ Hid).
  assert (Hbranch :
            keeps_record (uuidv4 w) (after_writes w url st)
              (snd ((if isDemoMode w
                     then demo_branch w url (uuidv4 w)
                            (Date_now w (st_clock st))
                     else real_branch w url (uuidv4 w)
                            (Date_now w (st_clock st)))
                      (after_writes w url st)))).
  { destruct (isDemoMode w);
      [apply demo_branch_keeps_record | apply real_branch_keeps_record]. }
  destruct ((if isDemoMode w
             then demo_branch w url (uuidv4 w) (Date_now w (st_clock st))
             else real_branch w url (uuidv4 w) (Date_now w (st_clock st)))
              (after_writes w url st)) as [[r | message] st1].
  - exact Hbranch.
  - rewrite catch_block_run. cbn [snd] in *. auto with record.
Qed.



(** ** Reading a record *)

Lemma getAnalysisResult_missing w id st :
  st_db st !! id = None ->
  getAnalysisResult w id st = (Normal (GetFail "Analysis not found"), st).
Proof.
  intros H. unfold getAnalysisResult. apply try_catch_normal.
  unfold bind, getAnalysisById. now rewrite H.
Qed.

(** The parsing of the two columns always completes. *)
Lemma parse_json_fields_total w row st :
  exists parsed st', parse_json_fields w row st = (Normal parsed, st').
Proof.
  unfold parse_json_fields.
  destruct (parse_column w (row_transcription row) JNull);
    [destruct (parse_column w (row_ai_probabilities row) JNull) |];
    eexists _, _; reflexivity.
Qed.

(** A record that exists is read with success, whatever its status. *)
Lemma getAnalysisResult_found w id st row :
  st_db st !! id = Some row ->
  exists transcription aiProbabilities st',
    getAnalysisResult w id st
    = (Normal
         (GetOk
            {| rv_id := row_id row;
               rv_youtube_url := row_youtube_url row;
               rv_status := row_status row;
               rv_screenshot_path := row_screenshot_path row;
               rv_audio_path := row_audio_path row;
               rv_transcription := transcription;
               rv_ai_probabilities := aiProbabilities;
               rv_error_message := row_error_message row;
               rv_processing_time := row_processing_time row;
               rv_created_at := row_created_at row;
               rv_updated_at := row_updated_at row |}), st')
    /\ parse_json_fields w row st
       = (Normal (transcription, aiProbabilities), st').
Proof.
  intros H.
  destruct (parse_json_fields_total w row st) as ([t a] & st' & Hparse).
  exists t, a, st'. split; [| exact Hparse].
  unfold getAnalysisResult. apply try_catch_normal.
  unfold bind at 1. unfold getAnalysisById. rewrite H.
  now rewrite (bind_normal _ _ _ _ _ Hparse).
Qed.

(** ** C8 *)

(** C8.  Reading an identifier that has no record yields the failure
    "Analysis not found", and the route answers 404 with the not-found
    body (400 when the identifier is not a UUID).  No record that exists,
    failed or not, is ever read that way: the read succeeds, and the route
    answers 200, for a failed record with the failed view. *)
Theorem missing_record_reads_as_not_found w id st :
  st_db st !! id = None ->
  getAnalysisResult w id st = (Normal (GetFail "Analysis not found"), st)
  /\ Route.get_result w id st
     = (Normal
          (if Route.uuidPattern_test id
           then {| Route.http_status := 404;
                   Route.http_body := Route.BodyNotFound |}
           else {| Route.http_status := 400;
                   Route.http_body := Route.BodyInvalidId |}), st)
  /\ forall w' id' st' row,
       st_db st' !! id' = Some row ->
       (exists view,
          fst (getAnalysisResult w' id' st') = Normal (GetOk view)
          /\ rv_status view = row_status row)
       /\ (exists response,
             fst (Route.get_result w' id' st') = Normal response
             /\ Route.http_status response <> 404%nat
             /\ Route.http_body response <> Route.BodyNotFound)
       /\ (row_status row = "failed" ->
           Route.uuidPattern_test id' = true ->
           fst (Route.get_result w' id' st')
           = Normal
               {| Route.http_status := 200;
                  Route.http_body :=
                    Route.BodyFailed id' "failed" (row_error_message row)
                      (row_processing_time row) (row_created_at row)
                      (row_updated_at row) |}).
Proof.
  intros Hmissing.
  pose proof (getAnalysisResult_missing w id st Hmissing) as Hread.
  split; [exact Hread |]. split.
  - unfold Route.get_result. destruct (Route.uuidPattern_test id);
      [| reflexivity].
    cbn [negb]. now rewrite (bind_normal _ _ _ _ _ Hread).
  - intros w' id' st' row Hrow.
    destruct (getAnalysisResult_found w' id' st' row Hrow)
      as (t & a & st'' & Hfound & _).
    split; [| split].
    + eexists. rewrite Hfound. split; reflexivity.
    + unfold Route.get_result. destruct (Route.uuidPattern_test id').
      * cbn [negb]. rewrite (bind_normal _ _ _ _ _ Hfound).
        cbn [rv_status].
        destruct ((row_status row =? "pending")
                  || (row_status row =? "processing"));
          [| destruct (row_status row =? "failed")];
          eexists; (split; [reflexivity | split; discriminate]).
      * eexists. split; [reflexivity | split; discriminate].
    + intros Hfailed Hvalid. unfold Route.get_result. rewrite Hvalid.
      cbn [negb]. rewrite (bind_normal _ _ _ _ _ Hfound).
      cbn [rv_status rv_error_message rv_processing_time rv_created_at
             rv_updated_at]. now rewrite Hfailed.
Qed.

Lemma missing_record_reads_as_not_found_in_fresh_store :
  st_db Sample.fresh !! Sample.job = None
  /\ getAnalysisResult Sample.demo_world Sample.job Sample.fresh
  = (Normal (GetFail "Analysis not found"), Sample.fresh)
  /\ Route.get_result Sample.demo_world Sample.job Sample.fresh
     = (Normal
          (if Route.uuidPattern_test Sample.job
           then {| Route.http_status := 404;
                   Route.http_body := Route.BodyNotFound |}
           else {| Route.http_status := 400;
                   Route.http_body := Route.BodyInvalidId |}), Sample.fresh)
  /\ forall w' id' st' row,
       st_db st' !! id' = Some row ->
       (exists view,
          fst (getAnalysisResult w' id' st') = Normal (GetOk view)
          /\ rv_status view = row_status row)
       /\ (exists response,
             fst (Route.get_result w' id' st') = Normal response
             /\ Route.http_status response <> 404%nat
             /\ Route.http_body response <> Route.BodyNotFound)
       /\ (row_status row = "failed" ->
           Route.uuidPattern_test id' = true ->
           fst (Route.get_result w' id' st')
           = Normal
               {| Route.http_status := 200;
                  Route.http_body :=
                    Route.BodyFailed id' "failed" (row_error_message row)
                      (row_processing_time row) (row_created_at row)
                      (row_updated_at row) |}).
Proof.
  split; [reflexivity |].
  apply (missing_record_reads_as_not_found Sample.demo_world Sample.job
           Sample.fresh).
  reflexivity.
Defined.

(** ** C10 *)

(** C10.  When the stored transcription of a record is a text that
    [JSON.parse] rejects, the read still succeeds and both the
    [transcription] and the [ai_probabilities] of the view are [null],
    whatever the stored detection payload is. *)
Theorem unparsable_transcription_nulls_both_fields w id st row text :
  st_db st !! id = Some row ->
  row_transcription row = Some text ->
  text <> "" ->
  JSON_parse w text = None ->
  exists view st',
    getAnalysisResult w id st = (Normal (GetOk view), st')
    /\ rv_transcription view = JNull
    /\ rv_ai_probabilities view = JNull
    /\ rv_status view = row_status row.
Proof.
  intros Hrow Htext Hne Hparse.
  destruct (getAnalysisResult_found w id st row Hrow)
    as (t & a & st' & Hfound & Hfields).
  eexists _, st'. split; [exact Hfound |]. cbn.
  unfold parse_json_fields, parse_column in Hfields.
  rewrite Htext in Hfields. cbn [Js.truthy_str] in Hfields.
  apply String.eqb_neq in Hne. rewrite Hne, Hparse in Hfields.
  cbn in Hfields. inversion Hfields. repeat split.
Qed.

Lemma unparsable_transcription_nulls_both_fields_of_garbled_row :
  (st_db Sample.garbled !! Sample.job = Some Sample.garbled_row
   /\ row_transcription Sample.garbled_row = Some "{not json"
   /\ JSON_parse Sample.demo_world "{not json" = None
   /\ row_ai_probabilities Sample.garbled_row = Some "{}"
   /\ JSON_parse Sample.demo_world "{}" = Some (JObj []))
  /\ exists view st',
    getAnalysisResult Sample.demo_world Sample.job Sample.garbled
    = (Normal (GetOk view), st')
    /\ rv_transcription view = JNull
    /\ rv_ai_probabilities view = JNull
    /\ rv_status view = row_status Sample.garbled_row.
Proof.
  split; [repeat split |].
  apply (unparsable_transcription_nulls_both_fields Sample.demo_world
           Sample.job Sample.garbled Sample.garbled_row "{not json");
    try reflexivity.
  discriminate.
Defined.

(** * Further properties *)

(** ** A run and the other records *)

Lemma keeps_refl id st : keeps_others id st st.
Proof. intros id' _. reflexivity. Qed.

Lemma keeps_trans id st1 st2 st3 :
  keeps_others id st1 st2 -> keeps_others id st2 st3 ->
  keeps_others id st1 st3.
Proof. intros H1 H2 id' Hne. now rewrite (H2 id' Hne), (H1 id' Hne). Qed.

Lemma keeps_emit id st0 e st :
  keeps_others id st0 st -> keeps_others id st0 (after_emit e st).
Proof. intros H id' Hne. exact (H id' Hne). Qed.

Lemma keeps_now id st0 st :
  keeps_others id st0 st -> keeps_others id st0 (after_now st).
Proof. intros H id' Hne. exact (H id' Hne). Qed.

Lemma keeps_update id st0 w status data st :
  keeps_others id st0 st ->
  keeps_others id st0 (after_update w id status data st).
Proof.
  intros H id' Hne. cbn [st_db after_update].
  rewrite lookup_alter_ne by congruence. exact (H id' Hne).
Qed.

Lemma keeps_insert id st0 w url st :
  keeps_others id st0 st -> keeps_others id st0 (after_insert w id url st).
Proof.
  intros H id' Hne. cbn [st_db after_insert].
  rewrite lookup_insert_ne by congruence. exact (H id' Hne).
Qed.

Lemma keeps_check id st0 r st :
  keeps_others id st0 st -> keeps_others id st0 (after_check r st).
Proof. destruct r; [trivial | apply keeps_emit]. Qed.

Lemma keeps_frame id st st' : fanout_frame st st' -> keeps_others id st st'.
Proof. intros (Hdb & _) id' _. now rewrite Hdb. Qed.

Create HintDb store.
#[local] Hint Resolve keeps_refl keeps_emit keeps_now keeps_update
  keeps_insert keeps_check : store.

Lemma real_branch_keeps_others w url id startTime st :
  keeps_others id st (snd (real_branch w url id startTime st)).
Proof.
  destruct (processVideo w url id) as [sp ap | error] eqn:Hv.
  2: { rewrite (real_branch_video_fails w url id startTime st error Hv).
       cbn [snd]. auto with store. }
  destruct (processAudio w ap id) as [wav oi wi | error] eqn:Ha.
  2: { rewrite (real_branch_audio_fails w url id startTime st sp ap error
                  Hv Ha).
       cbn [snd]. unfold before_audio. auto with store. }
  destruct (transcribeAudio w wav id) as [tr | error details] eqn:Ht.
  2: { rewrite (real_branch_transcribe_fails w url id startTime st sp ap wav
                  oi wi error details Hv Ha Ht).
       cbn [snd]. unfold before_transcribe, before_audio.
       auto 7 with store. }
  destruct (fanout_total w tr (before_detect w url id sp ap wav st))
    as (r & st1 & Hfan & Hframe).
  rewrite (real_branch_completes w url id startTime st sp ap wav oi wi tr r
             st1 Hv Ha Ht Hfan).
  cbn [snd]. apply keeps_update, keeps_now, keeps_now, keeps_check.
  eapply keeps_trans; [| apply keeps_frame; exact Hframe].
  unfold before_detect, before_transcribe, before_audio. auto 8 with store.
Qed.

Lemma demo_branch_keeps_others w url id startTime st :
  keeps_others id st (snd (demo_branch w url id startTime st)).
Proof.
  unfold demo_branch, simulateAnalysis.
  destruct (demo_fs_error w) as [message |];
    unfold bind, emit, ret, throw, now, updateStatus; cbn [snd];
    auto 8 with store.
Qed.

Lemma finally_block_keeps_others w id st0 st :
  keeps_others id st0 st -> keeps_others id st0 (snd (finally_block w st)).
Proof.
  intros H. unfold finally_block, try_catch.
  destruct (isDemoMode w); cbn; auto with store.
Qed.

(** X1.  A run reads and writes the record of its own identifier only:
    every other record of the store is the same after the run as
    before, whatever the stages do. *)
Theorem run_leaves_other_records_alone w url st id' :
  id' <> uuidv4 w ->
  st_db (snd (startAnalysis w url st)) !! id' = st_db st !! id'.
Proof.
  intros Hne. revert id' Hne.
  change (keeps_others (uuidv4 w) st (snd (startAnalysis w url st))).
  unfold startAnalysis. cbv zeta.
  rewrite (bind_normal (now w) _ st (Date_now w (st_clock st)) (after_now st)
             eq_refl).
  rewrite try_catch_finally_state. apply finally_block_keeps_others.
  unfold try_catch.
  destruct (st_db st !! uuidv4 w) as [row |] eqn:Hid.
  - rewrite (try_block_taken w url st _ row Hid), catch_block_run.
    cbn [snd]. auto with store.
  - rewrite (try_block_fresh w url st _ Hid).
    assert (Hbranch :
              keeps_others (uuidv4 w) st
                (snd ((if isDemoMode w
                       then demo_branch w url (uuidv4 w)
                              (Date_now w (st_clock st))
                       else real_branch w url (uuidv4 w)
                              (Date_now w (st_clock st)))
                        (after_writes w url st)))).
    { eapply keeps_trans with (st2 := after_writes w url st).
      - unfold after_writes. auto with store.
      - destruct (isDemoMode w);
          [apply demo_branch_keeps_others | apply real_branch_keeps_others]. }
    destruct ((if isDemoMode w
               then demo_branch w url (uuidv4 w) (Date_now w (st_clock st))
               else real_branch w url (uuidv4 w) (Date_now w (st_clock st)))
                (after_writes w url st)) as [[r | message] st1].
    + exact Hbranch.
    + rewrite catch_block_run. cbn [snd] in *. auto with store.
Qed.

Lemma run_leaves_other_records_alone_in_taken_store :
  Sample.job <> uuidv4 Fixture.second_world
  /\ st_db (snd (startAnalysis Fixture.second_world Sample.url Fixture.taken))
     !! Sample.job
     = st_db Fixture.taken !! Sample.job.
Proof.
  split; [discriminate |].
  apply (run_leaves_other_records_alone Fixture.second_world Sample.url
           Fixture.taken Sample.job).
  discriminate.
Defined.

(** ** The runs, event by event *)

(** X2.  A real-mode run with a free identifier whose three adapters
    succeed on a transcript with a segments array does its work in this
    order: insert as [pending], [processing], the capture,
    [video_processed], the transcoder on the downloaded audio,
    [audio_converted], the transcription of the WAV file, [transcribed],
    then only requests to the detector and pauses, then [completed] and
    the cleanup warning.  Each stage is called after the status write of
    the stage before it. *)
Theorem completed_run_goes_through_the_stages_in_order
    w url st sp ap wav oi wi tr :
  isDemoMode w = false ->
  st_db st !! uuidv4 w = None ->
  processVideo w url (uuidv4 w) = VideoOk sp ap ->
  processAudio w ap (uuidv4 w) = AudioOk wav oi wi ->
  transcribeAudio w wav (uuidv4 w) = TranscribeOk tr ->
  has_segments_array tr = true ->
  exists detection,
    st_trace (snd (startAnalysis w url st))
    = st_trace st
      ++ [ EvInsert (uuidv4 w) url "pending";
           EvUpdate (uuidv4 w) "processing";
           EvProcessVideo url (uuidv4 w);
           EvUpdate (uuidv4 w) "video_processed";
           EvProcessAudio ap (uuidv4 w);
           EvUpdate (uuidv4 w) "audio_converted";
           EvTranscribe wav (uuidv4 w);
           EvUpdate (uuidv4 w) "transcribed" ]
      ++ detection
      ++ [ EvUpdate (uuidv4 w) "completed"; EvWarn "Error during cleanup:" ]
    /\ forallb is_fanout_event detection = true.
Proof.
  intros Hreal Hfresh Hv Ha Ht Harray.
  destruct (real_run_completes w url st sp ap wav oi wi tr
              Hreal Hfresh Hv Ha Ht)
    as (r & st1 & st_end & row & Hfan & Hstart & Htrace & _).
  unfold has_segments_array in Harray.
  destruct (tr_segments tr) as [| | segments] eqn:Hsegs; try discriminate.
  destruct (fanout_spec w tr segments
              (before_detect w url (uuidv4 w) sp ap wav (after_writes w url st))
              Hsegs) as (st2 & Hrun & _ & _ & _ & evs & Hevs & Hall).
  rewrite Hrun in Hfan. inversion Hfan; subst r st2; clear Hfan.
  exists evs. rewrite Hstart. cbn [snd]. split.
  - rewrite Htrace. cbn [after_check]. rewrite Hevs.
    unfold before_detect, before_transcribe, before_audio, after_writes.
    cbn [st_trace after_emit after_update after_now after_insert].
    rewrite <- !app_assoc. reflexivity.
  - apply forallb_forall. intros e He.
    rewrite Forall_forall in Hall. apply Hall.
    now apply list_elem_of_In.
Qed.

Lemma completed_run_goes_through_the_stages_at_five_segments :
  (isDemoMode Fixture.codec_world = false
   /\ st_db Sample.fresh !! uuidv4 Fixture.codec_world = None
   /\ has_segments_array
        (Sample.transcript (SegmentsArray Sample.five_segments)) = true)
  /\ exists detection,
       st_trace (snd (startAnalysis Fixture.codec_world Sample.url
                        Sample.fresh))
       = st_trace Sample.fresh
         ++ [ EvInsert Sample.job Sample.url "pending";
              EvUpdate Sample.job "processing";
              EvProcessVideo Sample.url Sample.job;
              EvUpdate Sample.job "video_processed";
              EvProcessAudio "audio/raw.webm" Sample.job;
              EvUpdate Sample.job "audio_converted";
              EvTranscribe "audio/wav/a.wav" Sample.job;
              EvUpdate Sample.job "transcribed" ]
         ++ detection
         ++ [ EvUpdate Sample.job "completed";
              EvWarn "Error during cleanup:" ]
       /\ forallb is_fanout_event detection = true.
Proof.
  split; [repeat split |].
  apply (completed_run_goes_through_the_stages_in_order Fixture.codec_world
           Sample.url Sample.fresh "screenshots/shot.png" "audio/raw.webm"
           "audio/wav/a.wav" "webm" "wav"
           (Sample.transcript (SegmentsArray Sample.five_segments)));
    reflexivity.
Defined.

(** The state a simulated run ends in. *)
Lemma demo_run_state w url st :
  isDemoMode w = true ->
  st_db st !! uuidv4 w = None ->
  demo_fs_error w = None ->
  startAnalysis w url st
  = (Normal RetUndefined,
     after_now
       (after_update w (uuidv4 w) "completed"
          {| screenshotPath :=
               Some ("screenshots/demo_" +:+ uuidv4 w +:+ ".png");
             audioPath := Some ("data/audio/demo_" +:+ uuidv4 w +:+ ".wav");
             transcription :=
               Some (JSON_stringify w (PayloadTranscription demo_transcription));
             aiProbabilities := Some (JSON_stringify w demo_aiDetection);
             errorMessage := None;
             processingTime :=
               Some (Date_now w (S (st_clock st)) - Date_now w (st_clock st))%Z
          |}
          (after_now
             (after_emit (EvSimulate url (uuidv4 w))
                (after_emit (EvDelay 2000) (after_writes w url st)))))).
Proof.
  intros Hdemo Hfresh Hfs. unfold startAnalysis. cbv zeta.
  rewrite (bind_normal (now w) _ st (Date_now w (st_clock st)) (after_now st)
             eq_refl).
  rewrite (try_catch_finally_overridden _ _ _ _ RetUndefined)
    by (intros st1; now apply finally_block_demo).
  f_equal. unfold try_catch.
  rewrite (try_block_fresh w url st _ Hfresh), Hdemo.
  unfold demo_branch, simulateAnalysis. rewrite Hfs. reflexivity.
Qed.

(** X3.  In demo mode, with a free identifier and a file system that
    takes the two placeholder files, a run calls no real stage: it creates
    the record, writes [processing], waits two seconds, simulates, and
    writes [completed].  The record ends completed with the two
    placeholder paths built from the identifier and no error message. *)
Theorem demo_run_calls_no_real_stage w url st :
  isDemoMode w = true ->
  st_db st !! uuidv4 w = None ->
  demo_fs_error w = None ->
  exists st_end row,
    startAnalysis w url st = (Normal RetUndefined, st_end)
    /\ st_trace st_end
       = st_trace st
         ++ [ EvInsert (uuidv4 w) url "pending";
              EvUpdate (uuidv4 w) "processing";
              EvDelay 2000;
              EvSimulate url (uuidv4 w);
              EvUpdate (uuidv4 w) "completed" ]
    /\ st_db st_end !! uuidv4 w = Some row
    /\ row_status row = "completed"
    /\ row_youtube_url row = url
    /\ row_screenshot_path row
       = Some ("screenshots/demo_" +:+ uuidv4 w +:+ ".png")
    /\ row_audio_path row
       = Some ("data/audio/demo_" +:+ uuidv4 w +:+ ".wav")
    /\ row_error_message row = None.
Proof.
  intros Hdemo Hfresh Hfs.
  rewrite (demo_run_state w url st Hdemo Hfresh Hfs).
  eexists _, _. split; [reflexivity |]. split.
  - unfold after_writes.
    cbn [st_trace after_emit after_update after_now after_insert].
    rewrite <- !app_assoc. reflexivity.
  - split.
    + cbn [st_db after_now]. apply lookup_after_update.
      cbn [st_db after_now after_emit]. unfold after_writes.
      apply lookup_after_update. cbn [st_db after_insert after_now].
      apply lookup_insert_eq.
    + repeat split.
Qed.

Lemma demo_run_calls_no_real_stage_in_demo_world :
  (isDemoMode Sample.demo_world = true
   /\ st_db Sample.fresh !! uuidv4 Sample.demo_world = None
   /\ demo_fs_error Sample.demo_world = None)
  /\ exists st_end row,
       startAnalysis Sample.demo_world Sample.url Sample.fresh
       = (Normal RetUndefined, st_end)
       /\ st_trace st_end
          = st_trace Sample.fresh
            ++ [ EvInsert Sample.job Sample.url "pending";
                 EvUpdate Sample.job "processing";
                 EvDelay 2000;
                 EvSimulate Sample.url Sample.job;
                 EvUpdate Sample.job "completed" ]
       /\ st_db st_end !! Sample.job = Some row
       /\ row_status row = "completed"
       /\ row_youtube_url row = Sample.url
       /\ row_screenshot_path row
          = Some ("screenshots/demo_" +:+ Sample.job +:+ ".png")
       /\ row_audio_path row
          = Some ("data/audio/demo_" +:+ Sample.job +:+ ".wav")
       /\ row_error_message row = None.
Proof.
  split; [repeat split |].
  apply (demo_run_calls_no_real_stage Sample.demo_world Sample.url
           Sample.fresh); reflexivity.
Defined.

(** X4.  When the identifier handed out is already that of a record, the
    insert fails, no stage is called, and the [catch] block writes its
    failure to the record that was there: it ends with status [failed] and
    the constraint error as its message, its other columns kept. *)
Theorem taken_identifier_fails_the_record_in_place w url st row :
  st_db st !! uuidv4 w = Some row ->
  exists row',
    st_db (snd (startAnalysis w url st)) !! uuidv4 w = Some row'
    /\ row_status row' = "failed"
    /\ row_error_message row' = Some constraint_error
    /\ row_youtube_url row' = row_youtube_url row
    /\ row_created_at row' = row_created_at row
    /\ row_screenshot_path row' = row_screenshot_path row
    /\ row_audio_path row' = row_audio_path row
    /\ row_transcription row' = row_transcription row
    /\ row_ai_probabilities row' = row_ai_probabilities row
    /\ st_trace (snd (startAnalysis w url st))
       = st_trace st
         ++ EvUpdate (uuidv4 w) "failed"
            :: (if isDemoMode w then [] else [EvWarn "Error during cleanup:"]).
Proof.
  intros Htaken.
  pose proof (startAnalysis_trace w url st) as Htrace.
  rewrite Htaken in Htrace.
  unfold startAnalysis in *. cbv zeta in *.
  rewrite (bind_normal (now w) _ st (Date_now w (st_clock st)) (after_now st)
             eq_refl) in *.
  rewrite try_catch_finally_state in *. unfold try_catch in *.
  rewrite (try_block_taken w url st _ row Htaken) in *.
  rewrite catch_block_run in *. cbn [snd] in *.
  eexists. split.
  - unfold finally_block, try_catch.
    destruct (isDemoMode w); cbn [snd bind emit ret throw st_db after_emit];
      apply lookup_after_update; exact Htaken.
  - repeat split; try reflexivity. exact Htrace.
Qed.

Lemma taken_identifier_fails_the_record_in_taken_store :
  st_db Fixture.taken !! uuidv4 Fixture.codec_world = Some Fixture.taken_row
  /\ exists row',
       st_db (snd (startAnalysis Fixture.codec_world Sample.url Fixture.taken))
       !! uuidv4 Fixture.codec_world = Some row'
       /\ row_status row' = "failed"
       /\ row_error_message row' = Some constraint_error
       /\ row_youtube_url row' = row_youtube_url Fixture.taken_row
       /\ row_created_at row' = row_created_at Fixture.taken_row
       /\ row_screenshot_path row' = row_screenshot_path Fixture.taken_row
       /\ row_audio_path row' = row_audio_path Fixture.taken_row
       /\ row_transcription row' = row_transcription Fixture.taken_row
       /\ row_ai_probabilities row' = row_ai_probabilities Fixture.taken_row
       /\ st_trace (snd (startAnalysis Fixture.codec_world Sample.url
                           Fixture.taken))
          = st_trace Fixture.taken
            ++ EvUpdate (uuidv4 Fixture.codec_world) "failed"
               :: (if isDemoMode Fixture.codec_world then []
                   else [EvWarn "Error during cleanup:"]).
Proof.
  split; [reflexivity |].
  apply (taken_identifier_fails_the_record_in_place Fixture.codec_world
           Sample.url Fixture.taken Fixture.taken_row).
  reflexivity.
Defined.

(** ** What the fan-out sends and returns *)

Lemma detect_texts_app evs1 evs2 :
  detect_texts (evs1 ++ evs2) = detect_texts evs1 ++ detect_texts evs2.
Proof.
  induction evs1 as [| e rest IH]; [reflexivity |].
  destruct e; cbn [app detect_texts]; now rewrite IH.
Qed.

(** The text one segment makes the loop send, if any. *)
Lemma requested_texts_cons segment rest :
  requested_texts (segment :: rest)
  = requested_texts [segment] ++ requested_texts rest.
Proof.
  cbn [requested_texts]. destruct (seg_text segment) as [| s |];
    try reflexivity.
  now destruct (has_text s).
Qed.

Lemma pause_sends_nothing total count st :
  exists st',
    (if (S count <? total)%nat then emit (EvDelay 100) else ret tt) st
    = (Normal tt, st')
    /\ detect_texts (st_trace st') = detect_texts (st_trace st)
    /\ st_requests st' = st_requests st.
Proof.
  destruct (S count <? total)%nat; eexists; (split; [reflexivity |]).
  - cbn [st_trace after_emit st_requests]. rewrite detect_texts_app.
    cbn. now rewrite app_nil_r.
  - split; reflexivity.
Qed.

Lemma process_segment_requests w total segment results count st :
  exists acc st',
    process_segment w total segment results count st = (Normal acc, st')
    /\ detect_texts (st_trace st')
       = detect_texts (st_trace st) ++ requested_texts [segment]
    /\ st_requests st'
       = (st_requests st + length (requested_texts [segment]))%nat.
Proof.
  unfold process_segment. cbn [requested_texts].
  destruct (seg_text segment) as [| s |] eqn:Htext.
  - destruct (pause_sends_nothing total count st) as (st' & Hp & Ht & Hr).
    eexists _, st'. split.
    + apply try_catch_normal. unfold bind at 1. unfold ret at 1.
      unfold bind. now rewrite Hp.
    + rewrite Ht, Hr, app_nil_r. split; [reflexivity | cbn; lia].
  - destruct (has_text s) eqn:Hs.
    + destruct (pause_sends_nothing total count
                  (after_request st (Js.trim s))) as (st' & Hp & Ht & Hr).
      eexists _, st'. split.
      * apply try_catch_normal. unfold bind, detectAIProbability, ret.
        unfold bind, ret in Hp. now rewrite Hp.
      * rewrite Ht, Hr. cbn [st_trace after_request st_requests].
        rewrite detect_texts_app. split; [reflexivity | cbn; lia].
    + destruct (pause_sends_nothing total count st) as (st' & Hp & Ht & Hr).
      eexists _, st'. split.
      * apply try_catch_normal. unfold bind at 1. unfold ret at 1.
        unfold bind. now rewrite Hp.
      * rewrite Ht, Hr, app_nil_r. split; [reflexivity | cbn; lia].
  - eexists _, st. split; [reflexivity |].
    rewrite app_nil_r. split; [reflexivity | cbn; lia].
Qed.

Lemma segment_loop_requests w total segments :
  forall results count st,
  exists acc st',
    segment_loop w total segments results count st = (Normal acc, st')
    /\ detect_texts (st_trace st')
       = detect_texts (st_trace st) ++ requested_texts segments
    /\ st_requests st'
       = (st_requests st + length (requested_texts segments))%nat.
Proof.
  induction segments as [| segment rest IH]; intros results count st.
  - eexists _, st. split; [reflexivity |].
    cbn. rewrite app_nil_r. split; [reflexivity | lia].
  - destruct (process_segment_requests w total segment results count st)
      as (acc1 & st1 & Hstep & Ht1 & Hr1).
    destruct (IH (fst acc1) (snd acc1) st1) as (acc2 & st2 & Hloop & Ht2 & Hr2).
    eexists acc2, st2. split.
    + cbn [segment_loop]. now rewrite (bind_normal _ _ _ _ _ Hstep).
    + rewrite Ht2, Hr2, Ht1, Hr1, (requested_texts_cons segment rest).
      rewrite length_app, app_assoc. split; [reflexivity | lia].
Qed.

Lemma requested_texts_not_empty segments :
  Forall (fun text => text <> "") (requested_texts segments).
Proof.
  induction segments as [| segment rest IH]; [constructor |].
  cbn [requested_texts]. destruct (seg_text segment) as [| s |]; try exact IH.
  destruct (has_text s) eqn:Hs; [| exact IH].
  constructor; [| exact IH].
  unfold has_text in Hs. apply andb_true_iff in Hs as [_ Hlen].
  intros Hempty. rewrite Hempty in Hlen. discriminate.
Qed.

(** X5.  On a transcript with a segments array the fan-out sends the
    detector one request per segment that has a text, in the order of the
    segments, each with the trimmed text of its segment; a segment
    without text, or with white space only, causes no request, and no
    request carries an empty text. *)
Theorem fanout_asks_once_per_segment_with_text w tr segments st :
  tr_segments tr = SegmentsArray segments ->
  let st' := snd (processTranscriptionSegments w tr st) in
  detect_texts (st_trace st')
  = detect_texts (st_trace st) ++ requested_texts segments
  /\ st_requests st'
     = (st_requests st + length (requested_texts segments))%nat
  /\ Forall (fun text => text <> "") (requested_texts segments).
Proof.
  intros Hsegs st'. subst st'.
  destruct (segment_loop_requests w (length segments) segments [] 0%nat st)
    as (acc & st1 & Hloop & Ht & Hr).
  unfold processTranscriptionSegments. rewrite Hsegs.
  unfold try_catch. rewrite (bind_normal _ _ _ _ _ Hloop). cbn [ret snd].
  split; [exact Ht |]. split; [exact Hr |].
  apply requested_texts_not_empty.
Qed.

Lemma fanout_asks_once_per_segment_at_five_segments :
  tr_segments (Sample.transcript (SegmentsArray Sample.five_segments))
  = SegmentsArray Sample.five_segments
  /\ let st' :=
       snd (processTranscriptionSegments Fixture.codec_world
              (Sample.transcript (SegmentsArray Sample.five_segments))
              Sample.fresh) in
     detect_texts (st_trace st')
     = detect_texts (st_trace Sample.fresh)
       ++ requested_texts Sample.five_segments
     /\ st_requests st'
        = (st_requests Sample.fresh
           + length (requested_texts Sample.five_segments))%nat
     /\ Forall (fun text => text <> "")
          (requested_texts Sample.five_segments).
Proof.
  split; [reflexivity |].
  apply (fanout_asks_once_per_segment_with_text Fixture.codec_world
           (Sample.transcript (SegmentsArray Sample.five_segments))
           Sample.five_segments Sample.fresh).
  reflexivity.
Defined.

Lemma results_keep_segments segments :
  forall os,
    length os = length segments ->
    map es_segment (results_of segments os) = segments.
Proof.
  induction segments as [| s rest IH]; intros [| o os] H; try discriminate;
    [reflexivity |].
  cbn. f_equal. apply IH. now injection H.
Qed.

(** X6.  On a transcript with a segments array the fan-out returns the
    segments it was given, in their order and with their own properties
    unchanged, each with a detection result attached: none is dropped,
    also not one that made the detector or the loop fail. *)
Theorem fanout_returns_every_segment_in_order w tr segments st :
  tr_segments tr = SegmentsArray segments ->
  exists results overall st',
    processTranscriptionSegments w tr st
    = (Normal (FanOutOk results overall (length segments) (length segments)),
       st')
    /\ map es_segment results = segments.
Proof.
  intros Hsegs.
  destruct (fanout_spec w tr segments st Hsegs) as (st' & Hrun & _).
  eexists _, _, st'. split; [exact Hrun |].
  apply results_keep_segments, segment_outcomes_length.
Qed.

Lemma fanout_returns_every_segment_at_five_segments :
  tr_segments (Sample.transcript (SegmentsArray Sample.five_segments))
  = SegmentsArray Sample.five_segments
  /\ exists results overall st',
       processTranscriptionSegments Fixture.codec_world
         (Sample.transcript (SegmentsArray Sample.five_segments)) Sample.fresh
       = (Normal (FanOutOk results overall 5 5), st')
       /\ map es_segment results = Sample.five_segments.
Proof.
  split; [reflexivity |].
  apply (fanout_returns_every_segment_in_order Fixture.codec_world
           (Sample.transcript (SegmentsArray Sample.five_segments))
           Sample.five_segments Sample.fresh).
  reflexivity.
Defined.

(** ** The range of the overall probability *)

Lemma binary64_integer_le n :
  (0 <= n <= 2 ^ 53)%Z -> (Js.binary64 (inject_Z n) == inject_Z n)%Q.
Proof.
  intros [Hlo Hhi]. destruct (Z.eq_dec n (2 ^ 53)%Z) as [-> | Hne].
  - vm_compute. reflexivity.
  - apply binary64_integer. lia.
Qed.

Lemma rounded_between x lo hi :
  (0 <= lo <= 2 ^ 53)%Z -> (0 <= hi <= 2 ^ 53)%Z ->
  (inject_Z lo <= x <= inject_Z hi)%Q ->
  (inject_Z lo <= Js.binary64 (Qred x) <= inject_Z hi)%Q.
Proof.
  intros Hlo Hhi [Hl Hh]. split.
  - rewrite <- (binary64_integer_le lo Hlo). apply binary64_mono.
    now rewrite Qred_correct.
  - rewrite <- (binary64_integer_le hi Hhi). apply binary64_mono.
    now rewrite Qred_correct.
Qed.

(** From [2^53] on, a sum to which numbers up to 1 are added does not
    grow any more: the double nearest to [2^53 + 1] is [2^53]. *)
Lemma rounded_sum_saturates x :
  (0 <= x <= inject_Z (2 ^ 53) + 1)%Q ->
  (0 <= Js.binary64 (Qred x) <= inject_Z (2 ^ 53))%Q.
Proof.
  intros [Hl Hh]. split.
  - change 0%Q with (Js.binary64 0) at 1. apply binary64_mono.
    now rewrite Qred_correct.
  - assert (Htop : (Js.binary64 (inject_Z (2 ^ 53) + 1)
                    == inject_Z (2 ^ 53))%Q) by (vm_compute; reflexivity).
    rewrite <- Htop. apply binary64_mono. now rewrite Qred_correct.
Qed.

(** The sum of [k] numbers between 0 and 1 is between 0 and [k], and
    between 0 and [2^53] whatever [k] is. *)
Lemma js_sum_in_range qs :
  Forall (fun q => (0 <= q <= 1)%Q) qs ->
  forall init k,
    (0 <= init <= inject_Z (Z.min (Z.of_nat k) (2 ^ 53)))%Q ->
    (0 <= fold_left Js.add qs init
     <= inject_Z (Z.min (Z.of_nat (k + length qs)) (2 ^ 53)))%Q.
Proof.
  induction 1 as [| q rest [Hlo Hhi] _ IH]; intros init k Hinit.
  - cbn [fold_left length]. now rewrite Nat.add_0_r.
  - cbn [fold_left length].
    replace (k + S (length rest))%nat with (S k + length rest)%nat by lia.
    apply IH. unfold Js.add. destruct Hinit as [Hinit_lo Hinit_hi].
    destruct (Z_lt_le_dec (Z.of_nat k) (2 ^ 53)%Z) as [Hsmall | Hbig].
    + rewrite Z.min_l in Hinit_hi by lia. rewrite Z.min_l by lia.
      apply (rounded_between (init + q) 0 (Z.of_nat (S k))); [lia | lia |].
      rewrite Nat2Z.inj_succ, <- Z.add_1_r, inject_Z_plus.
      change (inject_Z 0) with 0%Q. change (inject_Z 1) with 1%Q. lra.
    + rewrite Z.min_r in Hinit_hi by lia. rewrite Z.min_r by lia.
      apply rounded_sum_saturates. lra.
Qed.

Lemma mean_in_range qs :
  Forall (fun q => (0 <= q <= 1)%Q) qs ->
  (0 <= arithmetic_mean qs <= 1)%Q.
Proof.
  intros H. destruct qs as [| q rest].
  - cbn. split; [apply Qle_refl | discriminate].
  - unfold arithmetic_mean, js_sum.
    destruct (js_sum_in_range _ H 0 0%nat) as [Hlo Hhi].
    { split; [apply Qle_refl | discriminate]. }
    cbn [Nat.add] in Hhi.
    assert (Hcap : (inject_Z (Z.min (Z.of_nat (length (q :: rest))) (2 ^ 53))
                    <= inject_Z (Z.of_nat (length (q :: rest))))%Q).
    { rewrite <- Zle_Qle. lia. }
    assert (Hpos : (0 < inject_Z (Z.of_nat (length (q :: rest))))%Q).
    { rewrite <- (Zlt_Qlt 0). cbn [length]. lia. }
    unfold Js.div. apply (rounded_between _ 0 1); [lia | lia |].
    change (inject_Z 0) with 0%Q. change (inject_Z 1) with 1%Q.
    split.
    + apply Qle_shift_div_l; [exact Hpos |]. now rewrite Qmult_0_l.
    + apply Qle_shift_div_r; [exact Hpos |]. rewrite Qmult_1_l. lra.
Qed.

Lemma num_or_zero_in_range p :
  (0 <= p <= 1)%Q -> (0 <= Js.num_or (Some p) 0 <= 1)%Q.
Proof.
  intros H. unfold Js.num_or. destruct (Qeq_bool p 0); [| exact H].
  split; [apply Qle_refl | discriminate].
Qed.

Lemma valid_probabilities_in_range segments :
  forall os,
    forallb scored_in_range os = true ->
    Forall (fun q => (0 <= q <= 1)%Q)
      (valid_probabilities (results_of segments os)).
Proof.
  unfold valid_probabilities.
  induction segments as [| s rest IH]; intros [| o os] Hall;
    try constructor.
  cbn [forallb] in Hall. apply andb_true_iff in Hall as [Ho Hos].
  specialize (IH os Hos). cbn [results_of List.filter].
  destruct (is_valid_result (result_of s o)) eqn:Hvalid; [| exact IH].
  cbn [map]. constructor; [| exact IH].
  unfold ai_probability_of.
  destruct o as [| | [p pred c m | error details]].
  - cbn. split; [apply Qle_refl | discriminate].
  - discriminate.
  - cbn in Ho. apply andb_true_iff in Ho as [Hlo Hhi].
    apply Qle_bool_iff in Hlo, Hhi.
    apply num_or_zero_in_range. now split.
  - cbn. split; [apply Qle_refl | discriminate].
Qed.

(** X7.  When every probability the detector reports for the segments of
    a transcript lies between 0 and 1, so does the overall probability
    the fan-out returns, whichever segments are empty or fail: the sums
    and the quotient are rounded to the nearest double, which keeps them
    within the bounds. *)
Theorem fanout_overall_stays_in_range w tr segments st :
  tr_segments tr = SegmentsArray segments ->
  forallb scored_in_range (segment_outcomes w (st_requests st) segments)
  = true ->
  exists results overall st',
    processTranscriptionSegments w tr st
    = (Normal (FanOutOk results overall (length segments) (length segments)),
       st')
    /\ (0 <= overall <= 1)%Q.
Proof.
  intros Hsegs Hrange.
  destruct (fanout_spec w tr segments st Hsegs) as (st' & Hrun & _).
  eexists _, _, st'. split; [exact Hrun |].
  rewrite overall_is_mean.
  now apply mean_in_range, valid_probabilities_in_range.
Qed.

Lemma fanout_overall_stays_in_range_at_five_segments :
  (tr_segments (Sample.transcript (SegmentsArray Sample.five_segments))
   = SegmentsArray Sample.five_segments
   /\ forallb scored_in_range
        (segment_outcomes Fixture.codec_world 0 Sample.five_segments) = true)
  /\ exists results overall st',
       processTranscriptionSegments Fixture.codec_world
         (Sample.transcript (SegmentsArray Sample.five_segments)) Sample.fresh
       = (Normal (FanOutOk results overall 5 5), st')
       /\ (0 <= overall <= 1)%Q.
Proof.
  split; [split; reflexivity |].
  apply (fanout_overall_stays_in_range Fixture.codec_world
           (Sample.transcript (SegmentsArray Sample.five_segments))
           Sample.five_segments Sample.fresh); reflexivity.
Defined.

(** ** Reading, again *)

Lemma parse_json_fields_reads_only w row :
  exists parsed,
    forall st,
      fst (parse_json_fields w row st) = Normal parsed
      /\ st_db (snd (parse_json_fields w row st)) = st_db st.
Proof.
  unfold parse_json_fields.
  destruct (parse_column w (row_transcription row) JNull) as [t | e];
    [destruct (parse_column w (row_ai_probabilities row) JNull) as [a | e] |];
    eexists; intros st; split; reflexivity.
Qed.

Lemma getAnalysisResult_reads_only w id :
  forall st1 st2,
    st_db st1 = st_db st2 ->
    fst (getAnalysisResult w id st1) = fst (getAnalysisResult w id st2)
    /\ st_db (snd (getAnalysisResult w id st1)) = st_db st1.
Proof.
  intros st1 st2 Hdb. unfold getAnalysisResult, try_catch, getAnalysisById.
  unfold bind at 1 3 5. rewrite <- Hdb.
  destruct (st_db st1 !! id) as [row |]; [| split; reflexivity].
  destruct (parse_json_fields_reads_only w row) as (parsed & Hparse).
  destruct (Hparse st1) as [H1 Hd1]. destruct (Hparse st2) as [H2 _].
  unfold bind.
  destruct (parse_json_fields w row st1) as [[p1 | e1] s1];
    destruct (parse_json_fields w row st2) as [[p2 | e2] s2];
    cbn [fst snd] in *; try discriminate.
  inversion H1; inversion H2; subst. split; [reflexivity | exact Hd1].
Qed.

(** X8.  Reading a record changes no record, and reading it again gives
    the same result: the read is repeatable, whether the record exists,
    parses, or not. *)
Theorem reads_are_repeatable w id st :
  st_db (snd (getAnalysisResult w id st)) = st_db st
  /\ fst (getAnalysisResult w id (snd (getAnalysisResult w id st)))
     = fst (getAnalysisResult w id st).
Proof.
  destruct (getAnalysisResult_reads_only w id st st eq_refl) as [_ Hdb].
  split; [exact Hdb |].
  now destruct (getAnalysisResult_reads_only w id
                  (snd (getAnalysisResult w id st)) st Hdb).
Qed.

(** X9.  The route takes only [pending] and [processing] for a job in
    progress: a record that a run has left at one of the intermediate
    statuses [video_processed], [audio_converted] or [transcribed] is
    answered 200 with the body of a completed job, carrying that
    status. *)
Theorem intermediate_status_is_answered_as_completed w id st row :
  st_db st !! id = Some row ->
  Route.uuidPattern_test id = true ->
  In (row_status row) ["video_processed"; "audio_converted"; "transcribed"] ->
  exists view,
    fst (Route.get_result w id st)
    = Normal {| Route.http_status := 200;
                Route.http_body := Route.BodyCompleted id view |}
    /\ rv_status view = row_status row
    /\ rv_id view = row_id row.
Proof.
  intros Hrow Hvalid Hstatus.
  destruct (getAnalysisResult_found w id st row Hrow)
    as (t & a & st' & Hfound & _).
  unfold Route.get_result. rewrite Hvalid. cbn [negb].
  rewrite (bind_normal _ _ _ _ _ Hfound). cbn [rv_status].
  destruct Hstatus as [H | [H | [H | []]]]; rewrite <- H; cbn;
    eexists; (split; [reflexivity | split; reflexivity]).
Qed.

Lemma intermediate_status_is_answered_as_completed_midway :
  (st_db Fixture.midway !! Sample.job = Some Fixture.midway_row
   /\ Route.uuidPattern_test Sample.job = true
   /\ In (row_status Fixture.midway_row)
        ["video_processed"; "audio_converted"; "transcribed"])
  /\ exists view,
       fst (Route.get_result Fixture.codec_world Sample.job Fixture.midway)
       = Normal {| Route.http_status := 200;
                   Route.http_body := Route.BodyCompleted Sample.job view |}
       /\ rv_status view = row_status Fixture.midway_row
       /\ rv_id view = row_id Fixture.midway_row.
Proof.
  split; [split; [reflexivity | split; [reflexivity | cbn; tauto]] |].
  apply (intermediate_status_is_answered_as_completed Fixture.codec_world
           Sample.job Fixture.midway Fixture.midway_row);
    [reflexivity | reflexivity | cbn; tauto].
Defined.

(** ** Writing a result and reading it back *)

(** The record a real-mode run that got through leaves. *)
Lemma completed_run_record w url st sp ap wav oi wi tr segments :
  isDemoMode w = false ->
  st_db st !! uuidv4 w = None ->
  processVideo w url (uuidv4 w) = VideoOk sp ap ->
  processAudio w ap (uuidv4 w) = AudioOk wav oi wi ->
  transcribeAudio w wav (uuidv4 w) = TranscribeOk tr ->
  tr_segments tr = SegmentsArray segments ->
  let results :=
    results_of segments (segment_outcomes w (st_requests st) segments) in
  exists fr st_end row,
    startAnalysis w url st = (Normal (RetSuccess (uuidv4 w) fr), st_end)
    /\ fr_transcription fr = PayloadSegments results
    /\ st_db st_end !! uuidv4 w
       = Some (updated_row w (CURRENT_TIMESTAMP w (st_writes st + 5))
                 "completed" (completed_data w fr) row)
    /\ row_transcription row = None.
Proof.
  intros Hreal Hfresh Hv Ha Ht Hsegs results.
  destruct (fanout_spec w tr segments
              (before_detect w url (uuidv4 w) sp ap wav (after_writes w url st))
              Hsegs) as (st1 & Hfan & Hdb & Hwrites & _).
  rewrite requests_before_detect in Hfan. fold results in Hfan.
  destruct (lookup_after_writes w url st Hfresh)
    as (row0 & Hrow0 & _ & Htr0 & _).
  eexists _, _, _. split.
  - apply real_run_returning; [exact Hreal |].
    rewrite (try_block_fresh w url st _ Hfresh), Hreal.
    apply (real_branch_completes w url (uuidv4 w) _ _ sp ap wav oi wi tr _ st1
             Hv Ha Ht Hfan).
  - split; [reflexivity |]. split.
    + cbn [st_db after_emit]. unfold after_update at 1. cbn [st_db].
      rewrite lookup_alter_eq. cbn [st_db st_writes after_now after_check].
      rewrite Hdb, Hwrites.
      unfold before_detect, before_transcribe, before_audio.
      cbn [st_db st_writes after_emit after_update].
      rewrite !lookup_alter_eq, Hrow0. cbn [fmap option_fmap option_map].
      unfold after_writes. cbn [st_writes after_update after_insert after_now].
      replace (S (S (S (S (S (st_writes st)))))) with (st_writes st + 5)%nat
        by lia.
      reflexivity.
    + cbn. unfold set_if. cbn. exact Htr0.
Qed.

(** X10.  The transcription of a job that got through is serialised by
    the orchestrator and once more by [updateStatus], and parsed once by
    the read.  With a codec that gives back a text it has written, what
    [getAnalysisResult] returns as the transcription of the completed job
    is therefore a string, the serialised segments, and not the
    segments. *)
Theorem completed_transcription_reads_back_as_text
    w url st sp ap wav oi wi tr segments :
  isDemoMode w = false ->
  st_db st !! uuidv4 w = None ->
  processVideo w url (uuidv4 w) = VideoOk sp ap ->
  processAudio w ap (uuidv4 w) = AudioOk wav oi wi ->
  transcribeAudio w wav (uuidv4 w) = TranscribeOk tr ->
  tr_segments tr = SegmentsArray segments ->
  let once :=
    JSON_stringify w
      (PayloadSegments
         (results_of segments
            (segment_outcomes w (st_requests st) segments))) in
  let twice := JSON_stringify w (PayloadText once) in
  once <> "" ->
  twice <> "" ->
  JSON_parse w twice = Some (JStr once) ->
  exists view,
    fst (getAnalysisResult w (uuidv4 w) (snd (startAnalysis w url st)))
    = Normal (GetOk view)
    /\ rv_status view = "completed"
    /\ rv_transcription view = JStr once.
Proof.
  intros Hreal Hfresh Hv Ha Ht Hsegs once twice Honce Htwice Hparse.
  destruct (completed_run_record w url st sp ap wav oi wi tr segments
              Hreal Hfresh Hv Ha Ht Hsegs)
    as (fr & st_end & row & Hstart & Hfr & Hrow & _).
  rewrite Hstart. cbn [snd].
  destruct (getAnalysisResult_found w (uuidv4 w) st_end _ Hrow)
    as (t & a & st' & Hfound & Hfields).
  rewrite Hfound. cbn [fst]. eexists. split; [reflexivity |].
  split; [reflexivity |]. cbn [rv_transcription].
  unfold parse_json_fields in Hfields.
  assert (Hcolumn :
            parse_column w
              (row_transcription
                 (updated_row w (CURRENT_TIMESTAMP w (st_writes st + 5))
                    "completed" (completed_data w fr) row)) JNull
            = Normal (JStr once)).
  { cbn [row_transcription updated_row completed_data transcription].
    rewrite Hfr. fold once. unfold set_if.
    cbn [Js.truthy_str]. apply String.eqb_neq in Honce. rewrite Honce.
    cbn [negb option_map]. fold twice. unfold parse_column.
    cbn [Js.truthy_str]. apply String.eqb_neq in Htwice. rewrite Htwice.
    cbn [negb]. now rewrite Hparse. }
  rewrite Hcolumn in Hfields.
  destruct (parse_column w _ JNull) in Hfields; inversion Hfields; reflexivity.
Qed.

Lemma completed_transcription_reads_back_as_text_at_five_segments :
  (isDemoMode Fixture.codec_world = false
   /\ st_db Sample.fresh !! uuidv4 Fixture.codec_world = None
   /\ JSON_stringify Fixture.codec_world
        (PayloadSegments
           (results_of Sample.five_segments
              (segment_outcomes Fixture.codec_world 0 Sample.five_segments)))
      = "{}"
   /\ JSON_parse Fixture.codec_world
        (JSON_stringify Fixture.codec_world (PayloadText "{}"))
      = Some (JStr "{}"))
  /\ exists view,
       fst (getAnalysisResult Fixture.codec_world Sample.job
              (snd (startAnalysis Fixture.codec_world Sample.url
                      Sample.fresh)))
       = Normal (GetOk view)
       /\ rv_status view = "completed"
       /\ rv_transcription view = JStr "{}".
Proof.
  split; [repeat split |].
  apply (completed_transcription_reads_back_as_text Fixture.codec_world
           Sample.url Sample.fresh "screenshots/shot.png" "audio/raw.webm"
           "audio/wav/a.wav" "webm" "wav"
           (Sample.transcript (SegmentsArray Sample.five_segments))
           Sample.five_segments);
    try reflexivity; discriminate.
Defined.

(** ** ElevenLabsService *)

Lemma map_items_all {A B} (f : A -> B) (P : B -> Prop) items ys :
  (forall x, P (f x)) -> Scribe.map_items f items = Some ys -> Forall P ys.
Proof.
  intros Hf. revert ys.
  induction items as [| [x |] rest IH]; intros ys H; cbn in H;
    try discriminate.
  - inversion H. constructor.
  - destruct (Scribe.map_items f rest) as [ys' |]; [| discriminate].
    inversion H; subst. constructor; [apply Hf | now apply IH].
Qed.

Lemma map_items_null {A B} (f : A -> B) items :
  In None items -> Scribe.map_items f items = None.
Proof.
  induction items as [| [x |] rest IH]; intros Hin; cbn.
  - destruct Hin.
  - destruct Hin as [H | H]; [discriminate |]. now rewrite (IH H).
  - reflexivity.
Qed.

(** A segment none of whose properties is missing. *)
Lemma map_segment_complete segment :
  seg_text (Scribe.map_segment segment) <> TextAbsent
  /\ is_Some (seg_speaker (Scribe.map_segment segment))
  /\ is_Some (seg_confidence (Scribe.map_segment segment)).
Proof.
  cbn. split; [| split; eexists; reflexivity].
  now destruct (Scribe.raw_text segment).
Qed.

(** X11.  Whatever the response of the transcription endpoint looks like,
    every segment [processTranscription] returns has a text (a missing one
    has become the empty string), a speaker and a confidence: the fan-out
    never meets a segment with a property missing. *)
Theorem processed_segments_are_complete rawData :
  Forall
    (fun segment =>
       seg_text segment <> TextAbsent
       /\ is_Some (seg_speaker segment)
       /\ is_Some (seg_confidence segment))
    (Scribe.s_segments (Scribe.processTranscription rawData)).
Proof.
  unfold Scribe.processTranscription.
  destruct (Scribe.map_array Scribe.map_segment (Scribe.raw_segments rawData))
    as [segments |] eqn:Hsegs; [| constructor].
  destruct (Scribe.map_array Scribe.map_speaker (Scribe.raw_speakers rawData));
    [| constructor].
  destruct (Scribe.map_array Scribe.map_word (Scribe.raw_words rawData));
    [| constructor].
  cbn [Scribe.s_segments].
  destruct ((length segments =? 0)%nat
            && negb (Js.str_or (Scribe.raw_data_text rawData) "" =? "")).
  - constructor; [| constructor].
    cbn. split; [discriminate | split; eexists; reflexivity].
  - unfold Scribe.map_array in Hsegs.
    destruct (Scribe.raw_segments rawData) as [| | items];
      try (inversion Hsegs; constructor).
    eapply map_items_all; [| exact Hsegs]. apply map_segment_complete.
Qed.

(** X12.  A [null] entry in the segments array of the response makes
    [processTranscription] give up on all of it: the transcript it returns
    has no segment at all, no metadata, and the marker "Failed to process
    transcription data", however many valid segments the array had. *)
Theorem null_segment_discards_every_segment rawData items :
  Scribe.raw_segments rawData = Scribe.RawItems items ->
  In None items ->
  let t := Scribe.processTranscription rawData in
  Scribe.s_segments t = []
  /\ Scribe.s_metadata t = Scribe.MetadataNone
  /\ Scribe.s_error t = Some "Failed to process transcription data"
  /\ Scribe.s_text t = Js.str_or (Scribe.raw_data_text rawData) "".
Proof.
  intros Hsegs Hnull. cbv zeta. unfold Scribe.processTranscription.
  rewrite Hsegs. cbn [Scribe.map_array].
  rewrite (map_items_null Scribe.map_segment items Hnull).
  repeat split.
Qed.

Lemma null_segment_discards_every_segment_of_holed_data :
  (Scribe.raw_segments Fixture.holed_data
   = Scribe.RawItems
       [ Some {| Scribe.raw_start := Some 0%Q; Scribe.raw_end := Some 1%Q;
                 Scribe.raw_text := TextStr "hello";
                 Scribe.raw_speaker := None;
                 Scribe.raw_confidence := None |};
         None ])
  /\ let t := Scribe.processTranscription Fixture.holed_data in
     Scribe.s_segments t = []
     /\ Scribe.s_metadata t = Scribe.MetadataNone
     /\ Scribe.s_error t = Some "Failed to process transcription data"
     /\ Scribe.s_text t
        = Js.str_or (Scribe.raw_data_text Fixture.holed_data) "".
Proof.
  split; [reflexivity |].
  apply (null_segment_discards_every_segment Fixture.holed_data
           [ Some {| Scribe.raw_start := Some 0%Q; Scribe.raw_end := Some 1%Q;
                     Scribe.raw_text := TextStr "hello";
                     Scribe.raw_speaker := None;
                     Scribe.raw_confidence := None |};
             None ]);
    [reflexivity | cbn; tauto].
Defined.

(** With a text, the transcript has a segment unless the processing gave
    up. *)
Lemma text_gives_a_segment rawData :
  Js.truthy_str (Scribe.raw_data_text rawData) = true ->
  let t := Scribe.processTranscription rawData in
  (Scribe.s_error t = None /\ Scribe.s_segments t <> [])
  \/ (Scribe.s_error t = Some "Failed to process transcription data"
      /\ Scribe.s_segments t = []).
Proof.
  intros Htext. cbv zeta. unfold Scribe.processTranscription.
  destruct (Scribe.map_array Scribe.map_segment (Scribe.raw_segments rawData))
    as [segments |]; [| right; split; reflexivity].
  destruct (Scribe.map_array Scribe.map_speaker (Scribe.raw_speakers rawData));
    [| right; split; reflexivity].
  destruct (Scribe.map_array Scribe.map_word (Scribe.raw_words rawData));
    [| right; split; reflexivity].
  left. split; [reflexivity |]. cbn [Scribe.s_segments].
  assert (Hne : negb (Js.str_or (Scribe.raw_data_text rawData) "" =? "") = true).
  { destruct (Scribe.raw_data_text rawData) as [s |]; [| discriminate].
    cbn in Htext |- *. destruct (s =? "") eqn:E; [discriminate |].
    now rewrite E. }
  rewrite Hne, andb_true_r.
  destruct segments; [discriminate | discriminate].
Qed.

(** X13.  [transcribeAudio] uploads the audio file exactly when it
    exists.  When it reports success, the file existed, the endpoint
    answered with a non-empty text, and the transcript either has at least
    one segment or carries the processing error and has none. *)
Theorem transcribeAudio_success_has_a_segment_or_an_error env audioFilePath :
  snd (Scribe.transcribeAudio env audioFilePath)
  = (if Scribe.existsSync env audioFilePath then [audioFilePath] else [])
  /\ forall t,
       fst (Scribe.transcribeAudio env audioFilePath) = Scribe.Ok t ->
       Scribe.existsSync env audioFilePath = true
       /\ (exists data,
             Scribe.post env audioFilePath = Scribe.Answered (Some data)
             /\ Js.truthy_str (Scribe.raw_data_text data) = true
             /\ t = Scribe.processTranscription data)
       /\ ((Scribe.s_error t = None /\ Scribe.s_segments t <> [])
           \/ (Scribe.s_error t = Some "Failed to process transcription data"
               /\ Scribe.s_segments t = [])).
Proof.
  unfold Scribe.transcribeAudio.
  destruct (Scribe.existsSync env audioFilePath); cbn [negb].
  2: { split; [reflexivity | intros t H; discriminate]. }
  destruct (Scribe.post env audioFilePath) as [[data |] | message details].
  - destruct (Js.truthy_str (Scribe.raw_data_text data)) eqn:Htext.
    + split; [reflexivity |]. intros t H. inversion H; subst.
      split; [reflexivity |]. split; [now exists data |].
      now apply text_gives_a_segment.
    + split; [reflexivity | intros t H; discriminate].
  - split; [reflexivity | intros t H; discriminate].
  - split; [reflexivity | intros t H; discriminate].
Qed.

(** X14.  When the response has a text but no segment (no segments
    property, one that is no array, or an empty array) and the processing
    does not give up, the transcript has exactly one segment: the whole
    text, from 0 to the duration of the response (0 without one), with
    the speaker "unknown". *)
Theorem text_without_segments_becomes_one_segment rawData text :
  Scribe.raw_data_text rawData = Some text ->
  text <> "" ->
  match Scribe.raw_segments rawData with
  | Scribe.RawItems (_ :: _) => False
  | _ => True
  end ->
  Scribe.s_error (Scribe.processTranscription rawData) = None ->
  Scribe.s_segments (Scribe.processTranscription rawData)
  = [ {| seg_start := 0;
         seg_end :=
           Js.num_or (Some (Js.num_or (Scribe.raw_duration rawData) 0)) 0;
         seg_text := TextStr text;
         seg_speaker := Some "unknown";
         seg_confidence :=
           Some (Js.num_or
                   (Some (Js.num_or (Scribe.raw_data_confidence rawData) 0))
                   0) |} ].
Proof.
  intros Htext Hne Hnone. unfold Scribe.processTranscription.
  assert (Hsegs : Scribe.map_array Scribe.map_segment
                    (Scribe.raw_segments rawData) = Some []).
  { destruct (Scribe.raw_segments rawData) as [| | [| item items]];
      try reflexivity. destruct Hnone. }
  rewrite Hsegs.
  destruct (Scribe.map_array Scribe.map_speaker (Scribe.raw_speakers rawData));
    [| discriminate].
  destruct (Scribe.map_array Scribe.map_word (Scribe.raw_words rawData));
    [| discriminate].
  intros _. cbn [Scribe.s_segments length Nat.eqb andb].
  rewrite Htext. cbn [Js.str_or].
  apply String.eqb_neq in Hne. rewrite Hne. cbn [negb]. rewrite Hne.
  reflexivity.
Qed.

Lemma text_without_segments_becomes_one_segment_of_plain_data :
  (Scribe.raw_data_text Fixture.plain_data = Some "hello world"
   /\ "hello world" <> ""
   /\ Scribe.raw_segments Fixture.plain_data = Scribe.RawAbsent
   /\ Scribe.s_error (Scribe.processTranscription Fixture.plain_data) = None)
  /\ Scribe.s_segments (Scribe.processTranscription Fixture.plain_data)
     = [ {| seg_start := 0;
            seg_end :=
              Js.num_or
                (Some (Js.num_or (Scribe.raw_duration Fixture.plain_data) 0))
                0;
            seg_text := TextStr "hello world";
            seg_speaker := Some "unknown";
            seg_confidence :=
              Some (Js.num_or
                      (Some (Js.num_or
                               (Scribe.raw_data_confidence Fixture.plain_data)
                               0)) 0) |} ].
Proof.
  split; [repeat split; discriminate |].
  apply (text_without_segments_becomes_one_segment Fixture.plain_data
           "hello world"); [reflexivity | discriminate | exact I | reflexivity].
Defined.

(** ** YouTubeService: the audio format *)

Lemma pick_keeps_the_last_best formats acc x :
  last_of_the_best formats acc ->
  last_of_the_best (formats ++ [x]) (Tube.pick acc x).
Proof.
  intros (before & after & Heq & Hbefore & Hafter). unfold Tube.pick.
  destruct (Qle_bool (Tube.bitrate acc) (Tube.bitrate x)) eqn:Hle.
  - apply Qle_bool_iff in Hle.
    exists formats, []. split; [reflexivity |]. split; [| constructor].
    rewrite Heq. apply Forall_app. split; [| constructor].
    + eapply Forall_impl; [exact Hbefore |].
      intros f Hf. cbn in Hf. eapply Qle_trans; eassumption.
    + exact Hle.
    + eapply Forall_impl; [exact Hafter |].
      intros f Hf. cbn in Hf. apply Qlt_le_weak.
      eapply Qlt_le_trans; eassumption.
  - assert (Hlt : (Tube.bitrate x < Tube.bitrate acc)%Q).
    { apply Qnot_le_lt. intros H. apply Qle_bool_iff in H. congruence. }
    exists before, (after ++ [x]). split.
    + rewrite Heq, <- app_assoc. reflexivity.
    + split; [exact Hbefore |]. apply Forall_app. split; [exact Hafter |].
      constructor; [exact Hlt | constructor].
Qed.

Lemma reduce_keeps_the_last_best rest :
  forall formats acc,
    last_of_the_best formats acc ->
    last_of_the_best (formats ++ rest) (fold_left Tube.pick rest acc).
Proof.
  induction rest as [| x rest IH]; intros formats acc H.
  - now rewrite app_nil_r.
  - cbn [fold_left].
    replace (formats ++ x :: rest) with ((formats ++ [x]) ++ rest)
      by now rewrite <- app_assoc.
    apply IH. now apply pick_keeps_the_last_best.
Qed.

(** X15.  From a list of audio formats that is not empty the download
    picks a format of the list with the highest bitrate (a missing bitrate
    counting as 0), and among several with the highest bitrate the last
    one; on an empty list it throws "No audio formats available". *)
Theorem bestAudio_is_the_last_of_the_best audioFormats :
  match Tube.bestAudio audioFormats with
  | Normal best =>
      audioFormats <> [] /\ last_of_the_best audioFormats best
      /\ Forall (fun f => (Tube.bitrate f <= Tube.bitrate best)%Q)
           audioFormats
  | Throw message =>
      audioFormats = [] /\ message = "No audio formats available"
  end.
Proof.
  destruct audioFormats as [| first rest]; cbn [Tube.bestAudio].
  - split; reflexivity.
  - split; [discriminate |].
    assert (H : last_of_the_best ([first] ++ rest)
                  (fold_left Tube.pick rest first)).
    { apply reduce_keeps_the_last_best. exists [], [].
      split; [reflexivity | split; constructor]. }
    cbn [app] in H. split; [exact H |].
    destruct H as (before & after & Heq & Hbefore & Hafter).
    rewrite Heq. apply Forall_app. split; [exact Hbefore |].
    constructor; [apply Qle_refl |].
    eapply Forall_impl; [exact Hafter |].
    intros f Hf. now apply Qlt_le_weak.
Qed.

(** ** AudioService: the cleanup *)

#[local] Set Warnings "-clear-no-such-hyp".

Lemma cleanup_loop_bounds unlink_error filePaths :
  forall files : gset string,
    snd (Audio.cleanup_loop unlink_error filePaths files) ⊆ files
    /\ files ∖ list_to_set filePaths
       ⊆ snd (Audio.cleanup_loop unlink_error filePaths files).
Proof.
  induction filePaths as [| filePath rest IH]; intros files;
    cbn [Audio.cleanup_loop].
  - cbn. set_solver.
  - case_bool_decide as Hin.
    + destruct (unlink_error filePath) as [message |].
      * cbn. set_solver.
      * destruct (IH (files ∖ {[filePath]})) as [H1 H2].
        rewrite list_to_set_cons. set_solver.
    + destruct (IH files) as [H1 H2].
      rewrite list_to_set_cons. set_solver.
Qed.

Lemma cleanup_loop_without_errors unlink_error filePaths :
  forallb (fun p => bool_decide (unlink_error p = None)) filePaths = true ->
  forall files : gset string,
    Audio.cleanup_loop unlink_error filePaths files
    = (Normal tt, files ∖ list_to_set filePaths).
Proof.
  induction filePaths as [| filePath rest IH]; intros Hall files;
    cbn [Audio.cleanup_loop].
  - f_equal. set_solver.
  - cbn [forallb] in Hall. apply andb_true_iff in Hall as [Hp Hrest].
    apply bool_decide_eq_true in Hp. rewrite Hp.
    rewrite list_to_set_cons.
    case_bool_decide as Hin; rewrite (IH Hrest); f_equal; set_solver.
Qed.

(** X16.  [cleanupTempFiles] never removes a file that is not in its
    list and never creates one, whatever [unlink] does: the files left are
    among those there were, and every file not listed is still there. *)
Theorem cleanup_touches_only_listed_files unlink_error filePaths
    (files : gset string) :
  fst (Audio.cleanupTempFiles unlink_error filePaths files) ⊆ files
  /\ files ∖ list_to_set filePaths
     ⊆ fst (Audio.cleanupTempFiles unlink_error filePaths files).
Proof.
  unfold Audio.cleanupTempFiles.
  pose proof (cleanup_loop_bounds unlink_error filePaths files) as H.
  destruct (Audio.cleanup_loop unlink_error filePaths files) as [[u | e] f];
    exact H.
Qed.

(** X17.  When no [unlink] fails, [cleanupTempFiles] leaves exactly the
    files that were not listed, and logs no warning; a listed path that
    does not exist is passed over. *)
Theorem cleanup_removes_every_listed_file unlink_error filePaths
    (files : gset string) :
  forallb (fun p => bool_decide (unlink_error p = None)) filePaths = true ->
  Audio.cleanupTempFiles unlink_error filePaths files
  = (files ∖ list_to_set filePaths, false).
Proof.
  intros Hall. unfold Audio.cleanupTempFiles.
  now rewrite (cleanup_loop_without_errors unlink_error filePaths Hall).
Qed.

Lemma cleanup_removes_every_listed_file_of_the_fixture :
  forallb (fun p => bool_decide (Fixture.locked p = None))
    ["audio/a.webm"; "audio/missing.webm"] = true
  /\ Audio.cleanupTempFiles Fixture.locked
       ["audio/a.webm"; "audio/missing.webm"] Fixture.files
     = (Fixture.files ∖ list_to_set ["audio/a.webm"; "audio/missing.webm"],
        false).
Proof.
  split; [reflexivity |].
  apply (cleanup_removes_every_listed_file Fixture.locked
           ["audio/a.webm"; "audio/missing.webm"] Fixture.files).
  reflexivity.
Defined.

(** X18.  The first [unlink] that fails ends the cleanup: the files
    listed before it are removed, the file itself and every file listed
    after it stay, and a warning is logged instead of an error being
    thrown. *)
Theorem cleanup_stops_at_the_first_error unlink_error done filePath rest
    message (files : gset string) :
  forallb (fun p => bool_decide (unlink_error p = None)) done = true ->
  filePath ∈ files ->
  filePath ∉ done ->
  unlink_error filePath = Some message ->
  Audio.cleanupTempFiles unlink_error (done ++ filePath :: rest) files
  = (files ∖ list_to_set done, true).
Proof.
  intros Hdone Hin Hnot Herr. unfold Audio.cleanupTempFiles.
  revert files Hin.
  induction done as [| p done IH]; intros files Hin.
  - cbn [app Audio.cleanup_loop]. rewrite bool_decide_eq_true_2 by exact Hin.
    rewrite Herr. f_equal. set_solver.
  - cbn [forallb] in Hdone. apply andb_true_iff in Hdone as [Hp Hdone].
    apply bool_decide_eq_true in Hp.
    apply not_elem_of_cons in Hnot as [Hne Hnot].
    cbn [app Audio.cleanup_loop]. rewrite Hp. rewrite list_to_set_cons.
    case_bool_decide as Hpin.
    + rewrite (IH Hdone Hnot (files ∖ {[p]})) by set_solver.
      f_equal. set_solver.
    + rewrite (IH Hdone Hnot files Hin). f_equal. set_solver.
Qed.

Lemma cleanup_stops_at_the_first_error_of_the_fixture :
  (forallb (fun p => bool_decide (Fixture.locked p = None)) ["audio/a.webm"]
   = true
   /\ ("audio/b.webm" ∈ Fixture.files)
   /\ ("audio/b.webm" ∉ ["audio/a.webm"])
   /\ Fixture.locked "audio/b.webm" = Some "EPERM: operation not permitted")
  /\ Audio.cleanupTempFiles Fixture.locked
       (["audio/a.webm"] ++ "audio/b.webm" :: ["audio/wav/a.wav"])
       Fixture.files
     = (Fixture.files ∖ list_to_set ["audio/a.webm"], true).
Proof.
  assert (Hin : "audio/b.webm" ∈ Fixture.files)
    by (unfold Fixture.files; set_solver).
  assert (Hnot : "audio/b.webm" ∉ ["audio/a.webm"])
    by (intros H; apply list_elem_of_singleton in H; discriminate).
  split; [repeat split; assumption |].
  apply (cleanup_stops_at_the_first_error Fixture.locked ["audio/a.webm"]
           "audio/b.webm" ["audio/wav/a.wav"] "EPERM: operation not permitted"
           Fixture.files); [reflexivity | exact Hin | exact Hnot | reflexivity].
Defined.

(** ** The submission route *)

Lemma accepted_url_is_truthy url :
  Submit.urlPattern_test url = true -> Js.truthy_str (Some url) = true.
Proof. destruct url; [discriminate | reflexivity]. Qed.

Lemma post_analyze_valid w development url st :
  Submit.urlPattern_test url = true ->
  Submit.post_analyze w development (Some url) st
  = try_catch
      (analysisResult <- startAnalysis w url ;;
       match analysisResult with
       | RetUndefined => throw Submit.undefined_success_error
       | RetSuccess analysis_id _ =>
           ret {| Submit.http_status := 202;
                  Submit.http_body :=
                    Submit.BodyAccepted analysis_id "processing" |}
       | RetFailure _ error _ =>
           ret {| Submit.http_status := 500;
                  Submit.http_body := Submit.BodyStartFailed error |}
       end)
      (fun message =>
         ret {| Submit.http_status := 500;
                Submit.http_body :=
                  Submit.BodyInternal
                    (if development then message
                     else "Something went wrong") |}) st.
Proof.
  intros Hvalid. unfold Submit.post_analyze.
  now rewrite (accepted_url_is_truthy url Hvalid), Hvalid.
Qed.

(** The record a simulated run leaves. *)
Lemma demo_run_record w url st :
  isDemoMode w = true ->
  st_db st !! uuidv4 w = None ->
  demo_fs_error w = None ->
  exists st_end row,
    startAnalysis w url st = (Normal RetUndefined, st_end)
    /\ st_db st_end !! uuidv4 w = Some row
    /\ row_status row = "completed"
    /\ row_error_message row = None.
Proof.
  intros Hdemo Hfresh Hfs.
  rewrite (demo_run_state w url st Hdemo Hfresh Hfs).
  eexists _, _. split; [reflexivity |]. split.
  - cbn [st_db after_now]. apply lookup_after_update.
    cbn [st_db after_now after_emit]. unfold after_writes.
    apply lookup_after_update. cbn [st_db after_insert after_now].
    apply lookup_insert_eq.
  - split; reflexivity.
Qed.

(** X19.  In demo mode a valid submission is answered 500 "Internal
    server error", although the run behind it went through and left the
    record completed: the route reads [success] of the [undefined] that
    [startAnalysis] returns, and its [catch] answers for the
    [TypeError].  The message of the error is only shown in
    development. *)
Theorem demo_submission_is_answered_500 w development url st :
  isDemoMode w = true ->
  Submit.urlPattern_test url = true ->
  st_db st !! uuidv4 w = None ->
  demo_fs_error w = None ->
  exists st_end row,
    Submit.post_analyze w development (Some url) st
    = (Normal
         {| Submit.http_status := 500;
            Submit.http_body :=
              Submit.BodyInternal
                (if development then Submit.undefined_success_error
                 else "Something went wrong") |}, st_end)
    /\ st_db st_end !! uuidv4 w = Some row
    /\ row_status row = "completed"
    /\ row_error_message row = None.
Proof.
  intros Hdemo Hvalid Hfresh Hfs.
  destruct (demo_run_record w url st Hdemo Hfresh Hfs)
    as (st_end & row & Hrun & Hrow & Hstatus & Herr).
  exists st_end, row. split; [| repeat split; assumption].
  rewrite (post_analyze_valid w development url st Hvalid).
  unfold try_catch. now rewrite (bind_normal _ _ _ _ _ Hrun).
Qed.

Lemma demo_submission_is_answered_500_in_demo_world :
  (isDemoMode Sample.demo_world = true
   /\ Submit.urlPattern_test Sample.url = true
   /\ st_db Sample.fresh !! uuidv4 Sample.demo_world = None
   /\ demo_fs_error Sample.demo_world = None)
  /\ exists st_end row,
       Submit.post_analyze Sample.demo_world false (Some Sample.url)
         Sample.fresh
       = (Normal
            {| Submit.http_status := 500;
               Submit.http_body :=
                 Submit.BodyInternal
                   (if false then Submit.undefined_success_error
                    else "Something went wrong") |}, st_end)
       /\ st_db st_end !! uuidv4 Sample.demo_world = Some row
       /\ row_status row = "completed"
       /\ row_error_message row = None.
Proof.
  split; [repeat split |].
  apply (demo_submission_is_answered_500 Sample.demo_world false Sample.url
           Sample.fresh); reflexivity.
Defined.

(** X20.  A submission without a URL, with an empty one, or with one the
    pattern rejects is answered 400 and leaves the state as it was: no
    record is written and nothing is called.  Every other submission is
    answered, with a status that is not 400. *)
Theorem only_invalid_submissions_are_answered_400 w development input st :
  match input with
  | Some url =>
      if negb (url =? "") && Submit.urlPattern_test url then
        exists response,
          fst (Submit.post_analyze w development input st) = Normal response
          /\ Submit.http_status response <> 400%nat
      else
        Submit.post_analyze w development input st
        = (Normal
             {| Submit.http_status := 400;
                Submit.http_body :=
                  if url =? "" then Submit.BodyUrlRequired
                  else Submit.BodyInvalidUrl |}, st)
  | None =>
      Submit.post_analyze w development input st
      = (Normal {| Submit.http_status := 400;
                   Submit.http_body := Submit.BodyUrlRequired |}, st)
  end.
Proof.
  destruct input as [url |]; [| reflexivity].
  destruct (url =? "") eqn:Hempty; cbn [negb andb].
  - unfold Submit.post_analyze. cbn [Js.truthy_str]. now rewrite Hempty.
  - destruct (Submit.urlPattern_test url) eqn:Hvalid.
    + rewrite (post_analyze_valid w development url st Hvalid).
      unfold try_catch, bind.
      destruct (startAnalysis w url st) as [[[| id fr | id error elapsed] | e] st'];
        eexists; (split; [reflexivity | discriminate]).
    + unfold Submit.post_analyze. cbn [Js.truthy_str].
      now rewrite Hempty, Hvalid.
Qed.

(** X21.  In real mode a valid submission is answered either 202 with the
    identifier of the job and the status "processing", when the run returns
    success, or 500 "Failed to start analysis" with, as its details, the
    very message of the failure the run returns; it is never answered with
    the generic internal error.  The route does nothing but the run. *)
Theorem real_submission_is_accepted_or_reports_the_failure
    w development url st :
  isDemoMode w = false ->
  Submit.urlPattern_test url = true ->
  (exists fr,
     fst (startAnalysis w url st) = Normal (RetSuccess (uuidv4 w) fr)
     /\ Submit.post_analyze w development (Some url) st
        = (Normal {| Submit.http_status := 202;
                     Submit.http_body :=
                       Submit.BodyAccepted (uuidv4 w) "processing" |},
           snd (startAnalysis w url st)))
  \/ exists message elapsed,
       fst (startAnalysis w url st)
       = Normal (RetFailure (uuidv4 w) message elapsed)
       /\ Submit.post_analyze w development (Some url) st
          = (Normal {| Submit.http_status := 500;
                       Submit.http_body := Submit.BodyStartFailed message |},
             snd (startAnalysis w url st)).
Proof.
  intros Hreal Hvalid.
  rewrite (post_analyze_valid w development url st Hvalid).
  unfold try_catch, bind.
  destruct (startAnalysis_real_mode_result w url st Hreal)
    as [[fr H] | (message & elapsed & H)];
    destruct (startAnalysis w url st) as [c st']; cbn [fst snd] in H |- *;
    subst c.
  - left. now exists fr.
  - right. now exists message, elapsed.
Qed.

Lemma real_submission_reports_the_failure_at_bad_codec :
  (isDemoMode Sample.bad_codec_world = false
   /\ Submit.urlPattern_test Sample.url = true)
  /\ ((exists fr,
         fst (startAnalysis Sample.bad_codec_world Sample.url Sample.fresh)
         = Normal (RetSuccess (uuidv4 Sample.bad_codec_world) fr)
         /\ Submit.post_analyze Sample.bad_codec_world false (Some Sample.url)
              Sample.fresh
            = (Normal {| Submit.http_status := 202;
                         Submit.http_body :=
                           Submit.BodyAccepted (uuidv4 Sample.bad_codec_world)
                             "processing" |},
               snd (startAnalysis Sample.bad_codec_world Sample.url
                      Sample.fresh)))
      \/ exists message elapsed,
           fst (startAnalysis Sample.bad_codec_world Sample.url Sample.fresh)
           = Normal (RetFailure (uuidv4 Sample.bad_codec_world) message
                       elapsed)
           /\ Submit.post_analyze Sample.bad_codec_world false
                (Some Sample.url) Sample.fresh
              = (Normal {| Submit.http_status := 500;
                           Submit.http_body :=
                             Submit.BodyStartFailed message |},
                 snd (startAnalysis Sample.bad_codec_world Sample.url
                        Sample.fresh))).
Proof.
  split; [split; reflexivity |].
  apply (real_submission_is_accepted_or_reports_the_failure
           Sample.bad_codec_world false Sample.url Sample.fresh); reflexivity.
Defined.

(** X22.  The 202 answer is only sent when the run has ended: for a
    real-mode run with a free identifier whose three adapters succeed, the
    route answers 202 with the status "processing" while the record it
    names is already completed. *)
Theorem accepted_submission_is_already_completed
    w development url st sp ap wav oi wi tr :
  isDemoMode w = false ->
  Submit.urlPattern_test url = true ->
  st_db st !! uuidv4 w = None ->
  processVideo w url (uuidv4 w) = VideoOk sp ap ->
  processAudio w ap (uuidv4 w) = AudioOk wav oi wi ->
  transcribeAudio w wav (uuidv4 w) = TranscribeOk tr ->
  exists st_end row,
    Submit.post_analyze w development (Some url) st
    = (Normal {| Submit.http_status := 202;
                 Submit.http_body :=
                   Submit.BodyAccepted (uuidv4 w) "processing" |}, st_end)
    /\ st_db st_end !! uuidv4 w = Some row
    /\ row_status row = "completed".
Proof.
  intros Hreal Hvalid Hfresh Hv Ha Ht.
  destruct (real_run_completes w url st sp ap wav oi wi tr
              Hreal Hfresh Hv Ha Ht)
    as (r & st1 & st_end & row & _ & Hstart & _ & Hrow & Hstatus & _).
  exists st_end, row. split; [| split; assumption].
  rewrite (post_analyze_valid w development url st Hvalid).
  unfold try_catch. now rewrite (bind_normal _ _ _ _ _ Hstart).
Qed.

Lemma accepted_submission_is_already_completed_in_codec_world :
  (isDemoMode Fixture.codec_world = false
   /\ Submit.urlPattern_test Sample.url = true
   /\ st_db Sample.fresh !! uuidv4 Fixture.codec_world = None)
  /\ exists st_end row,
       Submit.post_analyze Fixture.codec_world false (Some Sample.url)
         Sample.fresh
       = (Normal {| Submit.http_status := 202;
                    Submit.http_body :=
                      Submit.BodyAccepted (uuidv4 Fixture.codec_world)
                        "processing" |}, st_end)
       /\ st_db st_end !! uuidv4 Fixture.codec_world = Some row
       /\ row_status row = "completed".
Proof.
  split; [repeat split |].
  apply (accepted_submission_is_already_completed Fixture.codec_world false
           Sample.url Sample.fresh "screenshots/shot.png" "audio/raw.webm"
           "audio/wav/a.wav" "webm" "wav"
           (Sample.transcript (SegmentsArray Sample.five_segments)));
    reflexivity.
Defined.

(** ** The record of a failed run *)

(** The record a real-mode run leaves when its [try] block throws a
    message that is not empty. *)
Lemma thrown_run_record w url st message st1 row1 :
  isDemoMode w = false ->
  try_block w url (uuidv4 w) (Date_now w (st_clock st)) (after_now st)
  = (Throw message, st1) ->
  message <> "" ->
  st_db st1 !! uuidv4 w = Some row1 ->
  let elapsed := (Date_now w (st_clock st1) - Date_now w (st_clock st))%Z in
  exists row,
    fst (startAnalysis w url st)
    = Normal (RetFailure (uuidv4 w) message elapsed)
    /\ st_db (snd (startAnalysis w url st)) !! uuidv4 w = Some row
    /\ row_status row = "failed"
    /\ row_error_message row = Some message
    /\ row_processing_time row
       = (if (elapsed =? 0)%Z then row_processing_time row1 else Some elapsed)
    /\ row_transcription row = row_transcription row1
    /\ row_ai_probabilities row = row_ai_probabilities row1.
Proof.
  intros Hreal Hbody Hne Hrow1 elapsed.
  rewrite (real_run_throwing w url st message st1 Hreal Hbody).
  eexists. split; [reflexivity |]. split.
  - cbn [snd st_db after_emit]. apply lookup_after_update.
    cbn [st_db after_now]. exact Hrow1.
  - split; [reflexivity |]. cbn. unfold set_if. cbn [Js.truthy_str].
    apply String.eqb_neq in Hne. rewrite Hne. cbn [negb].
    fold elapsed. split; [reflexivity |].
    split; [now destruct (elapsed =? 0)%Z | split; reflexivity].
Qed.

Lemma row_before_audio w url sp ap st :
  st_db st !! uuidv4 w = None ->
  exists row,
    st_db (before_audio w url (uuidv4 w) sp ap (after_writes w url st))
    !! uuidv4 w = Some row
    /\ row_transcription row = None /\ row_ai_probabilities row = None
    /\ row_processing_time row = None.
Proof.
  intros Hfresh.
  destruct (lookup_after_writes w url st Hfresh)
    as (row & Hrow & _ & Htr & Hai & _ & Htime).
  unfold before_audio. cbn [st_db after_emit].
  erewrite lookup_after_update; [| cbn [st_db after_emit]; exact Hrow].
  eexists. split; [reflexivity |]. cbn. unfold set_if. cbn.
  repeat split; assumption.
Qed.

Lemma row_before_transcribe w url sp ap wav st :
  st_db st !! uuidv4 w = None ->
  exists row,
    st_db (before_transcribe w url (uuidv4 w) sp ap wav
             (after_writes w url st))
    !! uuidv4 w = Some row
    /\ row_transcription row = None /\ row_ai_probabilities row = None
    /\ row_processing_time row = None.
Proof.
  intros Hfresh.
  destruct (row_before_audio w url sp ap st Hfresh)
    as (row & Hrow & Htr & Hai & Htime).
  unfold before_transcribe. cbn [st_db after_emit].
  erewrite lookup_after_update; [| exact Hrow].
  eexists. split; [reflexivity |]. cbn. unfold set_if. cbn.
  repeat split; assumption.
Qed.

(** X23.  Whenever a real-mode run with a free identifier returns a
    failure, that is whenever the capture, the transcoder or the
    transcription fails, its record is [failed], carries the very message
    the run returned, and has neither a transcription nor a detection
    payload; its processing time is the elapsed time the run returned,
    unless that is zero, in which case the column is left empty. *)
Theorem failed_run_record_matches_the_returned_failure
    w url st id message elapsed :
  isDemoMode w = false ->
  st_db st !! uuidv4 w = None ->
  fst (startAnalysis w url st) = Normal (RetFailure id message elapsed) ->
  exists row,
    id = uuidv4 w
    /\ st_db (snd (startAnalysis w url st)) !! uuidv4 w = Some row
    /\ row_status row = "failed"
    /\ row_error_message row = Some message
    /\ row_processing_time row
       = (if (elapsed =? 0)%Z then None else Some elapsed)
    /\ row_transcription row = None
    /\ row_ai_probabilities row = None.
Proof.
  intros Hreal Hfresh Hret.
  pose proof (try_block_fresh w url st (Date_now w (st_clock st)) Hfresh)
    as Hblock.
  rewrite Hreal in Hblock.
  destruct (lookup_after_writes w url st Hfresh)
    as (row0 & Hrow0 & _ & Htr0 & Hai0 & _ & Htime0).
  destruct (processVideo w url (uuidv4 w)) as [sp ap | error] eqn:Hv.
  2: { rewrite (real_branch_video_fails w url (uuidv4 w) _ _ error Hv)
         in Hblock.
       destruct (thrown_run_record w url st _ _ row0 Hreal Hblock)
         as (row & Hfst & Hrow & Hstatus & Hmsg & Htime & Htr & Hai);
         [discriminate | exact Hrow0 |].
       rewrite Hfst in Hret. inversion Hret; subst.
       exists row. rewrite Htime, Htr, Hai, Htime0.
       repeat split; assumption. }
  destruct (processAudio w ap (uuidv4 w)) as [wav oi wi | error] eqn:Ha.
  2: { rewrite (real_branch_audio_fails w url (uuidv4 w) _ _ sp ap error
                  Hv Ha) in Hblock.
       destruct (row_before_audio w url sp ap st Hfresh)
         as (row1 & Hrow1 & Htr1 & Hai1 & Htime1).
       destruct (thrown_run_record w url st _ _ row1 Hreal Hblock)
         as (row & Hfst & Hrow & Hstatus & Hmsg & Htime & Htr & Hai);
         [discriminate | exact Hrow1 |].
       rewrite Hfst in Hret. inversion Hret; subst.
       exists row. rewrite Htime, Htr, Hai, Htime1.
       repeat split; assumption. }
  destruct (transcribeAudio w wav (uuidv4 w)) as [tr | error details] eqn:Ht.
  2: { rewrite (real_branch_transcribe_fails w url (uuidv4 w) _ _ sp ap wav
                  oi wi error details Hv Ha Ht) in Hblock.
       destruct (row_before_transcribe w url sp ap wav st Hfresh)
         as (row1 & Hrow1 & Htr1 & Hai1 & Htime1).
       destruct (thrown_run_record w url st _ _ row1 Hreal Hblock)
         as (row & Hfst & Hrow & Hstatus & Hmsg & Htime & Htr & Hai);
         [discriminate | exact Hrow1 |].
       rewrite Hfst in Hret. inversion Hret; subst.
       exists row. rewrite Htime, Htr, Hai, Htime1.
       repeat split; assumption. }
  destruct (real_run_completes w url st sp ap wav oi wi tr
              Hreal Hfresh Hv Ha Ht)
    as (r & st1 & st_end & row & _ & Hstart & _).
  rewrite Hstart in Hret. discriminate.
Qed.

Lemma failed_run_record_matches_at_bad_codec :
  (isDemoMode Sample.bad_codec_world = false
   /\ st_db Sample.fresh !! uuidv4 Sample.bad_codec_world = None
   /\ fst (startAnalysis Sample.bad_codec_world Sample.url Sample.fresh)
      = Normal (RetFailure Sample.job "Audio conversion failed: bad codec"
                  250))
  /\ exists row,
       Sample.job = uuidv4 Sample.bad_codec_world
       /\ st_db (snd (startAnalysis Sample.bad_codec_world Sample.url
                        Sample.fresh))
          !! uuidv4 Sample.bad_codec_world = Some row
       /\ row_status row = "failed"
       /\ row_error_message row = Some "Audio conversion failed: bad codec"
       /\ row_processing_time row = (if (250 =? 0)%Z then None else Some 250%Z)
       /\ row_transcription row = None
       /\ row_ai_probabilities row = None.
Proof.
  split; [repeat split |].
  apply (failed_run_record_matches_the_returned_failure
           Sample.bad_codec_world Sample.url Sample.fresh Sample.job
           "Audio conversion failed: bad codec" 250); reflexivity.
Defined.
